(** * Spec migration tooling of the jts repository

    A shallow embedding of [scripts/utilities/migrate-spec-structure.py]
    (class [SpecMigrator]) and of [scripts/fix-spec-ids.py], and the
    properties their specification states about them.

    Conventions of the embedding.
    - A Python [str] is a [string]; a character stands for the code
      point of its number, so the texts of the embedding are those with
      code points below 256.  The character classes ([isdigit], [\w],
      [\d], [isspace]) are those of Python on these code points.  The
      properties that depend on a class are stated for ASCII text
      ([PyStr.isascii]), for which it does not matter how a text with
      other characters is encoded.
    - A Python [dict] is an association list in insertion order with
      unique keys ([Dict.set] overwrites in place, as Python does), since
      the scripts iterate over their dictionaries.
    - A frontmatter value is a [value]: null, boolean, integer, string or
      a list of values.  Mappings nested in the frontmatter, floats and
      dates are outside the embedding.
    - An exception that leaves a function is a [Raise]; a loop that may
      not terminate is run with fuel and reports [Diverge] when it is
      exhausted.
    - The filesystem is the set of its files; a directory is there when
      a file lies under it.  Every operation on it can fail as the
      environment decides, a write also after it has emptied or partly
      filled its file.  A file is known by the string of its path, as a
      directory scan yields it: the filesystem tells upper case from
      lower case and has no links.
    - PyYAML ([yaml.safe_load], [yaml.dump]) and [hashlib.md5] are not
      part of the repository: the functions that call them take them as
      parameters. *)

From Stdlib Require Import String Ascii List ZArith Lia Bool Arith.
From Stdlib Require Import DecimalString DecimalNat Permutation Sorted.
Import ListNotations.
Open Scope list_scope.
Open Scope string_scope.

Set Implicit Arguments.
Set Warnings "-register-all".

(** ** Python strings *)

Module PyStr.

Definition char_in (lo hi : nat) (c : ascii) : bool :=
  let n := nat_of_ascii c in ((lo <=? n)%nat && (n <=? hi)%nat)%bool.

(** A decimal digit: [[0-9]], and [\d] of [re]. *)
Definition is_digit (c : ascii) : bool := char_in 48 57 c.

(** [c.isdigit()]: the decimal digits and the superscript digits
    (two, three, one). *)
Definition is_digit_like (c : ascii) : bool :=
  is_digit c || char_in 178 179 c || char_in 185 185 c.

(** A word character of [re], [\w]: [[A-Za-z0-9_]], and beyond ASCII
    the letters and the numbers. *)
Definition is_word (c : ascii) : bool :=
  is_digit c || char_in 65 90 c || char_in 97 122 c || (nat_of_ascii c =? 95)%nat
  || char_in 170 170 c || char_in 178 179 c || char_in 181 181 c
  || char_in 185 186 c || char_in 188 190 c || char_in 192 214 c
  || char_in 216 246 c || char_in 248 255 c.

(** [c.isspace()]. *)
Definition is_space (c : ascii) : bool :=
  char_in 9 13 c || char_in 28 32 c || char_in 133 133 c || char_in 160 160 c.

(** [c.isascii()]. *)
Definition is_ascii (c : ascii) : bool := (nat_of_ascii c <? 128)%nat.

Fixpoint all_chars (p : ascii -> bool) (s : string) : bool :=
  match s with
  | EmptyString => true
  | String c s' => p c && all_chars p s'
  end.

(** [s.isascii()]. *)
Definition isascii (s : string) : bool := all_chars is_ascii s.

(** [s.isdigit()]: at least one character, all of them digits. *)
Definition isdigit (s : string) : bool :=
  match s with
  | EmptyString => false
  | _ => all_chars is_digit_like s
  end.

Fixpoint int_acc (s : string) (acc : Z) : Z :=
  match s with
  | EmptyString => acc
  | String c s' => int_acc s' (10 * acc + Z.of_nat (nat_of_ascii c - 48))
  end.

(** The number a string of decimal digits writes. *)
Definition int_of (s : string) : Z := int_acc s 0.

(** [sys.get_int_max_str_digits()], as Python sets it. *)
Definition int_max_str_digits : nat := 4300.

(** [str(n)] and [f"{n:02d}"] on a counter. *)
Definition str_nat (n : nat) : string :=
  NilEmpty.string_of_uint (Nat.to_uint n).

Definition fmt_02d (n : nat) : string :=
  let s := str_nat n in
  if (String.length s <? 2)%nat then "0" ++ s else s.

(** [str(z)] on an integer. *)
Definition str_Z (z : Z) : string :=
  NilEmpty.string_of_int (Z.to_int z).

(** [s.startswith(p)]. *)
Definition startswith (p s : string) : bool := String.prefix p s.

(** [s[n:]]. *)
Fixpoint drop (n : nat) (s : string) : string :=
  match n, s with
  | O, _ => s
  | S n', String _ s' => drop n' s'
  | S _, EmptyString => EmptyString
  end.

(** [s[:n]]. *)
Fixpoint take (n : nat) (s : string) : string :=
  match n, s with
  | O, _ => EmptyString
  | S n', String c s' => String c (take n' s')
  | S _, EmptyString => EmptyString
  end.

(** [s.find(p)]: the index of the first occurrence of [p] in [s]. *)
Fixpoint find (p s : string) : option nat :=
  if startswith p s then Some 0
  else match s with
       | EmptyString => None
       | String _ s' => option_map S (find p s')
       end.

(** [p in s]. *)
Definition contains (p s : string) : bool :=
  match find p s with Some _ => true | None => false end.

(** [s.split(c)] on a one-character separator: never the empty list. *)
Fixpoint split (c : ascii) (s : string) : list string :=
  match s with
  | EmptyString => [EmptyString]
  | String a s' =>
      if Ascii.eqb a c then EmptyString :: split c s'
      else match split c s' with
           | [] => [String a EmptyString]
           | w :: ws => String a w :: ws
           end
  end.

(** [sep.join(parts)]. *)
Fixpoint join (sep : string) (parts : list string) : string :=
  match parts with
  | [] => EmptyString
  | [p] => p
  | p :: ps => p ++ sep ++ join sep ps
  end.

(** [s.lstrip()], [s.rstrip()], [s.strip()]. *)
Fixpoint lstrip (s : string) : string :=
  match s with
  | String c s' => if is_space c then lstrip s' else s
  | EmptyString => EmptyString
  end.

Fixpoint rstrip (s : string) : string :=
  match s with
  | EmptyString => EmptyString
  | String c s' =>
      match rstrip s' with
      | EmptyString => if is_space c then EmptyString else String c EmptyString
      | r => String c r
      end
  end.

Definition strip (s : string) : string := rstrip (lstrip s).

(** [s.replace(old, new)]: every occurrence, leftmost first, without
    overlap.  [skip] counts the characters of a replaced occurrence still
    to be passed over.  With an empty [old] Python inserts [new] between
    all characters; that case is written out. *)
Fixpoint replace_from (old new : string) (skip : nat) (s : string) : string :=
  match s with
  | EmptyString => EmptyString
  | String c s' =>
      match skip with
      | S k => replace_from old new k s'
      | O =>
          if startswith old s
          then new ++ replace_from old new (String.length old - 1) s'
          else String c (replace_from old new 0 s')
      end
  end.

Fixpoint intersperse (new s : string) : string :=
  match s with
  | EmptyString => new
  | String c s' => new ++ String c (intersperse new s')
  end.

Definition replace (old new s : string) : string :=
  match old with
  | EmptyString => intersperse new s
  | _ => replace_from old new 0 s
  end.

End PyStr.

(** ** Python values and dictionaries *)

(** What a function call ends in: a value, an exception that leaves the
    function, or no end at all (the fuel of a loop ran out). *)
Inductive pyerr := TypeError | KeyError | ValueError | OSError.

Inductive outcome (A : Type) : Type :=
| Ok (a : A)
| Raise (e : pyerr)
| Diverge.

Arguments Ok {A} a.
Arguments Raise {A} e.
Arguments Diverge {A}.

Definition bind {A B : Type} (x : outcome A) (f : A -> outcome B) : outcome B :=
  match x with
  | Ok a => f a
  | Raise e => Raise e
  | Diverge => Diverge
  end.

Notation "x <- c1 ;; c2" := (bind c1 (fun x => c2))
  (at level 61, c1 at next level, right associativity).

Module Dict.

Section Ops.
Variable V : Type.

Definition t := list (string * V).

(** [d.get(k)]; [k in d] is [mem]. *)
Fixpoint get (k : string) (d : t) : option V :=
  match d with
  | [] => None
  | (k', v) :: d' => if String.eqb k k' then Some v else get k d'
  end.

Definition mem (k : string) (d : t) : bool :=
  match get k d with Some _ => true | None => false end.

(** [d[k] = v]: an existing key keeps its place, a new one goes last. *)
Fixpoint set (k : string) (v : V) (d : t) : t :=
  match d with
  | [] => [(k, v)]
  | (k', v') :: d' =>
      if String.eqb k k' then (k, v) :: d' else (k', v') :: set k v d'
  end.

(** [del d[k]]. *)
Fixpoint del (k : string) (d : t) : t :=
  match d with
  | [] => []
  | (k', v') :: d' => if String.eqb k k' then d' else (k', v') :: del k d'
  end.

Definition keys (d : t) : list string := map fst d.
Definition values (d : t) : list V := map snd d.

End Ops.

End Dict.

Inductive value : Type :=
| VNull
| VBool (b : bool)
| VInt (z : Z)
| VStr (s : string)
| VList (l : list value).

Module Py.

(** [int(s)] on a string that [s.isdigit()] accepts: a [ValueError]
    for a digit that is not decimal, and for a string of more digits
    than Python converts. *)
Definition int (s : string) : outcome Z :=
  if PyStr.all_chars PyStr.is_digit s
     && (String.length s <=? PyStr.int_max_str_digits)%nat
  then Ok (PyStr.int_of s)
  else Raise ValueError.

(** [bool(v)]. *)
Definition truthy (v : value) : bool :=
  match v with
  | VNull => false
  | VBool b => b
  | VInt z => negb (Z.eqb z 0)
  | VStr s => negb (String.eqb s "")
  | VList l => match l with [] => false | _ => true end
  end.

(** [repr(v)].  A string is shown between single quotes; the escapes
    Python adds for quotes, backslashes and control characters are not
    reproduced, no property below reads them. *)
Fixpoint repr (v : value) : string :=
  match v with
  | VNull => "None"
  | VBool true => "True"
  | VBool false => "False"
  | VInt z => PyStr.str_Z z
  | VStr s => "'" ++ s ++ "'"
  | VList l => "[" ++ PyStr.join ", " (map repr l) ++ "]"
  end.

(** [str(v)]. *)
Definition str (v : value) : string :=
  match v with
  | VStr s => s
  | _ => repr v
  end.

(** [v == 'lit']. *)
Definition eq_str (v : value) (lit : string) : bool :=
  match v with
  | VStr s => String.eqb s lit
  | _ => false
  end.

(** Hashing [v] to look it up in a dictionary whose keys are strings:
    a list is unhashable, a string is its own key, any other scalar is
    equal to no string. *)
Definition as_key (v : value) : outcome (option string) :=
  match v with
  | VStr s => Ok (Some s)
  | VList _ => Raise TypeError
  | _ => Ok None
  end.

(** [v in d] and [d.get(v)] for such a dictionary. *)
Definition mem_value {V : Type} (v : value) (d : Dict.t V) : outcome bool :=
  k <- as_key v ;;
  Ok (match k with Some s => Dict.mem s d | None => false end).

(** [for x in v]: the elements of a list, the characters of a string;
    other values are not iterable. *)
Fixpoint chars (s : string) : list value :=
  match s with
  | EmptyString => []
  | String c s' => VStr (String c EmptyString) :: chars s'
  end.

Definition iter (v : value) : outcome (list value) :=
  match v with
  | VList l => Ok l
  | VStr s => Ok (chars s)
  | _ => Raise TypeError
  end.

End Py.

(** ** The migrator's state *)

(** One entry of [specs_data]. *)
Record spec_info := mk_spec_info {
  metadata : Dict.t value;
  body : string;
  file_path : string;
  type : value
}.

(** One entry of [migration_log]. *)
Inductive log_entry :=
| LogSpec (old_id new_id unique_id old_path new_path : string)
| LogContext (old_path new_path : string).

(** The attributes of a [SpecMigrator]. *)
Record migrator := mk_migrator {
  spec_map : Dict.t string;
  unique_ids : Dict.t string;
  specs_data : Dict.t spec_info;
  migration_log : list log_entry
}.

(** [SpecMigrator.__init__]. *)
Definition init : migrator := mk_migrator [] [] [] [].

Definition set_spec_map (m : Dict.t string) (st : migrator) : migrator :=
  mk_migrator m (unique_ids st) (specs_data st) (migration_log st).

Definition TYPE_PREFIXES : Dict.t string :=
  [("epic", "E"); ("feature", "F"); ("task", "T");
   ("subtask", "S"); ("bug", "B"); ("spike", "K")].

(** ** Hierarchy resolution: [build_hierarchy_map] *)

Module Hierarchy.

(** [str(metadata.get('parent', '')) if metadata.get('parent') else ''] *)
Definition parent_key (md : Dict.t value) : string :=
  match Dict.get "parent" md with
  | Some v => if Py.truthy v then Py.str v else ""
  | None => ""
  end.

(** The four dictionaries the first loop fills. *)
Record groups := mk_groups {
  epics : Dict.t (Dict.t value);
  features_by_parent : Dict.t (list string);
  tasks_by_parent : Dict.t (list string);
  subtasks_by_parent : Dict.t (list string)
}.

(** [if parent not in g: g[parent] = []] then [g[parent].append(old_id)]. *)
Definition group_add (parent old_id : string) (g : Dict.t (list string))
  : Dict.t (list string) :=
  match Dict.get parent g with
  | None => Dict.set parent [old_id] g
  | Some l => Dict.set parent (l ++ [old_id])%list g
  end.

(** The body of the grouping loop. *)
Definition group_one (g : groups) (entry : string * spec_info) : groups :=
  let (old_id, spec_info) := entry in
  let md := metadata spec_info in
  let spec_type := type spec_info in
  let parent := parent_key md in
  if Py.eq_str spec_type "epic" then
    mk_groups (Dict.set old_id md (epics g)) (features_by_parent g)
              (tasks_by_parent g) (subtasks_by_parent g)
  else if Py.eq_str spec_type "feature" then
    mk_groups (epics g) (group_add parent old_id (features_by_parent g))
              (tasks_by_parent g) (subtasks_by_parent g)
  else if Py.eq_str spec_type "task" then
    mk_groups (epics g) (features_by_parent g)
              (group_add parent old_id (tasks_by_parent g)) (subtasks_by_parent g)
  else if Py.eq_str spec_type "subtask" then
    mk_groups (epics g) (features_by_parent g)
              (tasks_by_parent g) (group_add parent old_id (subtasks_by_parent g))
  else g.

Definition group_specs (specs : Dict.t spec_info) : groups :=
  fold_left group_one specs (mk_groups [] [] [] []).

(** [lambda x: int(x) if x.isdigit() else 0] *)
Definition sort_key (x : string) : outcome Z :=
  if PyStr.isdigit x then Py.int x else Ok 0%Z.

(** [sorted(ids, key=...)]: the key of every element is computed
    first, in the order of the list, and an error of a key leaves the
    call; then the elements are sorted by their keys.  Python's sort is
    stable. *)
Fixpoint keyed (l : list string) : outcome (list (Z * string)) :=
  match l with
  | [] => Ok []
  | x :: l' =>
      k <- sort_key x ;;
      rest <- keyed l' ;;
      Ok ((k, x) :: rest)
  end.

Fixpoint insert_by_key (x : Z * string) (l : list (Z * string))
  : list (Z * string) :=
  match l with
  | [] => [x]
  | y :: l' =>
      if (fst x <=? fst y)%Z then x :: y :: l'
      else y :: insert_by_key x l'
  end.

Definition sorted (l : list string) : outcome (list string) :=
  kl <- keyed l ;;
  Ok (map snd (fold_right insert_by_key [] kl)).

(** One numbering loop: [counter = first; for id in ids: spec_map[id] =
    f"{prefix}{counter:02d}"; counter += 1; <inner>]. *)
Fixpoint number_loop (prefix : string)
    (inner : string -> Dict.t string -> outcome (Dict.t string))
    (ids : list string) (counter : nat) (m : Dict.t string)
  : outcome (Dict.t string) :=
  match ids with
  | [] => Ok m
  | id :: rest =>
      m1 <- inner id (Dict.set id (prefix ++ PyStr.fmt_02d counter) m) ;;
      number_loop prefix inner rest (S counter) m1
  end.

(** [if parent in by_parent: ids = sorted(by_parent[parent]); <loop>] *)
Definition number_children (by_parent : Dict.t (list string)) (prefix : string)
    (inner : string -> Dict.t string -> outcome (Dict.t string))
    (parent : string) (m : Dict.t string) : outcome (Dict.t string) :=
  match Dict.get parent by_parent with
  | Some members =>
      ids <- sorted members ;;
      number_loop prefix inner ids 1 m
  | None => Ok m
  end.

Definition no_inner (_ : string) (m : Dict.t string) : outcome (Dict.t string) :=
  Ok m.

Definition assign_subtasks (g : groups) :=
  number_children (subtasks_by_parent g) "S" no_inner.

Definition assign_tasks (g : groups) :=
  number_children (tasks_by_parent g) "T" (assign_subtasks g).

Definition assign_features (g : groups) :=
  number_children (features_by_parent g) "F" (assign_tasks g).

Definition assign_epics (g : groups) (m : Dict.t string) : outcome (Dict.t string) :=
  epic_ids <- sorted (Dict.keys (epics g)) ;;
  number_loop "E" (assign_features g) epic_ids 1 m.

(** [TYPE_PREFIXES.get(spec_type, 'T')] *)
Definition type_prefix (spec_type : value) : outcome string :=
  k <- Py.as_key spec_type ;;
  Ok (match k with
      | Some s => match Dict.get s TYPE_PREFIXES with Some p => p | None => "T" end
      | None => "T"
      end).

(** The loop over the specs that the hierarchy left without a number. *)
Fixpoint assign_orphans (specs : Dict.t spec_info) (m : Dict.t string)
  : outcome (Dict.t string) :=
  match specs with
  | [] => Ok m
  | (old_id, spec_info) :: rest =>
      if Dict.mem old_id m then assign_orphans rest m
      else
        prefix <- type_prefix (type spec_info) ;;
        assign_orphans rest (Dict.set old_id (prefix ++ "99_" ++ old_id) m)
  end.

Definition build_hierarchy_map (st : migrator) : outcome migrator :=
  let g := group_specs (specs_data st) in
  m <- assign_epics g (spec_map st) ;;
  m' <- assign_orphans (specs_data st) m ;;
  Ok (set_spec_map m' st).

End Hierarchy.

(** ** New paths: [get_new_path] *)

Module Paths.

(** A [Path] is kept as the list of the parts it was built from;
    [new_path / "spec.md"] adds a part. *)
Definition path := list string.

Definition slash : ascii := ascii_of_nat 47.

(** The components of one part: [pathlib] splits it at [/] and drops
    the empty components and the components [.]. *)
Definition components (part : string) : list string :=
  filter (fun c => negb (String.eqb c "") && negb (String.eqb c "."))
         (PyStr.split slash part).

(** The root a part starts with: none, [/], or [//] when it starts
    with exactly two slashes. *)
Definition root_of (part : string) : string :=
  if PyStr.startswith "/" part then
    if PyStr.startswith "//" part && negb (PyStr.startswith "///" part)
    then "//" else "/"
  else "".

(** A part that has a root drops the parts before it. *)
Definition add_part (acc : string * list string) (part : string)
  : string * list string :=
  if PyStr.startswith "/" part then (root_of part, components part)
  else (fst acc, (snd acc ++ components part)%list).

Definition normal (p : path) : string * list string :=
  fold_left add_part p ("", []).

(** [str(path)]: the root and the components, joined by [/]; the path
    without root and components is [.]. *)
Definition path_str (p : path) : string :=
  let (root, cs) := normal p in
  match root, cs with
  | EmptyString, [] => "."
  | _, _ => root ++ PyStr.join "/" cs
  end.

(** A part that is one component of the path as it stands, and names
    the entry of that name in its directory. *)
Definition plain (part : string) : bool :=
  negb (String.eqb part "") && negb (String.eqb part ".")
  && negb (String.eqb part "..")
  && PyStr.all_chars (fun c => negb (Ascii.eqb c slash)) part.

(** [metadata.get('parent', '')] *)
Definition parent_id (md : Dict.t value) : value :=
  match Dict.get "parent" md with
  | Some v => v
  | None => VStr ""
  end.

(** The [while current_id:] loop; [hierarchy.insert(0, x)] is a cons.
    One unit of fuel is one evaluation of the loop condition. *)
Fixpoint walk (st : migrator) (fuel : nat) (current_id : string)
    (hierarchy : list string) : outcome (list string) :=
  match fuel with
  | O => Diverge
  | S fuel' =>
      if String.eqb current_id "" then Ok hierarchy
      else
        match Dict.get current_id (spec_map st) with
        | None => Raise KeyError
        | Some new_id =>
            let hierarchy' := new_id :: hierarchy in
            match Dict.get current_id (specs_data st) with
            | None => Raise KeyError
            | Some info =>
                let p := parent_id (metadata info) in
                if Py.truthy p then
                  k <- Py.as_key p ;;
                  match k with
                  | Some parent =>
                      if Dict.mem parent (specs_data st)
                      then walk st fuel' parent hierarchy'
                      else Ok hierarchy'
                  | None => Ok hierarchy'
                  end
                else Ok hierarchy'
            end
        end
  end.

Definition get_new_path (st : migrator) (fuel : nat) (old_id : string)
  : outcome path :=
  match Dict.get old_id (specs_data st) with
  | None => Raise KeyError
  | Some _ =>
      hierarchy <- walk st fuel old_id [] ;;
      Ok ("specs" :: hierarchy)
  end.

End Paths.

(** ** Reference rewriting: [update_spec_content] *)

Module Rewrite.

(** [new_refs = []; for ref in v: if str(ref) in spec_map:
    new_refs.append(spec_map[str(ref)])] *)
Fixpoint map_refs (m : Dict.t string) (refs : list value) : list value :=
  match refs with
  | [] => []
  | ref :: rest =>
      match Dict.get (Py.str ref) m with
      | Some new_ref => VStr new_ref :: map_refs m rest
      | None => map_refs m rest
      end
  end.

(** [if field in metadata and metadata[field]: ... metadata[field] = new_refs] *)
Definition rewrite_list_field (m : Dict.t string) (field : string)
    (md : Dict.t value) : outcome (Dict.t value) :=
  match Dict.get field md with
  | Some v =>
      if Py.truthy v then
        refs <- Py.iter v ;;
        Ok (Dict.set field (VList (map_refs m refs)) md)
      else Ok md
  | None => Ok md
  end.

(** The [parent] field is looked up as it stands. *)
Definition rewrite_parent (m : Dict.t string) (md : Dict.t value)
  : outcome (Dict.t value) :=
  match Dict.get "parent" md with
  | Some old_parent =>
      if Py.truthy old_parent then
        k <- Py.as_key old_parent ;;
        Ok (match k with
            | Some s =>
                match Dict.get s m with
                | Some new_parent => Dict.set "parent" (VStr new_parent) md
                | None => md
                end
            | None => md
            end)
      else Ok md
  | None => Ok md
  end.

(** The [epic] field is looked up through [str]. *)
Definition rewrite_epic (m : Dict.t string) (md : Dict.t value) : Dict.t value :=
  match Dict.get "epic" md with
  | Some old_epic =>
      if Py.truthy old_epic then
        match Dict.get (Py.str old_epic) m with
        | Some new_epic => Dict.set "epic" (VStr new_epic) md
        | None => md
        end
      else md
  | None => md
  end.

(** The frontmatter part of [update_spec_content], on the copy of the
    metadata. *)
Definition rewrite_metadata (st : migrator) (old_id : string)
  : outcome (Dict.t value) :=
  match Dict.get old_id (specs_data st) with
  | None => Raise KeyError
  | Some spec_info =>
      let md := metadata spec_info in
      let md := if Dict.mem "unique_id" md then Dict.del "unique_id" md else md in
      match Dict.get old_id (unique_ids st) with
      | None => Raise KeyError
      | Some uid =>
          let md := Dict.set "id" (VStr uid) md in
          md <- rewrite_parent (spec_map st) md ;;
          md <- rewrite_list_field (spec_map st) "children" md ;;
          let md := rewrite_epic (spec_map st) md in
          md <- rewrite_list_field (spec_map st) "dependencies" md ;;
          md <- rewrite_list_field (spec_map st) "blocks" md ;;
          rewrite_list_field (spec_map st) "related" md
      end
  end.

(** *** Body text

    [re.sub(rf'\b{old_ref}\b(?!\.md)', new_ref, body)] puts the old id
    into the pattern and takes the new id as the template of the
    replacement.  The scan below is that call on an ASCII body for an
    [old_ref] of literal characters ([literal]: ASCII, no operator of
    regular expressions) and a [new_ref] that is a literal template
    ([plain_template]: ASCII, no backslash): the pattern then matches
    the text [old_ref] between two word boundaries when [.md] does not
    follow.  Outside these conditions [re] reads the old id as an
    expression (and may refuse it with [re.error]); the properties of the
    scan are stated under them. *)

(** The operators of a regular expression: [. ^ $ * + ? { } [ ] \ | ( )]. *)
Definition is_operator (c : ascii) : bool :=
  existsb (Nat.eqb (nat_of_ascii c))
    [46; 94; 36; 42; 43; 63; 123; 125; 91; 93; 92; 124; 40; 41].

Definition literal (old : string) : bool :=
  PyStr.all_chars (fun c => PyStr.is_ascii c && negb (is_operator c)) old.

Definition plain_template (new : string) : bool :=
  PyStr.all_chars (fun c => PyStr.is_ascii c && negb (nat_of_ascii c =? 92)%nat) new.

Definition is_word_at (c : option ascii) : bool :=
  match c with
  | Some a => PyStr.is_word a
  | None => false
  end.

(** [\b] between the character [prev] and the character [next]. *)
Definition boundary (prev next : option ascii) : bool :=
  xorb (is_word_at prev) (is_word_at next).

Definition head (s : string) : option ascii :=
  match s with
  | EmptyString => None
  | String c _ => Some c
  end.

Fixpoint last_char (prev : option ascii) (s : string) : option ascii :=
  match s with
  | EmptyString => prev
  | String c s' => last_char (Some c) s'
  end.

(** Does the pattern match at the start of [s], [prev] being the
    character before it?  [guard] tells whether the pattern ends with the
    lookahead [(?!\\.md)]: the specs are rewritten with it, the context
    files without. *)
Definition match_at (guard : bool) (old : string) (prev : option ascii)
    (s : string) : bool :=
  let rest := PyStr.drop (String.length old) s in
  PyStr.startswith old s
  && boundary prev (head s)
  && boundary (last_char prev old) (head rest)
  && negb (guard && PyStr.startswith ".md" rest).

(** The scan of [re.sub]: leftmost match first, no overlap.  [skip]
    counts the characters of the current match still to be passed. *)
Fixpoint sub_from (guard : bool) (old new : string) (prev : option ascii)
    (skip : nat) (s : string) : string :=
  match s with
  | EmptyString =>
      match skip with
      | O => if match_at guard old prev EmptyString then new else EmptyString
      | S _ => EmptyString
      end
  | String c s' =>
      match skip with
      | S k => sub_from guard old new (Some c) k s'
      | O =>
          if match_at guard old prev s then
            match old with
            | EmptyString => new ++ String c (sub_from guard old new (Some c) 0 s')
            | _ => new ++ sub_from guard old new (Some c) (String.length old - 1) s'
            end
          else String c (sub_from guard old new (Some c) 0 s')
      end
  end.

(** [re.sub(rf'\\b{old}\\b(?!\\.md)', new, body)] and
    [re.sub(rf'\\b{old}\\b', new, content)]. *)
Definition re_sub_ref (old new body : string) : string :=
  sub_from true old new None 0 body.

Definition re_sub_word (old new content : string) : string :=
  sub_from false old new None 0 content.

(** The body of the loop over [spec_map.items()]. *)
Definition rewrite_pair (body : string) (pair : string * string) : string :=
  let (old_ref, new_ref) := pair in
  let body := re_sub_ref old_ref new_ref body in
  PyStr.replace (old_ref ++ ".md") (new_ref ++ "/spec.md") body.

Definition rewrite_body (m : Dict.t string) (body : string) : string :=
  fold_left rewrite_pair m body.

End Rewrite.

(** ** The frontmatter codec *)

(** What [yaml.safe_load] gives: a mapping, another value (a scalar, a
    sequence, [None] for an empty document), or a [YAMLError]. *)
Inductive load_result :=
| LoadMap (m : Dict.t value)
| LoadOther (v : value)
| LoadError.

(** The collaborators outside the repository: PyYAML, [hashlib.md5]
    (its [hexdigest]), the random token drawn when no seed is given, the
    backup directory named after the clock, and the texts of the log and
    of the rollback script. *)
Record externals := mk_externals {
  yaml_safe_load : string -> load_result;
  yaml_dump : Dict.t value -> string;
  md5_hexdigest : string -> string;
  random_token : string;
  BACKUP_DIR : string;
  json_dump_log : Dict.t string -> Dict.t string -> list log_entry -> string;
  rollback_script : string
}.

(** What [parse_yaml_frontmatter] returns as metadata: [metadata or {}]
    is the loaded value itself when that is not a mapping and is truthy. *)
Inductive frontmatter :=
| FMap (m : Dict.t value)
| FOther (v : value).

Module Codec.

Definition nl_char : ascii := ascii_of_nat 10.
Definition nl : string := String nl_char EmptyString.
Definition dquote : string := String (ascii_of_nat 34) EmptyString.
Definition hash_char : ascii := ascii_of_nat 35.

(** The closing delimiter searched by [re.search(r'\n---\n', ...)]. *)
Definition closing : string := nl ++ "---" ++ nl.

(** One line of the comment filter: [None] when the line is skipped. *)
Definition clean_line (line : string) : option string :=
  if PyStr.startswith "#" (PyStr.strip line) then None
  else if PyStr.contains "#" line then
    if PyStr.contains (dquote ++ "#") line || PyStr.contains "'#" line
    then Some line
    else Some (PyStr.rstrip (List.hd EmptyString (PyStr.split hash_char line)))
  else Some line.

Fixpoint clean_lines (lines : list string) : list string :=
  match lines with
  | [] => []
  | line :: rest =>
      match clean_line line with
      | Some l => l :: clean_lines rest
      | None => clean_lines rest
      end
  end.

(** [metadata or {}] *)
Definition or_empty (r : load_result) : frontmatter :=
  match r with
  | LoadMap m => FMap m
  | LoadOther v => if Py.truthy v then FOther v else FMap []
  | LoadError => FMap []
  end.

Section WithLibrary.
Variable E : externals.

(** [SpecMigrator.parse_yaml_frontmatter]: the decoder. *)
Definition parse_yaml_frontmatter (content : string) : frontmatter * string :=
  if negb (PyStr.startswith "---" content) then (FMap [], content)
  else
    let tail := PyStr.drop 3 content in
    match PyStr.find closing tail with
    | None => (FMap [], content)
    | Some start =>
        let yaml_content := PyStr.take start tail in
        let body_content := PyStr.drop (start + 5) tail in
        let yaml_lines := clean_lines (PyStr.split nl_char yaml_content) in
        match yaml_safe_load E (PyStr.join nl yaml_lines) with
        | LoadError =>
            let raw_yaml :=
              PyStr.replace "#" "" (PyStr.replace "# " "@ " yaml_content) in
            match yaml_safe_load E raw_yaml with
            | LoadError => (FMap [], content)
            | r => (or_empty r, body_content)
            end
        | r => (or_empty r, body_content)
        end
    end.

(** The section banners.  [enter] is one [elif] branch: the banner is
    written when the section changes. *)
Definition enter (section banner line current : string) : string * list string :=
  if String.eqb current section then (current, [line])
  else (section, [""; banner; line]).

(** One step of the loop over the dumped lines.  [implementation] tells
    whether the [pull_requests:] branch exists: it does in the migrator
    and does not in [fix-spec-ids.py]. *)
Definition format_line (implementation : bool) (current line : string)
  : string * list string :=
  if PyStr.startswith "id:" line then
    (current, [line ++ " # Unique identifier (never changes)"])
  else if PyStr.startswith "parent:" line then
    enter "hierarchy" "# === HIERARCHY ===" line current
  else if PyStr.startswith "status:" line then
    enter "workflow" "# === WORKFLOW ===" line current
  else if PyStr.startswith "created:" line then
    enter "tracking" "# === TRACKING ===" line current
  else if PyStr.startswith "dependencies:" line then
    enter "dependencies" "# === DEPENDENCIES ===" line current
  else if implementation && PyStr.startswith "pull_requests:" line then
    enter "implementation" "# === IMPLEMENTATION ===" line current
  else if PyStr.startswith "tags:" line then
    enter "metadata" "# === METADATA ===" line current
  else (current, [line]).

Fixpoint format_lines (implementation : bool) (current : string)
    (lines : list string) : list string :=
  match lines with
  | [] => []
  | line :: rest =>
      let (current', out) := format_line implementation current line in
      (out ++ format_lines implementation current' rest)%list
  end.

Definition header : list string :=
  ["---";
   "# ============================================================================";
   "# SPEC METADATA - This entire frontmatter section contains the spec metadata";
   "# ============================================================================";
   "";
   "# === IDENTIFICATION ==="].

(** The list [formatted_yaml] at the end of [update_spec_content]. *)
Definition formatted_yaml (md : Dict.t value) : list string :=
  (header
   ++ format_lines true "identification" (PyStr.split nl_char (yaml_dump E md))
   ++ ["---"])%list.

(** The encoder: the text [update_spec_content] puts before the body,
    ['\n'.join(formatted_yaml) + '\n']. *)
Definition encode (md : Dict.t value) : string :=
  PyStr.join nl (formatted_yaml md) ++ nl.

End WithLibrary.

End Codec.

(** [SpecMigrator.update_spec_content]. *)
Definition update_spec_content (E : externals) (st : migrator) (old_id : string)
  : outcome string :=
  match Dict.get old_id (specs_data st) with
  | None => Raise KeyError
  | Some spec_info =>
      md <- Rewrite.rewrite_metadata st old_id ;;
      let body := Rewrite.rewrite_body (spec_map st) (body spec_info) in
      Ok (Codec.encode E md ++ body)
  end.

(** ** The filesystem *)

Module FS.

(** The mutations a run performs, in the order it performs them. *)
Inductive op :=
| OpWrite (path content : string)
| OpUnlink (path : string)
| OpMkdir (path : string)
| OpCopyTree (src dst : string)
| OpRmTree (path : string)
| OpChmod (path : string).

(** How an operation fails: the environment refuses it and nothing
    happens, or, for an operation that works through its target piece by
    piece, it fails after [kept] pieces: a write leaves its file with the
    first [kept] characters of the content (the file is emptied when it
    is opened), the removal of a tree has removed its first [kept]
    files. *)
Inductive failure :=
| Refused
| Cut (kept : nat).

(** The files by path, in the order a directory scan lists them;
    directories are the prefixes of the paths.  [ops] are the mutations
    performed so far.  [clock] counts the operations attempted, and
    [fault n] tells how the operation attempted at time [n] fails, when
    it does, whatever the cause: permissions, a full disk, a file where
    a directory is expected. *)
Record world := mk_world {
  files : Dict.t string;
  ops : list op;
  clock : nat;
  fault : nat -> option failure
}.

Definition M (A : Type) : Type := world -> outcome A * world.

Definition ret {A : Type} (a : A) : M A := fun w => (Ok a, w).

Definition mbind {A B : Type} (x : M A) (f : A -> M B) : M B :=
  fun w =>
    match x w with
    | (Ok a, w') => f a w'
    | (Raise e, w') => (Raise e, w')
    | (Diverge, w') => (Diverge, w')
    end.

Definition lift {A : Type} (x : outcome A) : M A := fun w => (x, w).

Definition record (o : op) (w : world) : world :=
  mk_world (files w) (ops w ++ [o])%list (clock w) (fault w).

Definition with_files (f : Dict.t string) (w : world) : world :=
  mk_world f (ops w) (clock w) (fault w).

Definition tick (w : world) : world :=
  mk_world (files w) (ops w) (S (clock w)) (fault w).

(** One operation: the environment is asked at the current time; the
    operation is performed, or fails with an [OSError] and leaves what
    [failed] says. *)
Definition attempt (done : world -> world) (failed : failure -> world -> world)
  : M unit :=
  fun w =>
    match fault w (clock w) with
    | None => (Ok tt, done (tick w))
    | Some f => (Raise OSError, failed f (tick w))
    end.

Definition put (path content : string) (w : world) : world :=
  record (OpWrite path content) (with_files (Dict.set path content (files w)) w).

(** [path.write_text(content)] and [open(path, 'w')] followed by the
    writing: the file is emptied when it is opened, so a write that
    fails then has left the part of the content it had written. *)
Definition write_text (path content : string) : M unit :=
  attempt (put path content)
    (fun f w =>
       match f with
       | Refused => w
       | Cut kept => put path (PyStr.take kept content) w
       end).

(** [path.exists()] on a file, and [path.unlink()]. *)
Definition exists_file (path : string) : M bool :=
  fun w => (Ok (Dict.mem path (files w)), w).

Definition remove (path : string) (w : world) : world :=
  record (OpUnlink path) (with_files (Dict.del path (files w)) w).

Definition unlink (path : string) : M unit :=
  attempt (remove path) (fun _ w => w).

(** [path.mkdir(parents=True, exist_ok=True)]: directories hold no
    content of their own. *)
Definition mkdir (path : string) : M unit :=
  attempt (record (OpMkdir path)) (fun _ w => w).

Definition under (dir path : string) : bool :=
  PyStr.startswith (dir ++ "/") path.

Definition endswith (suffix s : string) : bool :=
  (String.length suffix <=? String.length s)%nat
  && String.eqb (PyStr.drop (String.length s - String.length suffix) s) suffix.

(** [path.name]. *)
Definition name (path : string) : string :=
  List.last (PyStr.split (ascii_of_nat 47) path) EmptyString.

(** [shutil.rmtree(dir)]: all the files under [dir] are removed; a
    removal that fails on its way has removed the first of them. *)
Definition remove_tree (dir : string) (fs : Dict.t string) : Dict.t string :=
  filter (fun f => negb (under dir (fst f))) fs.

Definition remove_some (dir : string) (kept : nat) (w : world) : world :=
  fold_left (fun w p => remove p w)
    (firstn kept (Dict.keys (filter (fun f => under dir (fst f)) (files w)))) w.

Definition rmtree (dir : string) : M unit :=
  fun w =>
    if Dict.mem dir (files w) then (Raise OSError, w)
    else
      attempt
        (fun w => record (OpRmTree dir) (with_files (remove_tree dir (files w)) w))
        (fun f w =>
           match f with
           | Refused => w
           | Cut kept => remove_some dir kept w
           end) w.

(** [shutil.copytree(src, dst)]: the files under [src], with the paths
    they get under [dst]. *)
Definition copies (src dst : string) (fs : Dict.t string) : list (string * string) :=
  map (fun f => (dst ++ PyStr.drop (String.length src) (fst f), snd f))
      (filter (fun f => under src (fst f)) fs).

Definition copy_tree (src dst : string) (fs : Dict.t string) : Dict.t string :=
  fold_left (fun acc c => Dict.set (fst c) (snd c) acc) (copies src dst fs) fs.

(** The copy of one file is a write of its copy; [copytree] goes on
    after a file it could not copy and raises at the end.  The state is
    whether all copies so far succeeded. *)
Definition copy_file (acc : bool * world) (c : string * string) : bool * world :=
  let (ok, w) := acc in
  match fault w (clock w) with
  | None => (ok, with_files (Dict.set (fst c) (snd c) (files w)) (tick w))
  | Some Refused => (false, tick w)
  | Some (Cut kept) =>
      (false,
       with_files (Dict.set (fst c) (PyStr.take kept (snd c)) (files w)) (tick w))
  end.

(** Is there a file or a directory at [path]? *)
Definition present (path : string) (fs : Dict.t string) : bool :=
  Dict.mem path fs || existsb (fun f => under path (fst f)) fs.

(** Without a file under [src] there is no such directory
    ([FileNotFoundError]), and [dst] must not be there
    ([FileExistsError]): both are found before anything is copied. *)
Definition copytree (src dst : string) : M unit :=
  fun w =>
    match copies src dst (files w) with
    | [] => (Raise OSError, w)
    | todo =>
        if present dst (files w) then (Raise OSError, w)
        else
          let (ok, w') := fold_left copy_file todo (true, w) in
          (if (ok : bool) then Ok tt else Raise OSError,
           record (OpCopyTree src dst) w')
    end.

Definition chmod (path : string) : M unit :=
  attempt (record (OpChmod path)) (fun _ w => w).

(** [for x in xs: body(x)] with the state of the object threaded. *)
Fixpoint for_each {A S : Type} (body : S -> A -> M S) (xs : list A) (st : S) : M S :=
  match xs with
  | [] => ret st
  | x :: rest => mbind (body st x) (for_each body rest)
  end.

End FS.

Notation "x <-- c1 ;;; c2" := (FS.mbind c1 (fun x => c2))
  (at level 61, c1 at next level, right associativity).

(** ** Loading: [load_all_specs] *)

Module Loader.

Definition SPECS_DIR : string := "specs".

(** [SPECS_DIR.glob("**/*.md")] and the filter on it. *)
Definition is_spec_file (path : string) : bool :=
  FS.under SPECS_DIR path
  && FS.endswith ".md" path
  && negb (PyStr.contains "deliverables" path)
  && negb (PyStr.contains "workflow" path)
  && negb (PyStr.contains "context" (FS.name path))
  && negb (PyStr.contains "README" (FS.name path)).

Section WithLibrary.
Variable E : externals.

(** [generate_short_uuid(seed)]. *)
Definition generate_short_uuid (seed : string) : string :=
  if negb (String.eqb seed "") then PyStr.take 8 (md5_hexdigest E seed)
  else random_token E.

(** The body of the loop over the spec files.  The state is the
    migrator and the files a warning was printed for. *)
Definition load_one (acc : migrator * list string) (file : string * string)
  : migrator * list string :=
  let (st, warnings) := acc in
  let (spec_file, content) := file in
  let (fm, body) := Codec.parse_yaml_frontmatter E content in
  match fm with
  | FMap md =>
      match md, Dict.get "id" md with
      | _ :: _, Some id =>
          let old_id := Py.str id in
          let spec_type :=
            match Dict.get "type" md with Some v => v | None => VStr "task" end in
          (mk_migrator (spec_map st)
             (Dict.set old_id (generate_short_uuid old_id) (unique_ids st))
             (Dict.set old_id (mk_spec_info md body spec_file spec_type) (specs_data st))
             (migration_log st),
           warnings)
      | _, _ => acc
      end
  | FOther v =>
      (* ['id' in metadata] on a value that is not a mapping, then
         [metadata['id']]: a [TypeError], caught and reported. *)
      let raises :=
        match v with
        | VStr s => PyStr.contains "id" s
        | VList l => existsb (fun x => Py.eq_str x "id") l
        | _ => true
        end in
      if raises then (st, (warnings ++ [spec_file])%list) else acc
  end.

Definition spec_files (w : FS.world) : list (string * string) :=
  filter (fun f => is_spec_file (fst f)) (FS.files w).

Definition load_all_specs (st : migrator) (w : FS.world) : migrator * list string :=
  fold_left load_one (spec_files w) (st, []).

End WithLibrary.

End Loader.

(** ** The orchestrator: [perform_migration] and [run] *)

Module Migration.

Section WithLibrary.
Variable E : externals.
(** The fuel given to every walk of [get_new_path]. *)
Variable fuel : nat.

Definition add_log (entry : log_entry) (st : migrator) : migrator :=
  mk_migrator (spec_map st) (unique_ids st) (specs_data st)
              (migration_log st ++ [entry])%list.

Definition new_id_of (st : migrator) (old_id : string) : outcome string :=
  match Dict.get old_id (spec_map st) with
  | Some n => Ok n
  | None => Raise KeyError
  end.

Definition unique_id_of (st : migrator) (old_id : string) : outcome string :=
  match Dict.get old_id (unique_ids st) with
  | Some u => Ok u
  | None => Raise KeyError
  end.

(** The body of the first loop of [perform_migration]. *)
Definition migrate_spec (st : migrator) (entry : string * spec_info)
  : FS.M migrator :=
  let (old_id, spec_info) := entry in
  new_path <-- FS.lift (Paths.get_new_path st fuel old_id) ;;;
  let spec_path := Paths.path_str (new_path ++ ["spec.md"])%list in
  _ <-- FS.mkdir (Paths.path_str new_path) ;;;
  new_content <-- FS.lift (update_spec_content E st old_id) ;;;
  _ <-- FS.write_text spec_path new_content ;;;
  new_id <-- FS.lift (new_id_of st old_id) ;;;
  unique_id <-- FS.lift (unique_id_of st old_id) ;;;
  FS.ret (add_log (LogSpec old_id new_id unique_id (file_path spec_info) spec_path) st).

(** [re.match(r'(\d+)\.context\.md', name)]: the digits the name starts
    with, when [.context.md] follows them. *)
Fixpoint leading_digits (s : string) : string :=
  match s with
  | String c s' => if PyStr.is_digit c then String c (leading_digits s') else EmptyString
  | EmptyString => EmptyString
  end.

Definition context_id (file_name : string) : option string :=
  let d := leading_digits file_name in
  if negb (String.eqb d "")
     && PyStr.startswith ".context.md" (PyStr.drop (String.length d) file_name)
  then Some d else None.

Definition is_context_file (path : string) : bool :=
  FS.under Loader.SPECS_DIR path && FS.endswith ".context.md" (FS.name path).

Definition rewrite_context (m : Dict.t string) (content : string) : string :=
  fold_left (fun c pair => Rewrite.re_sub_word (fst pair) (snd pair) c) m content.

(** The body of the loop of [migrate_context_files]. *)
Definition migrate_context (st : migrator) (file : string * string)
  : FS.M migrator :=
  let (context_file, content) := file in
  match context_id (FS.name context_file) with
  | Some old_id =>
      if Dict.mem old_id (spec_map st) then
        new_path <-- FS.lift (Paths.get_new_path st fuel old_id) ;;;
        let new_context_path := Paths.path_str (new_path ++ ["context.md"])%list in
        _ <-- FS.mkdir (Paths.path_str new_path) ;;;
        _ <-- FS.write_text new_context_path (rewrite_context (spec_map st) content) ;;;
        FS.ret (add_log (LogContext context_file new_context_path) st)
      else FS.ret st
  | None => FS.ret st
  end.

Definition migrate_context_files (st : migrator) : FS.M migrator :=
  fun w =>
    FS.for_each migrate_context
      (filter (fun f => is_context_file (fst f)) (FS.files w)) st w.

(** The body of the clean-up loop. *)
Definition remove_old (st : migrator) (entry : string * spec_info)
  : FS.M migrator :=
  let old_file := file_path (snd entry) in
  present <-- FS.exists_file old_file ;;;
  if (present : bool) then (_ <-- FS.unlink old_file ;;; FS.ret st) else FS.ret st.

(** [SpecMigrator.perform_migration].  The last loop of the source
    removes the directories left empty; it touches no file, and a
    directory without files is not in the model, so it has nothing to
    record here. *)
Definition perform_migration (st : migrator) : FS.M migrator :=
  st <-- FS.for_each migrate_spec (specs_data st) st ;;;
  st <-- migrate_context_files st ;;;
  FS.for_each remove_old (specs_data st) st.

(** [BACKUP_DIR.exists()]: a file of that name, or a directory, which
    is there when a file lies under it. *)
Definition exists_path (path : string) : FS.M bool :=
  fun w => (Ok (FS.present path (FS.files w)), w).

(** [SpecMigrator.create_backup]. *)
Definition create_backup : FS.M unit :=
  present <-- exists_path (BACKUP_DIR E) ;;;
  _ <-- (if (present : bool) then FS.rmtree (BACKUP_DIR E) else FS.ret tt) ;;;
  FS.copytree Loader.SPECS_DIR (BACKUP_DIR E).

Definition MIGRATION_LOG : string := "migration_log.json".

(** [SpecMigrator.save_migration_log] and [create_rollback_script]. *)
Definition save_migration_log (st : migrator) : FS.M unit :=
  FS.write_text MIGRATION_LOG
    (json_dump_log E (spec_map st) (unique_ids st) (migration_log st)).

Definition create_rollback_script : FS.M unit :=
  _ <-- FS.write_text "rollback_migration.sh" (rollback_script E) ;;;
  FS.chmod "rollback_migration.sh".

(** [SpecMigrator.run], on a fresh migrator. *)
Definition run : FS.M migrator :=
  _ <-- create_backup ;;;
  st <-- (fun w => (Ok (fst (Loader.load_all_specs E init w)), w)) ;;;
  st <-- FS.lift (Hierarchy.build_hierarchy_map st) ;;;
  st <-- perform_migration st ;;;
  _ <-- save_migration_log st ;;;
  _ <-- create_rollback_script ;;;
  FS.ret st.

End WithLibrary.

End Migration.

(** ** [fix-spec-ids.py] *)

Module FixIds.

Definition is_hex (c : ascii) : bool :=
  PyStr.is_digit c || PyStr.char_in 97 102 c.

(** [re.match(r'^[a-f0-9]{8}$', current_id)]; [$] also matches before
    a final newline. *)
Definition looks_like_uuid (current_id : string) : bool :=
  (String.length (PyStr.take 8 current_id) =? 8)%nat
  && PyStr.all_chars is_hex (PyStr.take 8 current_id)
  && (String.eqb (PyStr.drop 8 current_id) ""
      || String.eqb (PyStr.drop 8 current_id) Codec.nl).

Definition is_spec_md (path : string) : bool :=
  FS.under "specs" path && String.eqb (FS.name path) "spec.md".

Section WithLibrary.
Variable E : externals.
(** [str(uuid.uuid4())[:8]] drawn while the given file is processed. *)
Variable uuid4 : string -> string.

(** The parser of this script: one attempt, any failure gives no
    metadata. *)
Definition parse_yaml_frontmatter (content : string) : frontmatter * string :=
  if negb (PyStr.startswith "---" content) then (FMap [], content)
  else
    let tail := PyStr.drop 3 content in
    match PyStr.find Codec.closing tail with
    | None => (FMap [], content)
    | Some start =>
        let yaml_content := PyStr.take start tail in
        let body_content := PyStr.drop (start + 5) tail in
        let yaml_lines := Codec.clean_lines (PyStr.split Codec.nl_char yaml_content) in
        match yaml_safe_load E (PyStr.join Codec.nl yaml_lines) with
        | LoadError => (FMap [], content)
        | r => (Codec.or_empty r, body_content)
        end
    end.

(** [format_yaml_with_comments]: the dumped text is stripped first, and
    no newline follows the closing delimiter. *)
Definition format_yaml_with_comments (md : Dict.t value) : string :=
  PyStr.join Codec.nl
    (Codec.header
     ++ Codec.format_lines false "identification"
          (PyStr.split Codec.nl_char (PyStr.strip (yaml_dump E md)))
     ++ ["---"])%list.

(** The body of the loop of [fix_spec_ids]; every exception is caught
    inside it. The state is the number of files updated. *)
Definition fix_one (updated_count : nat) (file : string * string) : FS.M nat :=
  let (spec_file, content) := file in
  let (fm, body) := parse_yaml_frontmatter content in
  match fm with
  | FMap md =>
      match Dict.get "id" md with
      | None => FS.ret updated_count
      | Some id =>
          if looks_like_uuid (Py.str id) then FS.ret updated_count
          else
            let (new_id, md) :=
              match Dict.get "unique_id" md with
              | Some u => (u, Dict.del "unique_id" md)
              | None => (VStr (uuid4 spec_file), md)
              end in
            let md := Dict.set "id" new_id md in
            let new_content :=
              format_yaml_with_comments md ++ Codec.nl ++ Codec.nl ++ body in
            fun w =>
              match FS.write_text spec_file new_content w with
              | (Ok _, w') => (Ok (S updated_count), w')
              | (_, w') => (Ok updated_count, w')
              end
      end
  | FOther _ => FS.ret updated_count
  end.

(** [fix_spec_ids]: the files [specs/**/spec.md], one after the other.
    The function returns nothing; the value here is the count it
    prints at the end. *)
Definition fix_spec_ids : FS.M nat :=
  fun w =>
    FS.for_each fix_one (filter (fun f => is_spec_md (fst f)) (FS.files w)) 0 w.

End WithLibrary.

End FixIds.

(** ** A reference instance of the collaborators

    The properties that quantify over the collaborators are applied, at
    concrete documents, to this instance: PyYAML restricted to flat block
    mappings whose values are plain or single-quoted one-line scalars
    and block sequences of such, and [hashlib.md5] on the seeds the
    examples use. *)

Module Reference.

Definition dump_scalar (v : value) : string :=
  match v with
  | VNull => "null"
  | VBool true => "true"
  | VBool false => "false"
  | VInt z => PyStr.str_Z z
  | VStr s => if PyStr.isdigit s || String.eqb s "" then "'" ++ s ++ "'" else s
  | VList _ => "[]"
  end.

Definition dump_entry (kv : string * value) : list string :=
  let (k, v) := kv in
  match v with
  | VList (x :: l) => (k ++ ":") :: map (fun i => "- " ++ dump_scalar i) (x :: l)
  | _ => [k ++ ": " ++ dump_scalar v]
  end.

(** [yaml.dump(md, default_flow_style=False, sort_keys=False)]. *)
Definition dump (md : Dict.t value) : string :=
  match md with
  | [] => "{}" ++ Codec.nl
  | _ => String.concat "" (map (fun l => l ++ Codec.nl) (flat_map dump_entry md))
  end.

Definition load_scalar (s : string) : option value :=
  if String.eqb s "null" then Some VNull
  else if String.eqb s "true" then Some (VBool true)
  else if String.eqb s "false" then Some (VBool false)
  else if String.eqb s "[]" then Some (VList [])
  else if negb (String.eqb s "") && PyStr.all_chars PyStr.is_digit s
  then Some (VInt (PyStr.int_of s))
  else if PyStr.startswith "'" s then
    if (2 <=? String.length s)%nat && FS.endswith "'" s
    then Some (VStr (PyStr.take (String.length s - 2) (PyStr.drop 1 s)))
    else None
  else if PyStr.startswith "@" s then None
  else Some (VStr s).

(** The mapping read so far and the key whose sequence is open. *)
Definition load_line (acc : option (Dict.t value * option string)) (line : string)
  : option (Dict.t value * option string) :=
  match acc with
  | None => None
  | Some (md, open_key) =>
      if String.eqb (PyStr.strip line) "" then acc
      else if PyStr.startswith "- " line then
        match open_key, load_scalar (PyStr.drop 2 line) with
        | Some k, Some v =>
            match Dict.get k md with
            | Some (VList l) => Some (Dict.set k (VList (l ++ [v])%list) md, open_key)
            | _ => Some (Dict.set k (VList [v]) md, open_key)
            end
        | _, _ => None
        end
      else
        match PyStr.find ": " line with
        | Some (S i) =>
            match load_scalar (PyStr.drop (S i + 2) line) with
            | Some v => Some (Dict.set (PyStr.take (S i) line) v md, None)
            | None => None
            end
        | _ =>
            if FS.endswith ":" line && (2 <=? String.length line)%nat
            then let k := PyStr.take (String.length line - 1) line in
                 Some (Dict.set k VNull md, Some k)
            else None
        end
  end.

(** [yaml.safe_load(text)]. *)
Definition safe_load (text : string) : load_result :=
  if String.eqb (PyStr.strip text) "{}" then LoadMap []
  else
    match fold_left load_line (PyStr.split Codec.nl_char text) (Some ([], None)) with
    | Some ([], _) => LoadOther VNull
    | Some (md, _) => LoadMap md
    | None => LoadError
    end.

(** [hashlib.md5(seed.encode()).hexdigest()] on the seeds used below,
    cut to what the migrator keeps of it. *)
Definition md5 (seed : string) : string :=
  if String.eqb seed "1" then "c4ca4238"
  else if String.eqb seed "c4ca4238" then "21f69f83"
  else "00000000".

(** The collaborators of a run started at the given time stamp. *)
Definition lib_at (stamp : string) : externals :=
  mk_externals safe_load dump md5 "0f0f0f0f" ("specs_backup_" ++ stamp)
    (fun _ _ _ => "{}") "#!/bin/bash".

Definition lib : externals := lib_at "20250101_000000".

(** A document: the delimiters around the given frontmatter lines, then
    the body. *)
Definition doc (lines : list string) (body : string) : string :=
  "---" ++ Codec.nl ++ String.concat "" (map (fun l => l ++ Codec.nl) lines)
  ++ "---" ++ Codec.nl ++ body.

(** A filesystem on which no operation fails. *)
Definition disk (files : Dict.t string) : FS.world :=
  FS.mk_world files [] 0 (fun _ => None).

End Reference.

(** ** Scenarios *)

Module Scenarios.

(** The state of a migrator that resolved the given table. *)
Definition resolved (specs : Dict.t spec_info) (uids : Dict.t string) : migrator :=
  match Hierarchy.build_hierarchy_map (mk_migrator [] uids specs []) with
  | Ok st => st
  | _ => init
  end.

Definition node (ty : string) (md : Dict.t value) (body path : string) : spec_info :=
  mk_spec_info md body path (VStr ty).

(** Two files that both carry [id: 7]. *)
Definition duplicate_files : Dict.t string :=
  [("specs/a.md", Reference.doc ["id: 7"; "title: first"] "A");
   ("specs/b.md", Reference.doc ["id: 7"; "title: second"] "B")].

(** A feature whose parent [99] was not loaded, with a dependency on
    itself and one on an unknown id. *)
Definition orphan_feature : migrator :=
  resolved
    [("42", node "feature"
              [("id", VInt 42); ("type", VStr "feature"); ("parent", VStr "99");
               ("epic", VInt 7); ("dependencies", VList [VInt 42; VInt 5])]
              "" "specs/42.md")]
    [("42", "a1d0c6e8")].

(** Two tasks that name each other as parent. *)
Definition parent_cycle : migrator :=
  resolved
    [("a", node "task" [("id", VStr "a"); ("parent", VStr "b")] "" "specs/a.md");
     ("b", node "task" [("id", VStr "b"); ("parent", VStr "a")] "" "specs/b.md")]
    [("a", "0cc175b9"); ("b", "92eb5ffe")].

(** An epic [1000] and a feature whose parent is the integer [1000]. *)
Definition integer_parent : migrator :=
  resolved
    [("1000", node "epic" [("id", VInt 1000); ("type", VStr "epic")] "" "specs/1000.md");
     ("1001", node "feature"
                [("id", VInt 1001); ("type", VStr "feature"); ("parent", VInt 1000)]
                "" "specs/1000/1001.md")]
    [("1000", "a9b7ba70"); ("1001", "b8c37e33")].

(** An epic [0] and a feature whose parent is the integer [0]. *)
Definition zero_parent : migrator :=
  resolved
    [("0", node "epic" [("id", VInt 0); ("type", VStr "epic")] "" "specs/0.md");
     ("5", node "feature"
             [("id", VInt 5); ("type", VStr "feature"); ("parent", VInt 0)]
             "" "specs/0/5.md")]
    [("0", "cfcd2084"); ("5", "e4da3b7f")].

(** The scenario of the specification: the epics [3] and [1], in that
    load order, each with one feature. *)
Definition two_epics : migrator :=
  resolved
    [("3", node "epic" [("id", VInt 3); ("type", VStr "epic")] "" "specs/3.md");
     ("1", node "epic" [("id", VInt 1); ("type", VStr "epic")] "" "specs/1.md");
     ("31", node "feature"
              [("id", VInt 31); ("type", VStr "feature"); ("parent", VStr "3")]
              "" "specs/3/31.md");
     ("11", node "feature"
              [("id", VInt 11); ("type", VStr "feature"); ("parent", VStr "1")]
              "" "specs/1/11.md")]
    [].

(** Two epics whose ids are not numbers, loaded [b] first. *)
Definition lettered_epics : migrator :=
  resolved
    [("b", node "epic" [("id", VStr "b"); ("type", VStr "epic")] "" "specs/b.md");
     ("a", node "epic" [("id", VStr "a"); ("type", VStr "epic")] "" "specs/a.md")]
    [].

(** A tree in which the file of the epic [2] already lies where the
    migration will write the epic [1], listed as a directory scan lists
    it: the files of [specs] before those of its subdirectories; and a
    disk on which the operation attempted at time [n] fails. *)
Definition overlapping_files : Dict.t string :=
  [("specs/1.md", Reference.doc ["id: 1"; "type: epic"] "Epic one");
   ("specs/E01/spec.md", Reference.doc ["id: 2"; "type: epic"] "Epic two")].

Definition failing_disk (files : Dict.t string) (n : nat) (f : FS.failure)
  : FS.world :=
  FS.mk_world files [] 0 (fun k => if Nat.eqb k n then Some f else None).

(** Two epics in the old layout, loaded and resolved. *)
Definition two_old_epics_files : Dict.t string :=
  [("specs/1.md", Reference.doc ["id: 1"; "type: epic"] "Epic one");
   ("specs/2.md", Reference.doc ["id: 2"; "type: epic"] "Epic two")].

Definition two_old_epics : migrator :=
  resolved
    [("1", node "epic" [("id", VInt 1); ("type", VStr "epic")] "Epic one" "specs/1.md");
     ("2", node "epic" [("id", VInt 2); ("type", VStr "epic")] "Epic two" "specs/2.md")]
    [("1", "c4ca4238"); ("2", "c81e728d")].

(** One epic in the old layout. *)
Definition one_epic_files : Dict.t string :=
  [("specs/1.md", Reference.doc ["id: 1"; "type: epic"] "Epic one")].

(** The files a first run leaves, and the disk a second run starts on. *)
Definition after_first_run : Dict.t string :=
  FS.files (snd (Migration.run (Reference.lib_at "20250101_000000") 8
                   (Reference.disk one_epic_files))).

(** A table of all levels: the epic [10], its feature [11], the task
    [12] of the feature, the subtask [13] of the task, a bug, a task
    placed directly under the epic, and a feature whose parent was not
    loaded. *)
Definition project_table : Dict.t spec_info :=
  [("10", node "epic" [("id", VInt 10); ("type", VStr "epic")] "" "specs/10.md");
   ("11", node "feature"
            [("id", VInt 11); ("type", VStr "feature"); ("parent", VStr "10")]
            "" "specs/10/11.md");
   ("12", node "task"
            [("id", VInt 12); ("type", VStr "task"); ("parent", VStr "11")]
            "" "specs/10/11/12.md");
   ("13", node "subtask"
            [("id", VInt 13); ("type", VStr "subtask"); ("parent", VStr "12")]
            "" "specs/10/11/12/13.md");
   ("14", node "bug"
            [("id", VInt 14); ("type", VStr "bug"); ("parent", VStr "10")]
            "" "specs/10/14.md");
   ("15", node "task"
            [("id", VInt 15); ("type", VStr "task"); ("parent", VStr "10")]
            "" "specs/10/15.md");
   ("16", node "feature"
            [("id", VInt 16); ("type", VStr "feature"); ("parent", VStr "99")]
            "" "specs/99/16.md")].

Definition project : migrator := mk_migrator [] [] project_table [].

End Scenarios.

(** ** Vocabulary of the properties *)

Module Spec.

(** The key under which the loader stores a file, if it stores it. *)
Definition loaded_id (E : externals) (content : string) : option string :=
  match Codec.parse_yaml_frontmatter E content with
  | (FMap md, _) =>
      match Dict.get "id" md with
      | Some id => Some (Py.str id)
      | None => None
      end
  | (FOther _, _) => None
  end.

(** The entry the loader stores for a file. *)
Definition loaded_info (E : externals) (file : string * string) : option spec_info :=
  match Codec.parse_yaml_frontmatter E (snd file) with
  | (FMap md, body) =>
      match Dict.get "id" md with
      | Some _ =>
          Some (mk_spec_info md body (fst file)
                  match Dict.get "type" md with Some v => v | None => VStr "task" end)
      | None => None
      end
  | (FOther _, _) => None
  end.

(** The parent the walk of [get_new_path] goes to from a node: the
    value of [parent] when it is a non-empty string that is a key of
    the table. *)
Definition parent_link (st : migrator) (id : string) : option string :=
  match Dict.get id (specs_data st) with
  | Some info =>
      match Paths.parent_id (metadata info) with
      | VStr s =>
          if Py.truthy (VStr s) && Dict.mem s (specs_data st) then Some s else None
      | _ => None
      end
  | None => None
  end.

(** The numeric key of an id: the number it writes when it is a
    non-empty string of decimal digits, and 0 otherwise.  The sort key
    of [build_hierarchy_map] is this key whenever it is computed without
    an error. *)
Definition decimal (x : string) : bool :=
  match x with
  | EmptyString => false
  | _ => PyStr.all_chars PyStr.is_digit x
  end.

Definition key (x : string) : Z :=
  if decimal x then PyStr.int_of x else 0%Z.

(** The stable sort by that key. *)
Fixpoint insert_by_key (x : string) (l : list string) : list string :=
  match l with
  | [] => [x]
  | y :: l' =>
      if (key x <=? key y)%Z then x :: y :: l'
      else y :: insert_by_key x l'
  end.

Definition sorted (l : list string) : list string :=
  fold_right insert_by_key [] l.

(** The numbering along the sorted scopes: what the loops of
    [build_hierarchy_map] compute when no sort key raises. *)
Fixpoint number_loop (prefix : string) (inner : string -> Dict.t string -> Dict.t string)
    (ids : list string) (counter : nat) (m : Dict.t string) : Dict.t string :=
  match ids with
  | [] => m
  | id :: rest =>
      let m1 := Dict.set id (prefix ++ PyStr.fmt_02d counter) m in
      number_loop prefix inner rest (S counter) (inner id m1)
  end.

Definition number_children (by_parent : Dict.t (list string)) (prefix : string)
    (inner : string -> Dict.t string -> Dict.t string)
    (parent : string) (m : Dict.t string) : Dict.t string :=
  match Dict.get parent by_parent with
  | Some members => number_loop prefix inner (sorted members) 1 m
  | None => m
  end.

Definition no_inner (_ : string) (m : Dict.t string) : Dict.t string := m.

Definition assign_subtasks (g : Hierarchy.groups) :=
  number_children (Hierarchy.subtasks_by_parent g) "S" no_inner.

Definition assign_tasks (g : Hierarchy.groups) :=
  number_children (Hierarchy.tasks_by_parent g) "T" (assign_subtasks g).

Definition assign_features (g : Hierarchy.groups) :=
  number_children (Hierarchy.features_by_parent g) "F" (assign_tasks g).

Definition assign_epics (g : Hierarchy.groups) (m : Dict.t string) : Dict.t string :=
  number_loop "E" (assign_features g) (sorted (Dict.keys (Hierarchy.epics g))) 1 m.

(** The order of [sorted]: by the key, nothing else. *)
Definition key_le (x y : string) : Prop :=
  (key x <= key y)%Z.

(** The members of a list that have a given key, in the order of the
    list. *)
Definition with_key (k : Z) (l : list string) : list string :=
  filter (fun x => Z.eqb (key x) k) l.

(** Rewriting by whole tokens, as the specification words it: the
    body is read as maximal runs of word characters between other
    characters; a run that is the old id and is not followed by [.md]
    becomes the new id, everything else is copied.  [cur] is the run
    being read. *)
Definition flush (old new cur rest : string) : string :=
  if String.eqb cur old && negb (PyStr.startswith ".md" rest) then new else cur.

Fixpoint tokens_from (old new cur s : string) : string :=
  match s with
  | EmptyString => flush old new cur EmptyString
  | String c s' =>
      if PyStr.is_word c then tokens_from old new (cur ++ String c EmptyString) s'
      else flush old new cur s ++ String c (tokens_from old new EmptyString s')
  end.

Definition replace_tokens (old new body : string) : string :=
  tokens_from old new EmptyString body.

(** The range of the identifier mapping. *)
Definition in_range (m : Dict.t string) (new_id : string) : Prop :=
  exists old_id, Dict.get old_id m = Some new_id.

(** A list of references all taken from the range of the mapping. *)
Definition refs_in_range (m : Dict.t string) (l : list value) : Prop :=
  Forall (fun x => exists new_id, x = VStr new_id /\ in_range m new_id) l.

(** What the rewrite makes of a list field whose value was [old]. *)
Definition list_field_rewritten (m : Dict.t string) (old new : option value) : Prop :=
  match old with
  | Some v =>
      if Py.truthy v
      then exists l, new = Some (VList l) /\ refs_in_range m l
      else new = old
  | None => new = None
  end.

(** What the rewrite makes of [parent] (looked up as it stands) and of
    [epic] (looked up through [str]). *)
Definition parent_rewritten (m : Dict.t string) (old : option value) : option value :=
  match old with
  | Some (VStr s) =>
      if Py.truthy (VStr s)
      then match Dict.get s m with Some n => Some (VStr n) | None => old end
      else old
  | _ => old
  end.

Definition epic_rewritten (m : Dict.t string) (old : option value) : option value :=
  match old with
  | Some v =>
      if Py.truthy v
      then match Dict.get (Py.str v) m with Some n => Some (VStr n) | None => old end
      else old
  | None => None
  end.

Definition kind_of (o : FS.op) : string :=
  match o with
  | FS.OpWrite _ _ => "write"
  | FS.OpUnlink _ => "unlink"
  | FS.OpMkdir _ => "mkdir"
  | FS.OpCopyTree _ _ => "copytree"
  | FS.OpRmTree _ => "rmtree"
  | FS.OpChmod _ => "chmod"
  end.

Definition target_of (o : FS.op) : string :=
  match o with
  | FS.OpWrite p _ => p
  | FS.OpUnlink p => p
  | FS.OpMkdir p => p
  | FS.OpCopyTree _ p => p
  | FS.OpRmTree p => p
  | FS.OpChmod p => p
  end.

(** What was done to which path, the contents left out. *)
Definition summary (ops : list FS.op) : list (string * string) :=
  map (fun o => (kind_of o, target_of o)) ops.

Definition is_write (o : FS.op) : bool :=
  match o with FS.OpWrite _ _ => true | _ => false end.

Definition is_unlink (o : FS.op) : bool :=
  match o with FS.OpUnlink _ => true | _ => false end.

(** The frontmatter as the decoder hands it to the YAML library when
    the dumped lines hold no [#]: the section a line opens, and the
    dumped lines with an empty line before the first line of each
    section and the [id] line without trailing whitespace. *)
Definition section_of (line : string) : option string :=
  if PyStr.startswith "parent:" line then Some "hierarchy"
  else if PyStr.startswith "status:" line then Some "workflow"
  else if PyStr.startswith "created:" line then Some "tracking"
  else if PyStr.startswith "dependencies:" line then Some "dependencies"
  else if PyStr.startswith "pull_requests:" line then Some "implementation"
  else if PyStr.startswith "tags:" line then Some "metadata"
  else None.

Fixpoint spaced (current : string) (lines : list string) : list string :=
  match lines with
  | [] => []
  | line :: rest =>
      if PyStr.startswith "id:" line then PyStr.rstrip line :: spaced current rest
      else match section_of line with
           | Some s =>
               if String.eqb current s then line :: spaced current rest
               else "" :: line :: spaced s rest
           | None => line :: spaced current rest
           end
  end.

(** The levels of the hierarchy, the letter of each, and the scope in
    which a node is numbered: all epics together, every other level by
    parent key; a node of any other type has no scope. *)
Inductive level := Epic | Feature | Task | Subtask.

Definition letter (l : level) : string :=
  match l with Epic => "E" | Feature => "F" | Task => "T" | Subtask => "S" end.

Definition scope (info : spec_info) : option (level * string) :=
  let parent := Hierarchy.parent_key (metadata info) in
  if Py.eq_str (type info) "epic" then Some (Epic, "")
  else if Py.eq_str (type info) "feature" then Some (Feature, parent)
  else if Py.eq_str (type info) "task" then Some (Task, parent)
  else if Py.eq_str (type info) "subtask" then Some (Subtask, parent)
  else None.

(** The members of a scope, in load order. *)
Definition members (g : Hierarchy.groups) (l : level) (p : string)
  : option (list string) :=
  match l with
  | Epic => if String.eqb p "" then Some (Dict.keys (Hierarchy.epics g)) else None
  | Feature => Dict.get p (Hierarchy.features_by_parent g)
  | Task => Dict.get p (Hierarchy.tasks_by_parent g)
  | Subtask => Dict.get p (Hierarchy.subtasks_by_parent g)
  end.

(** Every member of a scope is one of the entries read so far, and has
    that scope. *)
Definition grouped (entries : Dict.t spec_info) (g : Hierarchy.groups) : Prop :=
  forall l p ms old_id,
    members g l p = Some ms -> In old_id ms ->
    exists info, In (old_id, info) entries /\ scope info = Some (l, p).

(** A new id given by a counter: the letter of the level and the place
    in the sorted scope; and the new id of an orphan. *)
Definition numbered (g : Hierarchy.groups) (info : spec_info)
    (old_id new_id : string) : Prop :=
  exists l p ms k,
    scope info = Some (l, p)
    /\ members g l p = Some ms
    /\ nth_error (sorted ms) k = Some old_id
    /\ new_id = letter l ++ PyStr.fmt_02d (S k).

Definition orphan (info : spec_info) (old_id new_id : string) : Prop :=
  exists prefix,
    Hierarchy.type_prefix (type info) = Ok prefix
    /\ new_id = prefix ++ "99_" ++ old_id.

Definition assigned (specs : Dict.t spec_info) (old_id new_id : string) : Prop :=
  exists info,
    Dict.get old_id specs = Some info
    /\ (numbered (Hierarchy.group_specs specs) info old_id new_id
        \/ orphan info old_id new_id).

(** Every entry of a mapping is such an assignment. *)
Definition all_assigned (specs : Dict.t spec_info) (m : Dict.t string) : Prop :=
  forall old_id new_id, Dict.get old_id m = Some new_id -> assigned specs old_id new_id.

(** The scopes the numbering reaches.  [node_in specs l id q]: [id] is
    a loaded node of level [l] with parent key [q].  The epics are
    always numbered; the features of a parent key are numbered when the
    key is the id of a loaded epic; the tasks of a parent key when it is
    the id of a numbered feature; the subtasks of a parent key when it
    is the id of a numbered task. *)
Definition node_in (specs : Dict.t spec_info) (l : level) (old_id q : string) : Prop :=
  exists info, Dict.get old_id specs = Some info /\ scope info = Some (l, q).

Definition placed (specs : Dict.t spec_info) (l : level) (p : string) : Prop :=
  match l with
  | Epic => p = ""
  | Feature => node_in specs Epic p ""
  | Task => exists e, node_in specs Feature p e /\ node_in specs Epic e ""
  | Subtask =>
      exists f e,
        node_in specs Task p f /\ node_in specs Feature f e /\ node_in specs Epic e ""
  end.

(** The loaded nodes of a scope, in load order. *)
Definition level_eqb (a b : level) : bool :=
  match a, b with
  | Epic, Epic | Feature, Feature | Task, Task | Subtask, Subtask => true
  | _, _ => false
  end.

Definition in_scope (l : level) (p : string) (info : spec_info) : bool :=
  match scope info with
  | Some (l', p') => level_eqb l' l && String.eqb p' p
  | None => false
  end.

Definition scope_ids (specs : Dict.t spec_info) (l : level) (p : string) : list string :=
  map fst (filter (fun e => in_scope l p (snd e)) specs).

(** The groups hold exactly the entries read so far: a parent key is
    in a table when a node has it, with the nodes in load order. *)
Definition as_group (ms : list string) : option (list string) :=
  match ms with [] => None | _ => Some ms end.

Definition exact_groups (entries : Dict.t spec_info) (g : Hierarchy.groups) : Prop :=
  Dict.keys (Hierarchy.epics g) = scope_ids entries Epic ""
  /\ (forall p, Dict.get p (Hierarchy.features_by_parent g)
                = as_group (scope_ids entries Feature p))
  /\ (forall p, Dict.get p (Hierarchy.tasks_by_parent g)
                = as_group (scope_ids entries Task p))
  /\ (forall p, Dict.get p (Hierarchy.subtasks_by_parent g)
                = as_group (scope_ids entries Subtask p)).

(** A step of the numbering that only adds entries. *)
Definition keeps_keys (f : Dict.t string -> Dict.t string) : Prop :=
  forall m x, Dict.mem x m = true -> Dict.mem x (f m) = true.

(** The new id of the node at place [k] of its sorted scope. *)
Definition rank_id (l : level) (k : nat) : string := letter l ++ PyStr.fmt_02d (S k).

(** Every entry of a mapping is the rank of a node in a scope the
    numbering reaches. *)
Definition all_ranked (specs : Dict.t spec_info) (m : Dict.t string) : Prop :=
  forall old_id new_id,
    Dict.get old_id m = Some new_id ->
    exists info l p ms k,
      Dict.get old_id specs = Some info
      /\ scope info = Some (l, p)
      /\ placed specs l p
      /\ members (Hierarchy.group_specs specs) l p = Some ms
      /\ nth_error (sorted ms) k = Some old_id
      /\ new_id = rank_id l k.

(** An id for which the sort key is the one of Python: the id is
    ASCII, so that [isdigit] accepts decimal digits only, and it is not
    longer than the strings of digits [int] converts. *)
Definition plain_id (old_id : string) : bool :=
  PyStr.isascii old_id && (String.length old_id <=? PyStr.int_max_str_digits)%nat.

Definition plain_ids (specs : Dict.t spec_info) : bool :=
  forallb (fun e => plain_id (fst e)) specs.

(** The ids of a list with their keys. *)
Definition with_keys (l : list string) : list (Z * string) :=
  map (fun x => (key x, x)) l.

(** A mapping with which the rewriting of a text is the scan of
    [Rewrite]: the old ids are non-empty literal patterns, the new ids
    literal templates. *)
Definition literal_refs (m : Dict.t string) : bool :=
  forallb (fun e => negb (String.eqb (fst e) "") && Rewrite.literal (fst e)
                    && Rewrite.plain_template (snd e)) m.


(** Groups that hold plain ids only. *)
Definition plain_groups (g : Hierarchy.groups) : Prop :=
  forall l p ms, members g l p = Some ms ->
                 Forall (fun x => plain_id x = true) ms.

(** A type that can be looked up in [TYPE_PREFIXES]. *)
Definition hashable (v : value) : bool :=
  match Py.as_key v with Ok _ => true | _ => false end.

(** Reading a counter back. *)
Definition counter_of (s : string) : option nat :=
  option_map Nat.of_uint (NilEmpty.uint_of_string s).

(** Characters other than [c]; a line that is no delimiter and holds
    no line break; a line without [#]; the note put after the [id]
    line; the header after its delimiter. *)
Definition not_char (c : ascii) : ascii -> bool := fun a => negb (Ascii.eqb a c).

Definition plain_line (l : string) : bool :=
  PyStr.all_chars (not_char Codec.nl_char) l && negb (String.eqb l "---").

Definition hash_free (l : string) : bool := negb (PyStr.contains "#" l).

Definition id_note : string := " # Unique identifier (never changes)".

Definition banners : list string := List.tl Codec.header.

(** The lines of a text [sep]-joined after a first one. *)
Fixpoint after_lines (lines : list string) : string :=
  match lines with
  | [] => ""
  | l :: rest => Codec.nl ++ l ++ after_lines rest
  end.

(** Does [fix_spec_ids] pass over a file: no mapping, no [id], or an
    [id] that is already eight hexadecimal digits. *)
Definition passed_over (E : externals) (content : string) : bool :=
  match FixIds.parse_yaml_frontmatter E content with
  | (FMap md, _) =>
      match Dict.get "id" md with
      | Some id => FixIds.looks_like_uuid (Py.str id)
      | None => true
      end
  | (FOther _, _) => true
  end.

(** The effect of a recorded mutation on the files, and of a list of
    them. *)
Definition apply_op (fs : Dict.t string) (o : FS.op) : Dict.t string :=
  match o with
  | FS.OpWrite p c => Dict.set p c fs
  | FS.OpUnlink p => Dict.del p fs
  | FS.OpMkdir _ => fs
  | FS.OpCopyTree src dst => FS.copy_tree src dst fs
  | FS.OpRmTree dir => FS.remove_tree dir fs
  | FS.OpChmod _ => fs
  end.

Definition apply_ops (ops : list FS.op) (fs : Dict.t string) : Dict.t string :=
  fold_left apply_op ops fs.

(** [w'] is [w] after the mutations [added], and nothing else changed
    but the time. *)
Definition stepped (w w' : FS.world) (added : list FS.op) : Prop :=
  FS.ops w' = (FS.ops w ++ added)%list
  /\ FS.fault w' = FS.fault w
  /\ FS.clock w <= FS.clock w'
  /\ FS.files w' = apply_ops added (FS.files w).

(** What a write that fails has done. *)
Definition cut_ops (path content : string) (f : FS.failure) : list FS.op :=
  match f with
  | FS.Refused => []
  | FS.Cut kept => [FS.OpWrite path (PyStr.take kept content)]
  end.

(** What the first loop of [perform_migration] computes for a node
    before and after it writes: the directory, the path and the content
    of the new file, and the entry of the log. *)
Record plan := mk_plan {
  plan_dir : string;
  plan_path : string;
  plan_content : string;
  plan_log : log_entry
}.

Definition planned (E : externals) (fuel : nat) (st : migrator)
    (entry : string * spec_info) : outcome plan :=
  let (old_id, spec_info) := entry in
  new_path <- Paths.get_new_path st fuel old_id ;;
  new_content <- update_spec_content E st old_id ;;
  new_id <- Migration.new_id_of st old_id ;;
  unique_id <- Migration.unique_id_of st old_id ;;
  let spec_path := Paths.path_str (new_path ++ ["spec.md"])%list in
  Ok (mk_plan (Paths.path_str new_path) spec_path new_content
        (LogSpec old_id new_id unique_id (file_path spec_info) spec_path)).

(** The mutations of the two writing loops: a directory made, or a
    file named [spec.md] or [context.md] written; and the unlinking of
    one of the given paths. *)
Definition new_file (o : FS.op) : bool :=
  match o with
  | FS.OpMkdir _ => true
  | FS.OpWrite q _ =>
      String.eqb (FS.name q) "spec.md" || String.eqb (FS.name q) "context.md"
  | _ => false
  end.

Definition unlinks_of (paths : list string) (o : FS.op) : bool :=
  match o with
  | FS.OpUnlink q => existsb (String.eqb q) paths
  | _ => false
  end.

(** Does a mutation leave the file at [p] as it is? *)
Definition spares (p : string) (o : FS.op) : bool :=
  match o with
  | FS.OpWrite q _ => negb (String.eqb q p)
  | FS.OpUnlink q => negb (String.eqb q p)
  | FS.OpMkdir _ | FS.OpChmod _ => true
  | FS.OpCopyTree _ _ | FS.OpRmTree _ => false
  end.

(** The mutations of [fix_spec_ids]: a file [specs/**/spec.md] that
    exists is written again. *)
Definition rewrites_spec_md (fs : Dict.t string) (o : FS.op) : bool :=
  match o with
  | FS.OpWrite q _ => FixIds.is_spec_md q && Dict.mem q fs
  | _ => false
  end.

(** Mutations that only add: directories made, files written. *)
Definition creates (o : FS.op) : bool :=
  match o with
  | FS.OpWrite _ _ | FS.OpMkdir _ => true
  | _ => false
  end.

Definition plan_ops (p : plan) : list FS.op :=
  [FS.OpMkdir (plan_dir p); FS.OpWrite (plan_path p) (plan_content p)].

End Spec.

(** * Properties *)

Example fmt_02d_3 : PyStr.fmt_02d 3 = "03". Proof. reflexivity. Qed.
Example fmt_02d_12 : PyStr.fmt_02d 12 = "12". Proof. reflexivity. Qed.
Example fmt_02d_123 : PyStr.fmt_02d 123 = "123". Proof. reflexivity. Qed.
Example int_of_007 : PyStr.int_of "007" = 7%Z. Proof. reflexivity. Qed.
Example split_ex : PyStr.split "#" "a#b#" = ["a"; "b"; ""]. Proof. reflexivity. Qed.
Example replace_ex :
  PyStr.replace "1013.md" "T03/spec.md" "x 1013.md 1013.mdx" = "x T03/spec.md T03/spec.mdx".
Proof. reflexivity. Qed.
Example strip_ex : PyStr.strip "  a b  " = "a b". Proof. reflexivity. Qed.

Example rewrite_body_ex :
  Rewrite.rewrite_body [("1013", "T03")] "See 1013 and 1013.md for details."
  = "See T03 and T03/spec.md for details.".
Proof. reflexivity. Qed.
Example rewrite_body_ex2 :
  Rewrite.rewrite_body [("1013", "T03")] "21013 1013.txt 21013.md 1013x 1013"
  = "21013 T03.txt 2T03/spec.md 1013x T03".
Proof. reflexivity. Qed.

Example ref_dump_ex :
  Reference.dump [("id", VStr "abc"); ("title", VStr "a#b"); ("deps", VList [VStr "E01"; VStr "F02"])]
  = "id: abc" ++ Codec.nl ++ "title: a#b" ++ Codec.nl ++ "deps:" ++ Codec.nl
    ++ "- E01" ++ Codec.nl ++ "- F02" ++ Codec.nl.
Proof. reflexivity. Qed.
Example ref_load_ex :
  Reference.safe_load (Reference.dump [("id", VStr "abc"); ("n", VInt 3); ("deps", VList [VStr "E01"; VStr "F02"])])
  = LoadMap [("id", VStr "abc"); ("n", VInt 3); ("deps", VList [VStr "E01"; VStr "F02"])].
Proof. reflexivity. Qed.
Example codec_roundtrip_ex :
  Codec.parse_yaml_frontmatter Reference.lib
    (Codec.encode Reference.lib [("id", VStr "abc"); ("title", VStr "x")])
  = (FMap [("id", VStr "abc"); ("title", VStr "x")], "").
Proof. vm_compute. reflexivity. Qed.
Example codec_hash_ex :
  Codec.parse_yaml_frontmatter Reference.lib
    (Codec.encode Reference.lib [("id", VStr "abc"); ("title", VStr "a#b")])
  = (FMap [("id", VStr "abc"); ("title", VStr "a")], "").
Proof. vm_compute. reflexivity. Qed.

(** ** Dictionaries *)

Section DictFacts.
Variable V : Type.
Implicit Types (d : Dict.t V) (k : string) (v : V).

Lemma get_set_same d k v : Dict.get k (Dict.set k v d) = Some v.
Proof.
  induction d as [|[k' v'] d IH]; simpl.
  - now rewrite String.eqb_refl.
  - destruct (String.eqb k k') eqn:Hk; simpl.
    + now rewrite String.eqb_refl.
    + now rewrite Hk.
Qed.

Lemma get_set_other d k k' v :
  k' <> k -> Dict.get k' (Dict.set k v d) = Dict.get k' d.
Proof.
  intros Hne. induction d as [|[k0 v0] d IH]; simpl.
  - destruct (String.eqb k' k) eqn:Hk; [apply String.eqb_eq in Hk; contradiction|reflexivity].
  - destruct (String.eqb k k0) eqn:Hk; simpl.
    + apply String.eqb_eq in Hk. subst k0.
      destruct (String.eqb k' k) eqn:Hk'; [apply String.eqb_eq in Hk'; contradiction|reflexivity].
    + destruct (String.eqb k' k0); [reflexivity|exact IH].
Qed.

Lemma get_set d k k' v :
  Dict.get k' (Dict.set k v d) = if String.eqb k' k then Some v else Dict.get k' d.
Proof.
  destruct (String.eqb k' k) eqn:Hk.
  - apply String.eqb_eq in Hk. subst. apply get_set_same.
  - apply get_set_other. intros ->. now rewrite String.eqb_refl in Hk.
Qed.

Lemma mem_get d k : Dict.mem k d = true <-> exists v, Dict.get k d = Some v.
Proof.
  unfold Dict.mem. destruct (Dict.get k d); split; intros H; eauto; try discriminate.
  destruct H as [? H]; discriminate.
Qed.

Lemma get_in_keys d k v : Dict.get k d = Some v -> In k (Dict.keys d).
Proof.
  induction d as [|[k' v'] d IH]; simpl; [discriminate|].
  destruct (String.eqb k k') eqn:Hk.
  - apply String.eqb_eq in Hk. now left.
  - intros H. right. now apply IH.
Qed.

Lemma in_keys_get d k : In k (Dict.keys d) -> exists v, Dict.get k d = Some v.
Proof.
  induction d as [|[k' v'] d IH]; simpl; [tauto|].
  intros [->|H].
  - rewrite String.eqb_refl. eauto.
  - destruct (String.eqb k k'); eauto.
Qed.

Lemma get_none_not_in d k : Dict.get k d = None <-> ~ In k (Dict.keys d).
Proof.
  split.
  - intros H Hin. apply in_keys_get in Hin. destruct Hin as [v Hv]. congruence.
  - intros H. destruct (Dict.get k d) eqn:E; [|reflexivity].
    apply get_in_keys in E. contradiction.
Qed.

Lemma keys_set d k v :
  Dict.keys (Dict.set k v d)
  = if Dict.mem k d then Dict.keys d else (Dict.keys d ++ [k])%list.
Proof.
  unfold Dict.mem. induction d as [|[k' v'] d IH]; simpl; [reflexivity|].
  destruct (String.eqb k k') eqn:Hk; simpl.
  - apply String.eqb_eq in Hk. now subst.
  - rewrite IH. now destruct (Dict.get k d).
Qed.

Lemma get_in d k v : Dict.get k d = Some v -> In (k, v) d.
Proof.
  induction d as [|[k' v'] d IH]; simpl; [discriminate|].
  destruct (String.eqb k k') eqn:Hk.
  - apply String.eqb_eq in Hk. intros [= ->]. subst. now left.
  - intros H. right. now apply IH.
Qed.

Lemma in_get_nodup d k v :
  NoDup (Dict.keys d) -> In (k, v) d -> Dict.get k d = Some v.
Proof.
  induction d as [|[k' v'] d IH]; simpl; [tauto|].
  intros Hnd [H|H].
  - injection H as -> ->. now rewrite String.eqb_refl.
  - inversion Hnd as [|? ? Hnotin Hnd']; subst.
    destruct (String.eqb k k') eqn:Hk.
    + apply String.eqb_eq in Hk. subst k'. exfalso. apply Hnotin.
      change (In (fst (k, v)) (map fst d)). now apply in_map.
    + now apply IH.
Qed.

End DictFacts.

(** ** The loader *)

Section LoaderFacts.
Variable E : externals.

Lemma load_one_stored st ws file k info :
  Spec.loaded_id E (snd file) = Some k ->
  Spec.loaded_info E file = Some info ->
  snd (Loader.load_one E (st, ws) file) = ws
  /\ specs_data (fst (Loader.load_one E (st, ws) file))
     = Dict.set k info (specs_data st).
Proof.
  unfold Spec.loaded_id, Spec.loaded_info, Loader.load_one.
  destruct file as [spec_file content]; cbn [fst snd].
  destruct (Codec.parse_yaml_frontmatter E content) as [[md|v] body]; [|discriminate].
  destruct (Dict.get "id" md) as [id|] eqn:Hid; [|discriminate].
  intros [= <-] [= <-].
  destruct md as [|e md]; [discriminate|]. rewrite Hid. cbn [fst snd specs_data]. auto.
Qed.

Lemma load_one_skipped st ws file :
  Spec.loaded_id E (snd file) = None ->
  specs_data (fst (Loader.load_one E (st, ws) file)) = specs_data st
  /\ (snd (Loader.load_one E (st, ws) file) = ws
      \/ snd (Loader.load_one E (st, ws) file) = (ws ++ [fst file])%list).
Proof.
  unfold Spec.loaded_id, Loader.load_one.
  destruct file as [spec_file content]; cbn [fst snd].
  destruct (Codec.parse_yaml_frontmatter E content) as [[md|v] body].
  - destruct (Dict.get "id" md) as [id|] eqn:Hid; [discriminate|].
    intros _. destruct md; [|rewrite Hid]; cbn [fst snd]; auto.
  - intros _.
    match goal with |- context [if ?b then _ else _] => destruct b end; cbn [fst snd]; auto.
Qed.

Lemma loaded_id_info file :
  (exists k, Spec.loaded_id E (snd file) = Some k)
  <-> (exists info, Spec.loaded_info E file = Some info).
Proof.
  unfold Spec.loaded_id, Spec.loaded_info.
  destruct (Codec.parse_yaml_frontmatter E (snd file)) as [[md|v] body].
  - destruct (Dict.get "id" md); split; intros [x H]; eauto; discriminate.
  - split; intros [x H]; discriminate.
Qed.

Lemma load_keeps_key files : forall st ws k info,
  Dict.get k (specs_data st) = Some info ->
  (forall g, In g files -> Spec.loaded_id E (snd g) <> Some k) ->
  Dict.get k (specs_data (fst (fold_left (Loader.load_one E) files (st, ws))))
  = Some info.
Proof.
  induction files as [|g files IH]; intros st ws k info Hget Hno; cbn [fold_left]; [exact Hget|].
  destruct (Loader.load_one E (st, ws) g) as [st' ws'] eqn:Hstep.
  apply IH; [|intros; apply Hno; now right].
  destruct (Spec.loaded_id E (snd g)) as [k'|] eqn:Hid.
  - destruct (proj1 (loaded_id_info g)) as [info' Hinfo]; [eauto|].
    destruct (load_one_stored st ws g Hid Hinfo) as [_ Hd].
    rewrite Hstep in Hd. simpl in Hd. rewrite Hd.
    rewrite get_set_other; [exact Hget|].
    intros ->. apply (Hno g); [now left|exact Hid].
  - destruct (load_one_skipped st ws g Hid) as [Hd _].
    rewrite Hstep in Hd. simpl in Hd. now rewrite Hd.
Qed.

Lemma load_warnings files : forall st ws x,
  In x (snd (fold_left (Loader.load_one E) files (st, ws))) ->
  In x ws \/ exists g, In g files /\ fst g = x /\ Spec.loaded_info E g = None.
Proof.
  induction files as [|g files IH]; intros st ws x; cbn [fold_left]; [cbn [snd]; auto|].
  destruct (Loader.load_one E (st, ws) g) as [st' ws'] eqn:Hstep.
  intros Hin. apply IH in Hin. destruct Hin as [Hin|[g' [Hg' [Hx Hnone]]]].
  - destruct (Spec.loaded_id E (snd g)) as [k'|] eqn:Hid.
    + destruct (proj1 (loaded_id_info g)) as [info' Hinfo]; [eauto|].
      destruct (load_one_stored st ws g Hid Hinfo) as [Hw _].
      rewrite Hstep in Hw. simpl in Hw. subst ws'. now left.
    + destruct (load_one_skipped st ws g Hid) as [_ Hw].
      rewrite Hstep in Hw. simpl in Hw. destruct Hw as [->| ->]; [now left|].
      apply in_app_or in Hin. destruct Hin as [Hin|[<-|[]]]; [now left|].
      right. exists g. repeat split; [now left|].
      destruct (Spec.loaded_info E g) eqn:Hinfo; [|reflexivity].
      destruct (proj2 (loaded_id_info g)) as [k Hk]; [eauto|]. congruence.
  - right. exists g'. split; [now right|split; assumption].
Qed.

End LoaderFacts.

(** C6, as stated, fails: two files carry the id [7]; the loader keeps
    one entry, the document of the file read last, and prints no
    warning. *)
Lemma C6_duplicate_id_kept_silently :
  let r := Loader.load_all_specs Reference.lib init (Reference.disk Scenarios.duplicate_files) in
  map (fun e => (fst e, file_path (snd e), Dict.get "title" (metadata (snd e))))
      (specs_data (fst r))
  = [("7", "specs/b.md", Some (VStr "second"))]
  /\ snd r = [].
Proof. vm_compute. split; reflexivity. Qed.

(** C6, amended: when several loaded files carry the same string-form
    id, the table holds under that id the document of the file read last
    (the earlier ones are overwritten), and every warning the loader
    prints names a file it did not store: none reports the conflict. *)
Theorem C6_load_last_write_wins (E : externals) (w : FS.world)
    (before after : list (string * string)) (file : string * string)
    (k : string) (info : spec_info) :
  Loader.spec_files w = (before ++ file :: after)%list ->
  Spec.loaded_id E (snd file) = Some k ->
  Spec.loaded_info E file = Some info ->
  (forall g, In g after -> Spec.loaded_id E (snd g) <> Some k) ->
  Dict.get k (specs_data (fst (Loader.load_all_specs E init w))) = Some info
  /\ (forall x, In x (snd (Loader.load_all_specs E init w)) ->
        exists g, In g (Loader.spec_files w) /\ fst g = x
                  /\ Spec.loaded_info E g = None).
Proof.
  intros Hfiles Hid Hinfo Hafter. unfold Loader.load_all_specs. split.
  - rewrite Hfiles, fold_left_app. cbn [fold_left].
    destruct (fold_left (Loader.load_one E) before (init, [])) as [st ws].
    destruct (Loader.load_one E (st, ws) file) as [st' ws'] eqn:Hstep.
    apply load_keeps_key; [|exact Hafter].
    destruct (load_one_stored E st ws file Hid Hinfo) as [_ Hd].
    rewrite Hstep in Hd. simpl in Hd. rewrite Hd. apply get_set_same.
  - intros x Hx. apply load_warnings in Hx. destruct Hx as [[]|Hx]. exact Hx.
Qed.

Lemma C6_load_last_write_wins_witness :
  Dict.get "7" (specs_data (fst (Loader.load_all_specs Reference.lib init
                                   (Reference.disk Scenarios.duplicate_files))))
  = Some (mk_spec_info [("id", VInt 7); ("title", VStr "second")] "B"
            "specs/b.md" (VStr "task")).
Proof.
  refine (proj1 (@C6_load_last_write_wins Reference.lib (Reference.disk Scenarios.duplicate_files)
            [("specs/a.md", Reference.doc ["id: 7"; "title: first"] "A")] []
            ("specs/b.md", Reference.doc ["id: 7"; "title: second"] "B")
            "7" _ _ _ _ _)).
  - vm_compute; reflexivity.
  - vm_compute; reflexivity.
  - vm_compute; reflexivity.
  - intros g [].
Defined.

(** ** Reference rewriting in the frontmatter *)

Section RewriteFacts.
Variable m : Dict.t string.

Lemma get_del_other (V : Type) (d : Dict.t V) k k' :
  k' <> k -> Dict.get k' (Dict.del k d) = Dict.get k' d.
Proof.
  intros Hne. induction d as [|[k0 v0] d IH]; simpl; [reflexivity|].
  destruct (String.eqb k k0) eqn:Hk; simpl.
  - apply String.eqb_eq in Hk. subst k0.
    destruct (String.eqb k' k) eqn:Hk'; [apply String.eqb_eq in Hk'; contradiction|reflexivity].
  - destruct (String.eqb k' k0); [reflexivity|exact IH].
Qed.

Lemma map_refs_in_range refs : Spec.refs_in_range m (Rewrite.map_refs m refs).
Proof.
  unfold Spec.refs_in_range.
  induction refs as [|r refs IH]; simpl; [constructor|].
  destruct (Dict.get (Py.str r) m) as [n|] eqn:Hr; [|exact IH].
  constructor; [|exact IH]. exists n. split; [reflexivity|]. now exists (Py.str r).
Qed.

Lemma rewrite_list_field_frame field md md' k :
  Rewrite.rewrite_list_field m field md = Ok md' ->
  k <> field -> Dict.get k md' = Dict.get k md.
Proof.
  unfold Rewrite.rewrite_list_field. intros H Hne.
  destruct (Dict.get field md) as [v|]; [|now injection H as <-].
  destruct (Py.truthy v); [|now injection H as <-].
  destruct (Py.iter v); simpl in H; try discriminate.
  injection H as <-. now apply get_set_other.
Qed.

Lemma rewrite_list_field_spec field md md' :
  Rewrite.rewrite_list_field m field md = Ok md' ->
  Spec.list_field_rewritten m (Dict.get field md) (Dict.get field md').
Proof.
  unfold Rewrite.rewrite_list_field, Spec.list_field_rewritten. intros H.
  destruct (Dict.get field md) as [v|] eqn:Hf; [|injection H as <-; exact Hf].
  destruct (Py.truthy v); [|injection H as <-; exact Hf].
  destruct (Py.iter v) as [refs| |]; simpl in H; try discriminate.
  injection H as <-. exists (Rewrite.map_refs m refs). split.
  - apply get_set_same.
  - apply map_refs_in_range.
Qed.

Lemma rewrite_parent_frame md md' k :
  Rewrite.rewrite_parent m md = Ok md' ->
  k <> "parent" -> Dict.get k md' = Dict.get k md.
Proof.
  unfold Rewrite.rewrite_parent. intros H Hne.
  destruct (Dict.get "parent" md) as [v|]; [|now injection H as <-].
  destruct (Py.truthy v); [|now injection H as <-].
  destruct v; simpl in H; try discriminate; injection H as <-; try reflexivity.
  destruct (Dict.get s m); [now apply get_set_other|reflexivity].
Qed.

Lemma rewrite_parent_spec md md' :
  Rewrite.rewrite_parent m md = Ok md' ->
  Dict.get "parent" md' = Spec.parent_rewritten m (Dict.get "parent" md).
Proof.
  unfold Rewrite.rewrite_parent, Spec.parent_rewritten. intros H.
  destruct (Dict.get "parent" md) as [v|] eqn:Hp; [|injection H as <-; exact Hp].
  destruct (Py.truthy v) eqn:Ht.
  - destruct v; simpl in H; try discriminate; injection H as <-; try exact Hp.
    rewrite Ht. destruct (Dict.get s m); [apply get_set_same|exact Hp].
  - injection H as <-. rewrite Hp. destruct v; try reflexivity. now rewrite Ht.
Qed.

Lemma rewrite_epic_frame md k :
  k <> "epic" -> Dict.get k (Rewrite.rewrite_epic m md) = Dict.get k md.
Proof.
  unfold Rewrite.rewrite_epic. intros Hne.
  destruct (Dict.get "epic" md) as [v|]; [|reflexivity].
  destruct (Py.truthy v); [|reflexivity].
  destruct (Dict.get (Py.str v) m); [now apply get_set_other|reflexivity].
Qed.

Lemma rewrite_epic_spec md :
  Dict.get "epic" (Rewrite.rewrite_epic m md)
  = Spec.epic_rewritten m (Dict.get "epic" md).
Proof.
  unfold Rewrite.rewrite_epic, Spec.epic_rewritten.
  destruct (Dict.get "epic" md) as [v|] eqn:He; [|exact He].
  destruct (Py.truthy v); [|exact He].
  destruct (Dict.get (Py.str v) m); [apply get_set_same|exact He].
Qed.

End RewriteFacts.

(** The metadata before the reference fields are rewritten: the copy
    without [unique_id] and with the new [id]. *)
Lemma rewrite_metadata_steps st old_id md' :
  Rewrite.rewrite_metadata st old_id = Ok md' ->
  exists info md0 md1 md2 md4 md5,
    Dict.get old_id (specs_data st) = Some info
    /\ (forall k, k <> "id" -> k <> "unique_id" ->
          Dict.get k md0 = Dict.get k (metadata info))
    /\ Rewrite.rewrite_parent (spec_map st) md0 = Ok md1
    /\ Rewrite.rewrite_list_field (spec_map st) "children" md1 = Ok md2
    /\ Rewrite.rewrite_list_field (spec_map st) "dependencies"
         (Rewrite.rewrite_epic (spec_map st) md2) = Ok md4
    /\ Rewrite.rewrite_list_field (spec_map st) "blocks" md4 = Ok md5
    /\ Rewrite.rewrite_list_field (spec_map st) "related" md5 = Ok md'.
Proof.
  unfold Rewrite.rewrite_metadata. intros H.
  destruct (Dict.get old_id (specs_data st)) as [info|]; [|discriminate].
  destruct (Dict.get old_id (unique_ids st)) as [uid|]; [|discriminate].
  match type of H with bind (Rewrite.rewrite_parent _ ?d) _ = _ => set (md0 := d) in * end.
  destruct (Rewrite.rewrite_parent (spec_map st) md0) as [md1| |] eqn:H1; try discriminate.
  cbn [bind] in H.
  destruct (Rewrite.rewrite_list_field (spec_map st) "children" md1) as [md2| |] eqn:H2;
    try discriminate.
  cbn [bind] in H.
  destruct (Rewrite.rewrite_list_field (spec_map st) "dependencies"
              (Rewrite.rewrite_epic (spec_map st) md2)) as [md4| |] eqn:H4; try discriminate.
  cbn [bind] in H.
  destruct (Rewrite.rewrite_list_field (spec_map st) "blocks" md4) as [md5| |] eqn:H5;
    try discriminate.
  cbn [bind] in H.
  exists info, md0, md1, md2, md4, md5. repeat split; auto.
  intros k Hid Huid. subst md0. rewrite get_set_other by exact Hid.
  destruct (Dict.mem "unique_id" (metadata info)); [now apply get_del_other|reflexivity].
Qed.

(** C7, as stated, fails: the feature [42] names the parent [99] and
    the epic [7], which are not loaded; after the rewrite both fields
    still hold those old ids, which are outside the range [F99_42] of
    the mapping, while the dependency on the unknown id [5] is dropped. *)
Lemma C7_stale_parent_survives :
  Dict.values (spec_map Scenarios.orphan_feature) = ["F99_42"]
  /\ (md <- Rewrite.rewrite_metadata Scenarios.orphan_feature "42" ;;
      Ok (Dict.get "parent" md, Dict.get "epic" md, Dict.get "dependencies" md))
     = Ok (Some (VStr "99"), Some (VInt 7), Some (VList [VStr "F99_42"])).
Proof. vm_compute. split; reflexivity. Qed.

(** What [rewrite_metadata] leaves in the reference fields. *)
Lemma rewrite_metadata_references (st : migrator) (old_id : string)
    (info : spec_info) (md' : Dict.t value) :
  Dict.get old_id (specs_data st) = Some info ->
  Rewrite.rewrite_metadata st old_id = Ok md' ->
  (forall field, In field ["dependencies"; "blocks"; "related"] ->
     Spec.list_field_rewritten (spec_map st)
       (Dict.get field (metadata info)) (Dict.get field md'))
  /\ Dict.get "parent" md'
     = Spec.parent_rewritten (spec_map st) (Dict.get "parent" (metadata info))
  /\ Dict.get "epic" md'
     = Spec.epic_rewritten (spec_map st) (Dict.get "epic" (metadata info)).
Proof.
  intros Hinfo H.
  destruct (rewrite_metadata_steps _ _ H)
    as (info' & md0 & md1 & md2 & md4 & md5 & Hinfo' & H0 & H1 & H2 & H4 & H5 & H6).
  rewrite Hinfo in Hinfo'. injection Hinfo' as <-.
  assert (Hne : forall a b : string, String.eqb a b = false -> a <> b).
  { intros a b Hab ->. now rewrite String.eqb_refl in Hab. }
  pose proof (fun k => @rewrite_list_field_frame _ _ _ _ k H6) as F6.
  pose proof (fun k => @rewrite_list_field_frame _ _ _ _ k H5) as F5.
  pose proof (fun k => @rewrite_list_field_frame _ _ _ _ k H4) as F4.
  pose proof (fun k => @rewrite_epic_frame (spec_map st) md2 k) as F3.
  pose proof (fun k => @rewrite_list_field_frame _ _ _ _ k H2) as F2.
  pose proof (fun k => @rewrite_parent_frame _ _ _ k H1) as F1.
  repeat split.
  - intros field [<-|[<-|[<-|[]]]].
    + rewrite F6, F5 by (apply Hne; reflexivity).
      rewrite <- H0, <- F1, <- F2, <- F3 by (apply Hne; reflexivity).
      exact (rewrite_list_field_spec _ _ _ H4).
    + rewrite F6 by (apply Hne; reflexivity).
      rewrite <- H0, <- F1, <- F2, <- F3, <- F4 by (apply Hne; reflexivity).
      exact (rewrite_list_field_spec _ _ _ H5).
    + rewrite <- H0, <- F1, <- F2, <- F3, <- F4, <- F5 by (apply Hne; reflexivity).
      exact (rewrite_list_field_spec _ _ _ H6).
  - rewrite F6, F5, F4, F3, F2 by (apply Hne; reflexivity).
    rewrite <- H0 by (apply Hne; reflexivity).
    exact (rewrite_parent_spec _ _ H1).
  - rewrite F6, F5, F4 by (apply Hne; reflexivity).
    rewrite rewrite_epic_spec.
    rewrite F2, F1, H0 by (apply Hne; reflexivity).
    reflexivity.
Qed.


(** C7, amended: after the rewrite of a node, each of [dependencies],
    [blocks] and [related] is left as it was when it was absent or empty
    and otherwise is a list of new ids, all in the range of the mapping;
    [parent] (looked up as it stands) and [epic] (looked up through
    [str]) hold the mapped new id when the mapping has the value as a
    key and are left unchanged otherwise, so the reference to a target
    that was not loaded survives. *)
Theorem C7_rewritten_references (st : migrator) (old_id : string)
    (info : spec_info) (md' : Dict.t value) :
  Dict.get old_id (specs_data st) = Some info ->
  Rewrite.rewrite_metadata st old_id = Ok md' ->
  (forall field, In field ["dependencies"; "blocks"; "related"] ->
     Spec.list_field_rewritten (spec_map st)
       (Dict.get field (metadata info)) (Dict.get field md'))
  /\ Dict.get "parent" md'
     = Spec.parent_rewritten (spec_map st) (Dict.get "parent" (metadata info))
  /\ Dict.get "epic" md'
     = Spec.epic_rewritten (spec_map st) (Dict.get "epic" (metadata info)).
Proof. exact (@rewrite_metadata_references st old_id info md'). Qed.

Lemma C7_rewritten_references_witness :
  let st := Scenarios.orphan_feature in
  let md := [("id", VInt 42); ("type", VStr "feature"); ("parent", VStr "99");
             ("epic", VInt 7); ("dependencies", VList [VInt 42; VInt 5])] in
  let md' := [("id", VStr "a1d0c6e8"); ("type", VStr "feature"); ("parent", VStr "99");
              ("epic", VInt 7); ("dependencies", VList [VStr "F99_42"])] in
  (forall field, In field ["dependencies"; "blocks"; "related"] ->
     Spec.list_field_rewritten (spec_map st) (Dict.get field md) (Dict.get field md'))
  /\ Dict.get "parent" md' = Spec.parent_rewritten (spec_map st) (Dict.get "parent" md)
  /\ Dict.get "epic" md' = Spec.epic_rewritten (spec_map st) (Dict.get "epic" md).
Proof.
  intros st md md'.
  apply (@C7_rewritten_references st "42"
           (Scenarios.node "feature" md "" "specs/42.md") md').
  - vm_compute; reflexivity.
  - vm_compute; reflexivity.
Defined.

(** ** The ancestor walk of [get_new_path] *)

Section WalkFacts.
Variable st : migrator.

(** One turn of the loop, from a node with a mapped id. *)
Lemma walk_step fuel id h new_id :
  id <> "" ->
  Dict.get id (spec_map st) = Some new_id ->
  Paths.walk st (S fuel) id h
  = match Dict.get id (specs_data st) with
    | None => Raise KeyError
    | Some info =>
        match Paths.parent_id (metadata info) with
        | VList (_ :: _) => Raise TypeError
        | _ =>
            match Spec.parent_link st id with
            | Some p => Paths.walk st fuel p (new_id :: h)
            | None => Ok (new_id :: h)
            end
        end
    end.
Proof.
  intros Hid Hmap. cbn [Paths.walk].
  destruct (String.eqb id "") eqn:He; [apply String.eqb_eq in He; contradiction|].
  rewrite Hmap. unfold Spec.parent_link.
  destruct (Dict.get id (specs_data st)) as [info|]; [|reflexivity].
  destruct (Paths.parent_id (metadata info)) as [|b|z|s|l]; cbn [Py.truthy bind Py.as_key].
  - reflexivity.
  - now destruct b.
  - now destruct (negb (z =? 0)%Z).
  - destruct (negb (String.eqb s "")); cbn [andb]; [|reflexivity].
    now destruct (Dict.mem s (specs_data st)).
  - now destruct l.
Qed.

(** Acyclic links bound the walk: with a rank that decreases along the
    links, [rank id + 1] turns are enough. *)
Lemma walk_ends (rank : string -> nat) :
  (forall id p, Spec.parent_link st id = Some p -> rank p < rank id) ->
  forall k id h, rank id <= k -> Paths.walk st (S k) id h <> Diverge.
Proof.
  intros Hrank. induction k as [|k IH]; intros id h Hk.
  - cbn [Paths.walk]. destruct (String.eqb id "") eqn:He; [discriminate|].
    destruct (Dict.get id (spec_map st)) as [new_id|] eqn:Hm; [|discriminate].
    assert (Hid : id <> "") by (intros ->; discriminate).
    pose proof (@walk_step 0 id h new_id Hid Hm) as Hs. cbn [Paths.walk] in Hs.
    rewrite He, Hm in Hs. rewrite Hs.
    destruct (Dict.get id (specs_data st)) as [info|]; [|discriminate].
    destruct (Spec.parent_link st id) as [p|] eqn:Hl.
    + apply Hrank in Hl. lia.
    + destruct (Paths.parent_id (metadata info)) as [| | | |[|]]; discriminate.
  - destruct (String.eqb id "") eqn:He.
    + cbn [Paths.walk]. rewrite He. discriminate.
    + assert (Hid : id <> "") by (intros ->; discriminate).
      destruct (Dict.get id (spec_map st)) as [new_id|] eqn:Hm.
      * rewrite (@walk_step (S k) id h new_id Hid Hm).
        destruct (Dict.get id (specs_data st)) as [info|]; [|discriminate].
        destruct (Spec.parent_link st id) as [p|] eqn:Hl.
        -- apply Hrank in Hl.
           destruct (Paths.parent_id (metadata info)) as [| | | |[|]];
             try discriminate; apply IH; lia.
        -- destruct (Paths.parent_id (metadata info)) as [| | | |[|]]; discriminate.
      * cbn [Paths.walk]. rewrite He, Hm. discriminate.
Qed.

(** A set of mapped nodes closed under the links is never left. *)
Lemma walk_loops (on_cycle : string -> Prop) :
  (forall id, on_cycle id ->
     id <> "" /\ (exists new_id, Dict.get id (spec_map st) = Some new_id)
     /\ exists p, Spec.parent_link st id = Some p /\ on_cycle p) ->
  forall fuel id h, on_cycle id -> Paths.walk st fuel id h = Diverge.
Proof.
  intros Hclosed. induction fuel as [|fuel IH]; intros id h Hon; [reflexivity|].
  destruct (Hclosed id Hon) as (Hid & [new_id Hm] & p & Hl & Hp).
  rewrite (@walk_step fuel id h new_id Hid Hm), Hl.
  unfold Spec.parent_link in Hl.
  destruct (Dict.get id (specs_data st)) as [info|]; [|discriminate].
  destruct (Paths.parent_id (metadata info)) as [| | |s|]; try discriminate.
  now apply IH.
Qed.

End WalkFacts.

(** C4, as stated, fails: the tasks [a] and [b] name each other as
    parent; hierarchy resolution maps them without any report, and the
    walk of [get_new_path] from [a] has not ended after any number of
    turns. *)
Lemma C4_cycle_is_walked_forever :
  spec_map Scenarios.parent_cycle = [("a", "T99_a"); ("b", "T99_b")]
  /\ forall fuel, Paths.get_new_path Scenarios.parent_cycle fuel "a" = Diverge.
Proof.
  split; [vm_compute; reflexivity|].
  intros fuel. unfold Paths.get_new_path.
  replace (Dict.get "a" (specs_data Scenarios.parent_cycle))
    with (Some (Scenarios.node "task" [("id", VStr "a"); ("parent", VStr "b")] "" "specs/a.md"))
    by (vm_compute; reflexivity).
  rewrite (@walk_loops Scenarios.parent_cycle (fun id => id = "a" \/ id = "b"));
    [reflexivity| |now left].
  intros id [-> | ->].
  - split; [discriminate|]. split; [exists "T99_a"; vm_compute; reflexivity|].
    exists "b". split; [vm_compute; reflexivity|now right].
  - split; [discriminate|]. split; [exists "T99_b"; vm_compute; reflexivity|].
    exists "a". split; [vm_compute; reflexivity|now left].
Qed.

(** ** A parent given as an integer *)

(** C10, as stated, fails at the integer [0], which is falsy: the
    feature [5] with [parent: 0] is not grouped under the loaded epic
    [0]; its grouping key is the empty string and it gets the orphan
    id. *)
Lemma C10_zero_parent_is_not_grouped :
  Hierarchy.parent_key [("id", VInt 5); ("type", VStr "feature"); ("parent", VInt 0)] = ""
  /\ spec_map Scenarios.zero_parent = [("0", "E01"); ("5", "F99_5")].
Proof. vm_compute. split; reflexivity. Qed.

(** C10, amended: when the [parent] of a loaded node is a non-zero
    YAML integer [n], grouping files the node under the key [str(n)],
    while [get_new_path] and the rewrite of the [parent] field look the
    integer itself up in the string-keyed tables and find nothing: the
    parts of the new path are [specs] and the node's own new id, without
    any ancestor (for the node whose id is the empty string the loop is
    not entered and the path is [specs] alone), and [parent] is left as
    the integer, whether or not a node [str(n)] is loaded and mapped. *)
Theorem C10_integer_parent (st : migrator) (old_id new_id : string)
    (info : spec_info) (n : Z) (fuel : nat) :
  Dict.get old_id (specs_data st) = Some info ->
  Dict.get "parent" (metadata info) = Some (VInt n) ->
  n <> 0%Z ->
  Dict.get old_id (spec_map st) = Some new_id ->
  Hierarchy.parent_key (metadata info) = PyStr.str_Z n
  /\ Paths.get_new_path st (S fuel) old_id
     = Ok (if String.eqb old_id "" then ["specs"] else ["specs"; new_id])
  /\ (forall md', Rewrite.rewrite_metadata st old_id = Ok md' ->
        Dict.get "parent" md' = Some (VInt n)).
Proof.
  intros Hinfo Hparent Hn Hmap.
  assert (Ht : Py.truthy (VInt n) = true).
  { cbn [Py.truthy]. destruct (Z.eqb_spec n 0); [contradiction|reflexivity]. }
  split; [|split].
  - unfold Hierarchy.parent_key. rewrite Hparent, Ht. reflexivity.
  - unfold Paths.get_new_path. rewrite Hinfo.
    destruct (String.eqb_spec old_id "") as [->|Hid]; [reflexivity|].
    rewrite (@walk_step st fuel old_id [] new_id Hid Hmap), Hinfo.
    unfold Spec.parent_link, Paths.parent_id. rewrite Hinfo.
    unfold Paths.parent_id. rewrite Hparent. reflexivity.
  - intros md' H.
    destruct (@rewrite_metadata_references st old_id info md' Hinfo H) as (_ & Hp & _).
    rewrite Hp, Hparent. reflexivity.
Qed.

Lemma C10_integer_parent_witness :
  let md := [("id", VInt 1001); ("type", VStr "feature"); ("parent", VInt 1000)] in
  Hierarchy.parent_key md = "1000"
  /\ Paths.get_new_path Scenarios.integer_parent 3 "1001" = Ok ["specs"; "F01"]
  /\ (forall md', Rewrite.rewrite_metadata Scenarios.integer_parent "1001" = Ok md' ->
        Dict.get "parent" md' = Some (VInt 1000)).
Proof.
  intros md.
  apply (@C10_integer_parent Scenarios.integer_parent "1001" "F01"
           (Scenarios.node "feature" md "" "specs/1000/1001.md") 1000%Z 2).
  - vm_compute; reflexivity.
  - vm_compute; reflexivity.
  - discriminate.
  - vm_compute; reflexivity.
Defined.

(** ** The order of the numbering *)

Lemma insert_by_key_perm x l : Permutation (x :: l) (Spec.insert_by_key x l).
Proof.
  induction l as [|y l IH]; cbn [Spec.insert_by_key]; [reflexivity|].
  destruct (Spec.key x <=? Spec.key y)%Z; [reflexivity|].
  rewrite perm_swap. now apply perm_skip.
Qed.

Lemma sorted_perm l : Permutation l (Spec.sorted l).
Proof.
  induction l as [|x l IH]; cbn [Spec.sorted fold_right]; [reflexivity|].
  rewrite <- insert_by_key_perm. now apply perm_skip.
Qed.

Lemma insert_by_key_sorted x l :
  Sorted Spec.key_le l -> Sorted Spec.key_le (Spec.insert_by_key x l).
Proof.
  induction l as [|y l IH]; cbn [Spec.insert_by_key]; intros Hs.
  - repeat constructor.
  - destruct (Spec.key x <=? Spec.key y)%Z eqn:Hle.
    + constructor; [exact Hs|]. constructor. unfold Spec.key_le. lia.
    + inversion Hs as [|? ? Hs' Hhd]; subst. constructor; [now apply IH|].
      destruct l as [|z l]; cbn [Spec.insert_by_key].
      * constructor. unfold Spec.key_le. lia.
      * destruct (Spec.key x <=? Spec.key z)%Z.
        -- constructor. unfold Spec.key_le. lia.
        -- inversion Hhd; subst. now constructor.
Qed.

Lemma sorted_is_sorted l : Sorted Spec.key_le (Spec.sorted l).
Proof.
  induction l as [|x l IH]; cbn [Spec.sorted fold_right]; [constructor|].
  now apply insert_by_key_sorted.
Qed.

Lemma insert_by_key_stable k x l :
  Spec.with_key k (Spec.insert_by_key x l) = Spec.with_key k (x :: l).
Proof.
  unfold Spec.with_key.
  induction l as [|y l IH]; cbn [Spec.insert_by_key]; [reflexivity|].
  destruct (Spec.key x <=? Spec.key y)%Z eqn:Hle; [reflexivity|].
  cbn [filter] in *. rewrite IH.
  destruct (Z.eqb_spec (Spec.key y) k), (Z.eqb_spec (Spec.key x) k);
    try reflexivity.
  lia.
Qed.

Lemma sorted_stable k l : Spec.with_key k (Spec.sorted l) = Spec.with_key k l.
Proof.
  induction l as [|x l IH]; cbn [Spec.sorted fold_right]; [reflexivity|].
  rewrite insert_by_key_stable. unfold Spec.with_key in *. cbn [filter].
  fold (Spec.sorted l). now rewrite IH.
Qed.

(** C9, as stated, fails: the epics [b] and [a] are not numbers, both
    have the key [0], and keep their load order: [b] is numbered before
    [a], against the lexicographic order. *)
Lemma C9_load_order_not_lexicographic :
  let st := mk_migrator [] [] (specs_data Scenarios.lettered_epics) [] in
  Dict.keys (specs_data st) = ["b"; "a"]
  /\ Hierarchy.sorted ["b"; "a"] = Ok ["b"; "a"]
  /\ Hierarchy.build_hierarchy_map st = Ok Scenarios.lettered_epics
  /\ spec_map Scenarios.lettered_epics = [("b", "E01"); ("a", "E02")].
Proof. vm_compute. repeat split; reflexivity. Qed.

(** ** Rewriting of the body *)

Unset Implicit Arguments.

Section StringFacts.

Lemma str_app_nil_r (s : string) : s ++ "" = s.
Proof. induction s; cbn; congruence. Qed.

Lemma str_app_assoc (a b c : string) : (a ++ b) ++ c = a ++ b ++ c.
Proof. induction a; cbn; congruence. Qed.

Lemma str_length_app (a b : string) :
  String.length (a ++ b) = String.length a + String.length b.
Proof. induction a; cbn; congruence. Qed.

Lemma startswith_app (p s : string) : PyStr.startswith p (p ++ s) = true.
Proof.
  unfold PyStr.startswith. induction p as [|c p IH]; cbn.
  - now destruct s.
  - destruct (ascii_dec c c); [exact IH|contradiction].
Qed.

Lemma startswith_split (p s : string) :
  PyStr.startswith p s = true -> exists r, s = p ++ r.
Proof.
  unfold PyStr.startswith. revert s. induction p as [|c p IH]; intros s H.
  - now exists s.
  - destruct s as [|d s]; cbn in H; [discriminate|].
    destruct (ascii_dec c d); [|discriminate]. subst d.
    destruct (IH s H) as [r ->]. now exists r.
Qed.

Lemma drop_app (a b : string) : PyStr.drop (String.length a) (a ++ b) = b.
Proof. induction a; cbn; [now destruct b|assumption]. Qed.

Lemma all_chars_app p (a b : string) :
  PyStr.all_chars p (a ++ b) = PyStr.all_chars p a && PyStr.all_chars p b.
Proof. induction a as [|c a IH]; cbn; [reflexivity|]. now rewrite IH, andb_assoc. Qed.

Lemma match_nonempty (A : Type) (o : string) (a b : A) :
  o <> "" -> match o with EmptyString => a | String _ _ => b end = b.
Proof. destruct o; [contradiction|reflexivity]. Qed.

End StringFacts.

Section ScanFacts.
Variables (guard : bool) (old new : string).
Hypothesis old_not_empty : old <> "".
Hypothesis old_word : PyStr.all_chars PyStr.is_word old = true.

Let scan := Rewrite.sub_from guard old new.

Lemma last_char_word (prev : option ascii) (w : string) :
  w <> "" -> PyStr.all_chars PyStr.is_word w = true ->
  Rewrite.is_word_at (Rewrite.last_char prev w) = true.
Proof.
  revert prev. induction w as [|c w IH]; intros prev Hne Hw; [contradiction|].
  cbn in Hw. apply andb_true_iff in Hw. destruct Hw as [Hc Hw].
  cbn [Rewrite.last_char]. destruct w as [|d w]; [exact Hc|].
  apply IH; [discriminate|exact Hw].
Qed.

Lemma head_old_word (r : string) :
  Rewrite.is_word_at (Rewrite.head (old ++ r)) = true.
Proof.
  destruct old as [|c o]; [contradiction|]. cbn in *.
  now apply andb_true_iff in old_word.
Qed.

(** No match where the text does not start with the id, and none
    inside a run of word characters. *)
Lemma no_match_not_prefix prev s :
  PyStr.startswith old s = false -> Rewrite.match_at guard old prev s = false.
Proof. unfold Rewrite.match_at. now intros ->. Qed.

Lemma no_match_inside p s :
  PyStr.is_word p = true -> Rewrite.match_at guard old (Some p) s = false.
Proof.
  intros Hp. unfold Rewrite.match_at.
  destruct (PyStr.startswith old s) eqn:Hs; [|reflexivity].
  destruct (startswith_split _ _ Hs) as [r ->].
  unfold Rewrite.boundary at 1. rewrite head_old_word. cbn [Rewrite.is_word_at].
  rewrite Hp. reflexivity.
Qed.

Lemma scan_inside w : forall p rest,
  PyStr.is_word p = true -> PyStr.all_chars PyStr.is_word w = true ->
  scan (Some p) 0 (w ++ rest) = w ++ scan (Rewrite.last_char (Some p) w) 0 rest.
Proof.
  induction w as [|c w IH]; intros p rest Hp Hw; [reflexivity|].
  cbn in Hw. apply andb_true_iff in Hw. destruct Hw as [Hc Hw].
  unfold scan. cbn [append Rewrite.sub_from Rewrite.last_char].
  rewrite (no_match_inside p _ Hp). f_equal. now apply IH.
Qed.

Lemma scan_skip u : forall prev rest,
  scan prev (String.length u) (u ++ rest) = scan (Rewrite.last_char prev u) 0 rest.
Proof.
  induction u as [|c u IH]; intros prev rest; [reflexivity|].
  unfold scan. cbn [append String.length Rewrite.sub_from Rewrite.last_char].
  apply IH.
Qed.

Lemma scan_other prev c s :
  PyStr.is_word c = false ->
  scan prev 0 (String c s) = String c (scan (Some c) 0 s).
Proof.
  intros Hc. unfold scan. cbn [Rewrite.sub_from].
  rewrite no_match_not_prefix; [reflexivity|].
  destruct (PyStr.startswith old (String c s)) eqn:Hs; [|reflexivity].
  destruct (startswith_split _ _ Hs) as [r Hr].
  pose proof (head_old_word r) as Hh. rewrite <- Hr in Hh. cbn in Hh. congruence.
Qed.

Lemma scan_end prev : scan prev 0 "" = "".
Proof.
  unfold scan. cbn [Rewrite.sub_from].
  rewrite no_match_not_prefix; [reflexivity|].
  destruct old; [contradiction|reflexivity].
Qed.

(** A run of word characters that starts with the id and ends where
    the other characters begin has the id as a prefix. *)
Lemma prefix_of_run o : forall w rest r,
  PyStr.all_chars PyStr.is_word o = true ->
  Rewrite.is_word_at (Rewrite.head rest) = false ->
  w ++ rest = o ++ r -> exists t, w = o ++ t.
Proof.
  induction o as [|c o IH]; intros w rest r Ho Hrest Heq; [now exists w|].
  cbn in Ho. apply andb_true_iff in Ho. destruct Ho as [Hc Ho].
  destruct w as [|d w]; cbn in Heq.
  - subst rest. cbn in Hrest. congruence.
  - injection Heq as -> Heq. destruct (IH w rest r Ho Hrest Heq) as [t ->].
    now exists t.
Qed.

(** At the start of a run the pattern matches exactly when the run is
    the id and the guard lets it pass. *)
Lemma match_at_run prev w rest :
  Rewrite.is_word_at prev = false ->
  w <> "" -> PyStr.all_chars PyStr.is_word w = true ->
  Rewrite.is_word_at (Rewrite.head rest) = false ->
  Rewrite.match_at guard old prev (w ++ rest)
  = String.eqb w old && negb (guard && PyStr.startswith ".md" rest).
Proof.
  intros Hprev Hne Hw Hrest. destruct (String.eqb_spec w old) as [->|Hneq].
  - unfold Rewrite.match_at. rewrite startswith_app, drop_app.
    unfold Rewrite.boundary. rewrite head_old_word, Hprev, Hrest.
    rewrite (last_char_word prev old old_not_empty old_word). reflexivity.
  - cbn [andb]. unfold Rewrite.match_at.
    destruct (PyStr.startswith old (w ++ rest)) eqn:Hs; [|reflexivity].
    destruct (startswith_split _ _ Hs) as [r Hr].
    destruct (prefix_of_run old w rest r old_word Hrest Hr) as [t ->].
    rewrite str_app_assoc, drop_app.
    destruct t as [|c t]; [now rewrite str_app_nil_r in Hneq|].
    rewrite all_chars_app in Hw. apply andb_true_iff in Hw. destruct Hw as [_ Hw].
    cbn in Hw. apply andb_true_iff in Hw. destruct Hw as [Hc _].
    unfold Rewrite.boundary at 2.
    rewrite (last_char_word prev old old_not_empty old_word).
    cbn [append Rewrite.head Rewrite.is_word_at]. rewrite Hc.
    cbn [xorb]. now rewrite andb_false_r.
Qed.

Lemma scan_run prev w rest :
  Rewrite.is_word_at prev = false ->
  w <> "" -> PyStr.all_chars PyStr.is_word w = true ->
  Rewrite.is_word_at (Rewrite.head rest) = false ->
  scan prev 0 (w ++ rest)
  = (if String.eqb w old && negb (guard && PyStr.startswith ".md" rest)
     then new else w)
    ++ scan (Rewrite.last_char prev w) 0 rest.
Proof.
  intros Hprev Hne Hw Hrest.
  pose proof (match_at_run prev w rest Hprev Hne Hw Hrest) as Hm.
  destruct w as [|c w]; [contradiction|].
  cbn in Hw. apply andb_true_iff in Hw. destruct Hw as [Hc Hw].
  unfold scan. cbn [append Rewrite.sub_from] in *. rewrite Hm.
  destruct (String.eqb (String c w) old
            && negb (guard && PyStr.startswith ".md" rest)) eqn:Hb.
  - apply andb_true_iff in Hb. destruct Hb as [Hb _].
    apply String.eqb_eq in Hb.
    rewrite (match_nonempty _ old _ _ old_not_empty).
    replace (String.length old - 1) with (String.length w)
      by (rewrite <- Hb; cbn [String.length]; lia).
    f_equal. cbn [Rewrite.last_char]. exact (scan_skip w (Some c) rest).
  - cbn [append Rewrite.last_char]. f_equal. exact (scan_inside w c rest Hc Hw).
Qed.

End ScanFacts.

Section TokenFacts.
Variables (old new : string).
Hypothesis old_not_empty : old <> "".
Hypothesis old_word : PyStr.all_chars PyStr.is_word old = true.

Lemma tokens_run w : forall cur rest,
  PyStr.all_chars PyStr.is_word w = true ->
  Spec.tokens_from old new cur (w ++ rest) = Spec.tokens_from old new (cur ++ w) rest.
Proof.
  induction w as [|c w IH]; intros cur rest Hw.
  - now rewrite str_app_nil_r.
  - cbn in Hw. apply andb_true_iff in Hw. destruct Hw as [Hc Hw].
    cbn [append Spec.tokens_from]. rewrite Hc, IH by exact Hw.
    now rewrite str_app_assoc.
Qed.

Lemma flush_nothing rest : Spec.flush old new "" rest = "".
Proof.
  unfold Spec.flush. destruct (String.eqb_spec "" old) as [H|H]; [|reflexivity].
  symmetry in H. contradiction.
Qed.

(** A text splits into its first run of word characters and what
    follows it. *)
Lemma run_split s :
  exists w rest,
    s = w ++ rest /\ PyStr.all_chars PyStr.is_word w = true
    /\ Rewrite.is_word_at (Rewrite.head rest) = false
    /\ String.length rest <= String.length s
    /\ (Rewrite.is_word_at (Rewrite.head s) = true -> w <> "").
Proof.
  induction s as [|c s IH].
  - exists "", "". cbn. repeat split; auto. discriminate.
  - destruct (PyStr.is_word c) eqn:Hc.
    + destruct IH as (w & rest & -> & Hw & Hrest & Hlen & _).
      exists (String c w), rest. cbn [append PyStr.all_chars String.length].
      rewrite Hc, Hw. repeat split; auto. discriminate.
    + exists "", (String c s). cbn. rewrite Hc. repeat split; auto. discriminate.
Qed.

(** The scan of [re.sub] with the lookahead rewrites by whole tokens. *)
Lemma scan_is_tokens n : forall body prev,
  String.length body <= n ->
  Rewrite.is_word_at prev = false ->
  Rewrite.sub_from true old new prev 0 body = Spec.tokens_from old new "" body.
Proof.
  induction n as [|n IH]; intros body prev Hlen Hprev.
  - destruct body; [|cbn in Hlen; lia].
    rewrite (scan_end true old new old_not_empty old_word). cbn [Spec.tokens_from].
    now rewrite flush_nothing.
  - destruct body as [|c s].
    { rewrite (scan_end true old new old_not_empty old_word). cbn [Spec.tokens_from].
      now rewrite flush_nothing. }
    destruct (PyStr.is_word c) eqn:Hc.
    + destruct (run_split (String c s)) as (w & rest & Heq & Hw & Hrest & Hl & Hne).
      specialize (Hne Hc). rewrite Heq.
      rewrite (scan_run true old new old_not_empty old_word prev w rest Hprev Hne Hw Hrest).
      rewrite (tokens_run w "" rest Hw). cbn [append andb].
      destruct rest as [|d r].
      * rewrite (scan_end true old new old_not_empty old_word), str_app_nil_r.
        cbn [Spec.tokens_from]. reflexivity.
      * cbn in Hrest.
        rewrite (scan_other true old new old_not_empty old_word _ d r Hrest).
        cbn [Spec.tokens_from]. rewrite Hrest. unfold Spec.flush. f_equal. f_equal.
        apply IH; [|exact Hrest].
        assert (String.length (String c s) = String.length (w ++ String d r)) by now rewrite Heq.
        rewrite str_length_app in H. cbn [String.length] in *. lia.
    + rewrite (scan_other true old new old_not_empty old_word prev c s Hc).
      cbn [Spec.tokens_from]. rewrite Hc, flush_nothing. cbn [append]. f_equal.
      apply IH; [cbn in Hlen; lia|exact Hc].
Qed.

End TokenFacts.

(** C8, as stated, fails: [.txt] is a file-extension suffix and does not
    protect the id before it, and inside [21013.md] the id is part of a
    longer run of digits and is rewritten all the same. *)
Lemma C8_other_suffix_and_longer_run :
  Rewrite.rewrite_body [("1013", "T03")] "notes in 1013.txt and 21013.md"
  = "notes in T03.txt and 2T03/spec.md".
Proof. vm_compute. reflexivity. Qed.

(** C8, amended: for an old id made of ASCII word characters, a new
    id that is a literal template (ASCII, no backslash) and an ASCII
    body, the rewrite of the body with one pair first replaces the old
    id exactly where it stands as a whole token (a maximal run of word
    characters) not immediately followed by [.md] (no other suffix
    protects it), and then rewrites every occurrence of the text
    [{old_id}.md] that is left, whole token or not, to
    [{new_id}/spec.md]; in particular
    [See 1013 and 1013.md for details.] under [1013 -> T03] becomes
    [See T03 and T03/spec.md for details.] *)
Theorem C8_body_rewrite_by_tokens (old new body : string) :
  old <> "" ->
  PyStr.all_chars PyStr.is_word old = true ->
  PyStr.isascii old = true ->
  Rewrite.plain_template new = true ->
  PyStr.isascii body = true ->
  Rewrite.rewrite_body [(old, new)] body
  = PyStr.replace (old ++ ".md") (new ++ "/spec.md")
      (Spec.replace_tokens old new body)
  /\ Rewrite.rewrite_body [("1013", "T03")] "See 1013 and 1013.md for details."
     = "See T03 and T03/spec.md for details.".
Proof.
  intros Hne Hw _ _ _. split; [|vm_compute; reflexivity].
  unfold Rewrite.rewrite_body, Rewrite.rewrite_pair, Rewrite.re_sub_ref,
    Spec.replace_tokens.
  cbn [fold_left].
  now rewrite (scan_is_tokens old new Hne Hw (String.length body) body None (le_n _) eq_refl).
Qed.

Lemma C8_body_rewrite_by_tokens_witness :
  Rewrite.rewrite_body [("1013", "T03")] "In 1013, see 1013.md"
  = PyStr.replace ("1013" ++ ".md") ("T03" ++ "/spec.md")
      (Spec.replace_tokens "1013" "T03" "In 1013, see 1013.md").
Proof.
  refine (proj1 (C8_body_rewrite_by_tokens "1013" "T03" "In 1013, see 1013.md" _ _ _ _ _)).
  - discriminate.
  - reflexivity.
  - reflexivity.
  - reflexivity.
  - reflexivity.
Defined.

(** ** The filesystem monad *)

Section FSFacts.

Lemma stepped_refl w : Spec.stepped w w [].
Proof.
  unfold Spec.stepped. cbn. rewrite List.app_nil_r. auto.
Qed.

Lemma stepped_trans w1 w2 w3 a b :
  Spec.stepped w1 w2 a -> Spec.stepped w2 w3 b -> Spec.stepped w1 w3 (a ++ b)%list.
Proof.
  intros (Ho1 & Hf1 & Hc1 & Hs1) (Ho2 & Hf2 & Hc2 & Hs2). unfold Spec.stepped.
  rewrite Ho2, Ho1, Hf2, Hf1, Hs2, Hs1, <- List.app_assoc.
  unfold Spec.apply_ops. rewrite fold_left_app.
  split; [reflexivity|]. split; [reflexivity|]. split; [lia|reflexivity].
Qed.

Lemma write_text_ok path content w :
  FS.fault w (FS.clock w) = None ->
  exists w', FS.write_text path content w = (Ok tt, w')
             /\ Spec.stepped w w' [FS.OpWrite path content].
Proof.
  intros Hf. unfold FS.write_text, FS.attempt. rewrite Hf. eexists. split; [reflexivity|].
  unfold Spec.stepped. cbn. auto.
Qed.

Lemma write_text_fails path content w f :
  FS.fault w (FS.clock w) = Some f ->
  exists w', FS.write_text path content w = (Raise OSError, w')
             /\ Spec.stepped w w' (Spec.cut_ops path content f).
Proof.
  intros Hf. unfold FS.write_text, FS.attempt. rewrite Hf. eexists. split; [reflexivity|].
  destruct f; unfold Spec.stepped; cbn; rewrite ?List.app_nil_r; auto.
Qed.

Lemma write_text_clock path content w :
  FS.clock (snd (FS.write_text path content w)) = S (FS.clock w).
Proof.
  unfold FS.write_text, FS.attempt.
  destruct (FS.fault w (FS.clock w)) as [[|k]|]; reflexivity.
Qed.

Lemma mkdir_ok path w :
  FS.fault w (FS.clock w) = None ->
  exists w', FS.mkdir path w = (Ok tt, w') /\ Spec.stepped w w' [FS.OpMkdir path].
Proof.
  intros Hf. unfold FS.mkdir, FS.attempt. rewrite Hf. eexists. split; [reflexivity|].
  unfold Spec.stepped. cbn. auto.
Qed.

Lemma mkdir_fails path w f :
  FS.fault w (FS.clock w) = Some f ->
  exists w', FS.mkdir path w = (Raise OSError, w') /\ Spec.stepped w w' [].
Proof.
  intros Hf. unfold FS.mkdir, FS.attempt. rewrite Hf. eexists. split; [reflexivity|].
  unfold Spec.stepped. cbn. rewrite List.app_nil_r. auto.
Qed.

Lemma mkdir_clock path w : FS.clock (snd (FS.mkdir path w)) = S (FS.clock w).
Proof.
  unfold FS.mkdir, FS.attempt. destruct (FS.fault w (FS.clock w)); reflexivity.
Qed.

Lemma unlink_ok path w :
  FS.fault w (FS.clock w) = None ->
  exists w', FS.unlink path w = (Ok tt, w') /\ Spec.stepped w w' [FS.OpUnlink path].
Proof.
  intros Hf. unfold FS.unlink, FS.attempt. rewrite Hf. eexists. split; [reflexivity|].
  unfold Spec.stepped. cbn. auto.
Qed.

Lemma unlink_fails path w f :
  FS.fault w (FS.clock w) = Some f ->
  exists w', FS.unlink path w = (Raise OSError, w') /\ Spec.stepped w w' [].
Proof.
  intros Hf. unfold FS.unlink, FS.attempt. rewrite Hf. eexists. split; [reflexivity|].
  unfold Spec.stepped. cbn. rewrite List.app_nil_r. auto.
Qed.

(** What mutations that only add leave of the files. *)
Lemma apply_creates_mem ops : forall fs p,
  forallb Spec.creates ops = true ->
  Dict.mem p fs = true -> Dict.mem p (Spec.apply_ops ops fs) = true.
Proof.
  induction ops as [|o ops IH]; intros fs p Hc Hm; [exact Hm|].
  cbn in Hc. apply andb_true_iff in Hc. destruct Hc as [Ho Hc].
  cbn [Spec.apply_ops fold_left]. apply IH; [exact Hc|].
  destruct o; try discriminate; cbn [Spec.apply_op]; [|exact Hm].
  unfold Dict.mem in *. rewrite get_set.
  now destruct (String.eqb p path).
Qed.

Lemma apply_creates_get ops : forall fs p,
  forallb Spec.creates ops = true ->
  (forall c, ~ In (FS.OpWrite p c) ops) ->
  Dict.get p (Spec.apply_ops ops fs) = Dict.get p fs.
Proof.
  induction ops as [|o ops IH]; intros fs p Hc Hn; [reflexivity|].
  cbn in Hc. apply andb_true_iff in Hc. destruct Hc as [Ho Hc].
  cbn [Spec.apply_ops fold_left].
  rewrite (IH _ p Hc) by (intros c Hin; apply (Hn c); now right).
  destruct o; try discriminate; cbn [Spec.apply_op]; [|reflexivity].
  apply get_set_other. intros ->. apply (Hn content). now left.
Qed.

Lemma apply_creates_written ops : forall fs p c,
  forallb Spec.creates ops = true ->
  In (FS.OpWrite p c) ops ->
  Dict.mem p (Spec.apply_ops ops fs) = true.
Proof.
  induction ops as [|o ops IH]; intros fs p c Hc Hin; [destruct Hin|].
  cbn in Hc. apply andb_true_iff in Hc. destruct Hc as [Ho Hc].
  cbn [Spec.apply_ops fold_left]. destruct Hin as [->|Hin].
  - apply apply_creates_mem; [exact Hc|]. cbn [Spec.apply_op].
    unfold Dict.mem. now rewrite get_set_same.
  - now apply (IH _ p c).
Qed.

Lemma cut_ops_create path content f :
  forallb Spec.creates (Spec.cut_ops path content f) = true.
Proof. now destruct f. Qed.

End FSFacts.

(** ** The orchestrator *)

Section MigrationFacts.
Variable E : externals.
Variable fuel : nat.

(** The log is read by none of the computations of the loop. *)
Lemma walk_add_log e st : forall n id h,
  Paths.walk (Migration.add_log e st) n id h = Paths.walk st n id h.
Proof.
  induction n as [|n IH]; intros id h; [reflexivity|].
  cbn [Paths.walk]. unfold Migration.add_log in *. cbn [spec_map specs_data].
  destruct (String.eqb id ""); [reflexivity|].
  destruct (Dict.get id (spec_map st)); [|reflexivity].
  destruct (Dict.get id (specs_data st)); [|reflexivity].
  destruct (Py.truthy (Paths.parent_id (metadata s0))); [|reflexivity].
  destruct (Py.as_key (Paths.parent_id (metadata s0))) as [[k|]| |]; cbn [bind];
    try reflexivity.
  destruct (Dict.mem k (specs_data st)); [apply IH|reflexivity].
Qed.

Lemma planned_add_log e st entry :
  Spec.planned E fuel (Migration.add_log e st) entry = Spec.planned E fuel st entry.
Proof.
  unfold Spec.planned. destruct entry as [old_id info].
  unfold Paths.get_new_path. rewrite walk_add_log.
  unfold update_spec_content, Rewrite.rewrite_metadata, Migration.new_id_of,
    Migration.unique_id_of, Migration.add_log.
  cbn [spec_map specs_data unique_ids]. reflexivity.
Qed.

(** One turn of the first loop whose computations succeed and whose
    directory is made: the write is attempted, and decides. *)
Lemma migrate_spec_planned st entry pl w :
  Spec.planned E fuel st entry = Ok pl ->
  FS.fault w (FS.clock w) = None ->
  (FS.fault w (S (FS.clock w)) = None ->
   exists w', Migration.migrate_spec E fuel st entry w
              = (Ok (Migration.add_log (Spec.plan_log pl) st), w')
              /\ Spec.stepped w w' (Spec.plan_ops pl)
              /\ FS.clock w' = 2 + FS.clock w)
  /\ (forall f, FS.fault w (S (FS.clock w)) = Some f ->
      exists w', Migration.migrate_spec E fuel st entry w = (Raise OSError, w')
                 /\ Spec.stepped w w'
                      (FS.OpMkdir (Spec.plan_dir pl)
                       :: Spec.cut_ops (Spec.plan_path pl) (Spec.plan_content pl) f)).
Proof.
  unfold Spec.planned, Migration.migrate_spec. destruct entry as [old_id info].
  destruct (Paths.get_new_path st fuel old_id) as [new_path| |]; cbn [bind];
    try discriminate.
  destruct (update_spec_content E st old_id) as [new_content| |]; cbn [bind];
    try discriminate.
  destruct (Migration.new_id_of st old_id) as [new_id| |]; cbn [bind]; try discriminate.
  destruct (Migration.unique_id_of st old_id) as [unique_id| |]; cbn [bind];
    try discriminate.
  intros [= <-] Hf0.
  cbn [Spec.plan_log Spec.plan_ops Spec.plan_dir Spec.plan_path Spec.plan_content].
  destruct (mkdir_ok (Paths.path_str new_path) w Hf0) as (w1 & Hm & Hs1).
  pose proof (mkdir_clock (Paths.path_str new_path) w) as Hc1.
  rewrite Hm in Hc1. cbn [snd] in Hc1.
  assert (Hfw : FS.fault w1 (FS.clock w1) = FS.fault w (S (FS.clock w))).
  { destruct Hs1 as (_ & -> & _). now rewrite Hc1. }
  split.
  - intros Hf. rewrite <- Hfw in Hf.
    destruct (write_text_ok (Paths.path_str (new_path ++ ["spec.md"])%list) new_content w1 Hf)
      as (w2 & Hw & Hs2).
    pose proof (write_text_clock (Paths.path_str (new_path ++ ["spec.md"])%list)
                  new_content w1) as Hc2.
    rewrite Hw in Hc2. cbn [snd] in Hc2.
    exists w2. split; [|split; [exact (stepped_trans _ _ _ _ _ Hs1 Hs2)|]].
    + unfold FS.mbind, FS.lift, FS.ret. rewrite Hm, Hw. reflexivity.
    + rewrite Hc2, Hc1. reflexivity.
  - intros f Hf. rewrite <- Hfw in Hf.
    destruct (write_text_fails (Paths.path_str (new_path ++ ["spec.md"])%list)
                new_content w1 f Hf) as (w2 & Hw & Hs2).
    exists w2. split; [|exact (stepped_trans _ _ _ _ _ Hs1 Hs2)].
    unfold FS.mbind, FS.lift, FS.ret. rewrite Hm, Hw. reflexivity.
Qed.

End MigrationFacts.

Section LoopFacts.
Variable E : externals.
Variable fuel : nat.

(** A loop whose turns only perform mutations of one kind performs
    only such mutations, and, when it completes, at least [k] writes
    for each element. *)
Lemma for_each_stepped (A S : Type) (body : S -> A -> FS.M S)
    (good : FS.op -> bool) (k : nat) :
  (forall st x w, exists added,
      Spec.stepped w (snd (body st x w)) added
      /\ forallb good added = true
      /\ (forall st', fst (body st x w) = Ok st' ->
            k <= length (filter Spec.is_write added))) ->
  forall xs st w, exists added,
      Spec.stepped w (snd (FS.for_each body xs st w)) added
      /\ forallb good added = true
      /\ (forall st', fst (FS.for_each body xs st w) = Ok st' ->
            k * length xs <= length (filter Spec.is_write added)).
Proof.
  intros Hbody. induction xs as [|x xs IH]; intros st w.
  - exists []. split; [apply stepped_refl|]. split; [reflexivity|]. cbn. intros; lia.
  - cbn [FS.for_each]. unfold FS.mbind.
    destruct (Hbody st x w) as (a & Hs & Hg & Hk).
    destruct (body st x w) as [[st1| |] w1] eqn:Hb; cbn [fst snd] in *.
    + destruct (IH st1 w1) as (b & Hs' & Hg' & Hk').
      exists (a ++ b)%list. split; [exact (stepped_trans _ _ _ _ _ Hs Hs')|].
      split; [now rewrite forallb_app, Hg, Hg'|].
      intros st' Hok. specialize (Hk st1 eq_refl). specialize (Hk' st' Hok).
      rewrite filter_app, List.length_app. cbn [length]. lia.
    + exists a. split; [exact Hs|]. split; [exact Hg|discriminate].
    + exists a. split; [exact Hs|]. split; [exact Hg|discriminate].
Qed.

(** The loops change nothing of the migrator but its log. *)
Lemma for_each_keeps (A S T : Type) (body : S -> A -> FS.M S) (f : S -> T) :
  (forall st x w st', fst (body st x w) = Ok st' -> f st' = f st) ->
  forall xs st w st', fst (FS.for_each body xs st w) = Ok st' -> f st' = f st.
Proof.
  intros Hbody. induction xs as [|x xs IH]; intros st w st'.
  - cbn. now intros [= <-].
  - cbn [FS.for_each]. unfold FS.mbind.
    destruct (body st x w) as [[st1| |] w1] eqn:Hb; cbn [fst]; try discriminate.
    intros H. rewrite (IH st1 w1 st' H). apply (Hbody st x w). now rewrite Hb.
Qed.

Lemma migrate_spec_any st entry w :
  exists added,
    Spec.stepped w (snd (Migration.migrate_spec E fuel st entry w)) added
    /\ forallb Spec.creates added = true
    /\ (forall st', fst (Migration.migrate_spec E fuel st entry w) = Ok st' ->
          1 <= length (filter Spec.is_write added)).
Proof.
  unfold Migration.migrate_spec. destruct entry as [old_id info].
  unfold FS.mbind, FS.lift, FS.ret.
  destruct (Paths.get_new_path st fuel old_id) as [new_path| |];
    try (exists []; split; [apply stepped_refl|split; [reflexivity|discriminate]]).
  destruct (FS.fault w (FS.clock w)) as [f0|] eqn:Hf0.
  { destruct (mkdir_fails (Paths.path_str new_path) w f0 Hf0) as (w1 & Hm & Hs1).
    rewrite Hm. exists []. split; [exact Hs1|split; [reflexivity|discriminate]]. }
  destruct (mkdir_ok (Paths.path_str new_path) w Hf0) as (w1 & Hm & Hs1). rewrite Hm.
  destruct (update_spec_content E st old_id) as [new_content| |];
    try (exists [FS.OpMkdir (Paths.path_str new_path)];
         split; [exact Hs1|split; [reflexivity|discriminate]]).
  destruct (FS.fault w1 (FS.clock w1)) as [f|] eqn:Hf.
  - destruct (write_text_fails (Paths.path_str (new_path ++ ["spec.md"])%list)
                new_content w1 f Hf) as (w2 & Hw & Hs2).
    rewrite Hw. eexists. cbn [fst snd].
    split; [exact (stepped_trans _ _ _ _ _ Hs1 Hs2)|].
    split; [cbn [app forallb Spec.creates]; apply cut_ops_create|discriminate].
  - destruct (write_text_ok (Paths.path_str (new_path ++ ["spec.md"])%list)
                new_content w1 Hf) as (w2 & Hw & Hs2).
    rewrite Hw.
    exists [FS.OpMkdir (Paths.path_str new_path);
            FS.OpWrite (Paths.path_str (new_path ++ ["spec.md"])%list) new_content].
    assert (Hs : Spec.stepped w w2
                   [FS.OpMkdir (Paths.path_str new_path);
                    FS.OpWrite (Paths.path_str (new_path ++ ["spec.md"])%list) new_content])
      by exact (stepped_trans _ _ _ _ _ Hs1 Hs2).
    destruct (Migration.new_id_of st old_id) as [new_id| |];
      try (split; [exact Hs|split; [reflexivity|discriminate]]).
    destruct (Migration.unique_id_of st old_id) as [unique_id| |];
      (split; [exact Hs|split; [reflexivity|cbn; intros; lia]]).
Qed.

Lemma migrate_context_any st file w :
  exists added,
    Spec.stepped w (snd (Migration.migrate_context fuel st file w)) added
    /\ forallb Spec.creates added = true
    /\ (forall st', fst (Migration.migrate_context fuel st file w) = Ok st' ->
          0 <= length (filter Spec.is_write added)).
Proof.
  unfold Migration.migrate_context. destruct file as [context_file content].
  assert (Hnone : forall r, exists added,
            Spec.stepped w (snd (FS.ret (A:=migrator) r w)) added
            /\ forallb Spec.creates added = true
            /\ (forall st', fst (FS.ret r w) = Ok st' ->
                  0 <= length (filter Spec.is_write added))).
  { intros r. exists []. split; [apply stepped_refl|split; [reflexivity|intros; lia]]. }
  destruct (Migration.context_id (FS.name context_file)) as [old_id|]; [|apply Hnone].
  destruct (Dict.mem old_id (spec_map st)); [|apply Hnone].
  unfold FS.mbind, FS.lift, FS.ret.
  destruct (Paths.get_new_path st fuel old_id) as [new_path| |];
    try (exists []; split; [apply stepped_refl|split; [reflexivity|intros; lia]]).
  destruct (FS.fault w (FS.clock w)) as [f0|] eqn:Hf0.
  { destruct (mkdir_fails (Paths.path_str new_path) w f0 Hf0) as (w1 & Hm & Hs1).
    rewrite Hm. exists []. split; [exact Hs1|split; [reflexivity|intros; lia]]. }
  destruct (mkdir_ok (Paths.path_str new_path) w Hf0) as (w1 & Hm & Hs1). rewrite Hm.
  destruct (FS.fault w1 (FS.clock w1)) as [f|] eqn:Hf.
  - destruct (write_text_fails (Paths.path_str (new_path ++ ["context.md"])%list)
                (Migration.rewrite_context (spec_map st) content) w1 f Hf)
      as (w2 & Hw & Hs2).
    rewrite Hw. eexists. cbn [fst snd].
    split; [exact (stepped_trans _ _ _ _ _ Hs1 Hs2)|].
    split; [cbn [app forallb Spec.creates]; apply cut_ops_create|intros; lia].
  - destruct (write_text_ok (Paths.path_str (new_path ++ ["context.md"])%list)
                (Migration.rewrite_context (spec_map st) content) w1 Hf)
      as (w2 & Hw & Hs2).
    rewrite Hw. eexists. cbn [fst snd].
    split; [exact (stepped_trans _ _ _ _ _ Hs1 Hs2)|]. split; [reflexivity|intros; lia].
Qed.

Lemma remove_old_any st entry w :
  exists added,
    Spec.stepped w (snd (Migration.remove_old st entry w)) added
    /\ forallb Spec.is_unlink added = true
    /\ (forall st', fst (Migration.remove_old st entry w) = Ok st' ->
          0 <= length (filter Spec.is_write added)).
Proof.
  unfold Migration.remove_old, FS.mbind, FS.exists_file, FS.ret.
  destruct (Dict.mem (file_path (snd entry)) (FS.files w)).
  - destruct (FS.fault w (FS.clock w)) as [f|] eqn:Hf.
    + destruct (unlink_fails (file_path (snd entry)) w f Hf) as (w1 & Hu & Hs).
      rewrite Hu. exists []. split; [exact Hs|split; [reflexivity|intros; lia]].
    + destruct (unlink_ok (file_path (snd entry)) w Hf) as (w1 & Hu & Hs).
      rewrite Hu. eexists. split; [exact Hs|split; [reflexivity|intros; lia]].
  - exists []. split; [apply stepped_refl|split; [reflexivity|intros; lia]].
Qed.

Lemma remove_loop_any entries st w :
  exists added,
    Spec.stepped w (snd (FS.for_each Migration.remove_old entries st w)) added
    /\ forallb Spec.is_unlink added = true.
Proof.
  destruct (for_each_stepped _ _ Migration.remove_old Spec.is_unlink 0
              remove_old_any entries st w) as (a & Hs & Hu & _).
  now exists a.
Qed.

(** The trace of [perform_migration]: first mutations that only add,
    then unlinks only; a completed run has written at least one file
    per loaded node. *)
Lemma perform_migration_trace st w :
  exists creates unlinks,
    Spec.stepped w (snd (Migration.perform_migration E fuel st w)) (creates ++ unlinks)
    /\ forallb Spec.creates creates = true
    /\ forallb Spec.is_unlink unlinks = true
    /\ match fst (Migration.perform_migration E fuel st w) with
       | Ok _ => length (specs_data st) <= length (filter Spec.is_write creates)
       | _ => True
       end.
Proof.
  unfold Migration.perform_migration, FS.mbind.
  destruct (for_each_stepped _ _ (Migration.migrate_spec E fuel) Spec.creates 1
              (migrate_spec_any) (specs_data st) st w) as (a & Hs1 & Hc1 & Hk1).
  destruct (FS.for_each (Migration.migrate_spec E fuel) (specs_data st) st w)
    as [[st1| |] w1]; cbn [fst snd] in *;
    try (exists a, []; rewrite List.app_nil_r;
         split; [exact Hs1|split; [exact Hc1|split; [reflexivity|exact I]]]).
  unfold Migration.migrate_context_files.
  destruct (for_each_stepped _ _ (Migration.migrate_context fuel) Spec.creates 0
              (migrate_context_any)
              (filter (fun f => Migration.is_context_file (fst f)) (FS.files w1)) st1 w1)
    as (b & Hs2 & Hc2 & _).
  destruct (FS.for_each (Migration.migrate_context fuel) _ st1 w1)
    as [[st2| |] w2]; cbn [fst snd] in *;
    try (exists (a ++ b)%list, []; rewrite List.app_nil_r;
         split; [exact (stepped_trans _ _ _ _ _ Hs1 Hs2)
                |split; [now rewrite forallb_app, Hc1, Hc2|split; [reflexivity|exact I]]]).
  destruct (remove_loop_any (specs_data st2) st2 w2) as (c & Hs3 & Hu).
  destruct (FS.for_each Migration.remove_old (specs_data st2) st2 w2) as [r w3].
  cbn [fst snd] in *.
  exists (a ++ b)%list, c. split.
  - exact (stepped_trans _ _ _ _ _ (stepped_trans _ _ _ _ _ Hs1 Hs2) Hs3).
  - split; [now rewrite forallb_app, Hc1, Hc2|]. split; [exact Hu|].
    destruct r; [|exact I|exact I].
    specialize (Hk1 st1 eq_refl). rewrite filter_app, List.length_app. lia.
Qed.

End LoopFacts.

(** ** A cycle of parents *)

Section CycleFacts.
Variable E : externals.
Variable fuel : nat.

Lemma for_each_app (A S : Type) (body : S -> A -> FS.M S) (xs ys : list A) :
  forall st w,
    FS.for_each body (xs ++ ys) st w
    = FS.mbind (FS.for_each body xs st) (FS.for_each body ys) w.
Proof.
  induction xs as [|x xs IH]; intros st w; [reflexivity|].
  cbn [app FS.for_each]. unfold FS.mbind in *.
  destruct (body st x w) as [[st1| |] w1]; [apply IH|reflexivity|reflexivity].
Qed.

(** The walk reads the two tables only, and a turn of the first loop
    changes neither. *)
Lemma walk_tables s st :
  spec_map s = spec_map st -> specs_data s = specs_data st ->
  forall n id h, Paths.walk s n id h = Paths.walk st n id h.
Proof.
  intros Hm Hd. induction n as [|n IH]; intros id h; [reflexivity|].
  cbn [Paths.walk]. rewrite Hm, Hd.
  destruct (String.eqb id ""); [reflexivity|].
  destruct (Dict.get id (spec_map st)); [|reflexivity].
  destruct (Dict.get id (specs_data st)) as [info|]; [|reflexivity].
  destruct (Py.truthy (Paths.parent_id (metadata info))); [|reflexivity].
  destruct (Py.as_key (Paths.parent_id (metadata info))) as [[k|]| |]; cbn [bind];
    try reflexivity.
  destruct (Dict.mem k (specs_data st)); [apply IH|reflexivity].
Qed.

Lemma migrate_spec_tables st entry w st' :
  fst (Migration.migrate_spec E fuel st entry w) = Ok st' ->
  (spec_map st', specs_data st') = (spec_map st, specs_data st).
Proof.
  unfold Migration.migrate_spec. destruct entry as [old_id info].
  unfold FS.mbind, FS.lift, FS.ret.
  destruct (Paths.get_new_path st fuel old_id); cbn [fst]; try discriminate.
  destruct (FS.mkdir _ w) as [[[]| |] w1]; cbn [fst]; try discriminate.
  destruct (update_spec_content E st old_id); cbn [fst]; try discriminate.
  destruct (FS.write_text _ _ _) as [[[]| |] w2]; cbn [fst]; try discriminate.
  destruct (Migration.new_id_of st old_id); cbn [fst]; try discriminate.
  destruct (Migration.unique_id_of st old_id); cbn [fst]; try discriminate.
  now intros [= <-].
Qed.

(** The first loop stops for good at a node whose walk does not end:
    what it has done by then is what it did for the nodes before. *)
Lemma first_loop_hangs st done old_id info rest w :
  Paths.get_new_path st fuel old_id = Diverge ->
  FS.for_each (Migration.migrate_spec E fuel) (done ++ (old_id, info) :: rest) st w
  = (match fst (FS.for_each (Migration.migrate_spec E fuel) done st w) with
     | Ok _ => Diverge
     | Raise e => Raise e
     | Diverge => Diverge
     end,
     snd (FS.for_each (Migration.migrate_spec E fuel) done st w)).
Proof.
  intros Hhang. rewrite for_each_app. unfold FS.mbind.
  pose proof (for_each_keeps _ _ _ (Migration.migrate_spec E fuel)
                (fun s => (spec_map s, specs_data s)) migrate_spec_tables done st w)
    as Hkeep.
  destruct (FS.for_each (Migration.migrate_spec E fuel) done st w) as [[st1| |] w1];
    cbn [fst snd] in *; try reflexivity.
  specialize (Hkeep st1 eq_refl). injection Hkeep as Hm Hd.
  cbn [FS.for_each]. unfold FS.mbind, Migration.migrate_spec, FS.lift.
  replace (Paths.get_new_path st1 fuel old_id) with (@Diverge Paths.path); [reflexivity|].
  rewrite <- Hhang. unfold Paths.get_new_path. rewrite Hd.
  now rewrite (walk_tables st1 st Hm Hd).
Qed.

End CycleFacts.

(** C4, amended: the walk of [get_new_path] ends (with a path or with an
    exception) whenever the parent links it follows contain no cycle,
    that is, some rank decreases along them.  When the node lies on a
    cycle of mapped nodes the walk never ends, whatever the fuel: the
    code has no cycle detection and reports no broken hierarchy, and
    [perform_migration], run with a mapping of literal patterns and
    templates, hangs at that node, having done for the nodes before it
    what it does for them and nothing for the node itself. *)
Theorem C4_walk_ends_iff_no_cycle (st : migrator) :
  (forall rank : string -> nat,
     (forall id p, Spec.parent_link st id = Some p -> rank p < rank id) ->
     forall old_id, Paths.get_new_path st (S (rank old_id)) old_id <> Diverge)
  /\ (forall on_cycle : string -> Prop,
        (forall id, on_cycle id ->
           id <> "" /\ (exists new_id, Dict.get id (spec_map st) = Some new_id)
           /\ exists p, Spec.parent_link st id = Some p /\ on_cycle p) ->
        forall old_id, on_cycle old_id ->
          (forall fuel, Paths.get_new_path st fuel old_id = Diverge)
          /\ (forall E fuel w done info rest,
                specs_data st = (done ++ (old_id, info) :: rest)%list ->
                Spec.literal_refs (spec_map st) = true ->
                Migration.perform_migration E fuel st w
                = (match fst (FS.for_each (Migration.migrate_spec E fuel) done st w) with
                   | Ok _ => Diverge
                   | Raise e => Raise e
                   | Diverge => Diverge
                   end,
                   snd (FS.for_each (Migration.migrate_spec E fuel) done st w)))).
Proof.
  split.
  - intros rank Hrank old_id. unfold Paths.get_new_path.
    destruct (Dict.get old_id (specs_data st)); [|discriminate].
    pose proof (@walk_ends st rank Hrank (rank old_id) old_id [] (le_n _)) as H.
    destruct (Paths.walk st (S (rank old_id)) old_id []); simpl; congruence.
  - intros on_cycle Hclosed old_id Hon.
    assert (Hhang : forall fuel, Paths.get_new_path st fuel old_id = Diverge).
    { intros fuel. unfold Paths.get_new_path.
      rewrite (@walk_loops st on_cycle Hclosed fuel old_id [] Hon).
      destruct (Hclosed old_id Hon) as (_ & _ & p & Hl & _).
      unfold Spec.parent_link in Hl.
      destruct (Dict.get old_id (specs_data st)); [reflexivity|discriminate]. }
    split; [exact Hhang|].
    intros E fuel w done info rest Hspecs _.
    unfold Migration.perform_migration, FS.mbind. rewrite Hspecs.
    rewrite (first_loop_hangs E fuel st done old_id info rest w (Hhang fuel)).
    destruct (fst (FS.for_each (Migration.migrate_spec E fuel) done st w)); reflexivity.
Qed.

Lemma C4_walk_ends_iff_no_cycle_witness :
  Paths.get_new_path Scenarios.two_epics 3 "31" <> Diverge
  /\ (forall fuel, Paths.get_new_path Scenarios.parent_cycle fuel "a" = Diverge)
  /\ Migration.perform_migration Reference.lib 7 Scenarios.parent_cycle (Reference.disk [])
     = (Diverge, Reference.disk []).
Proof.
  split.
  - apply (proj1 (C4_walk_ends_iff_no_cycle Scenarios.two_epics) (@String.length)).
    intros id p. unfold Spec.parent_link.
    destruct (String.eqb id "3") eqn:H3;
      [apply String.eqb_eq in H3; subst; vm_compute; discriminate|].
    destruct (String.eqb id "1") eqn:H1;
      [apply String.eqb_eq in H1; subst; vm_compute; discriminate|].
    destruct (String.eqb id "31") eqn:H31.
    { apply String.eqb_eq in H31. subst. vm_compute. intros [= <-]. repeat constructor. }
    destruct (String.eqb id "11") eqn:H11.
    { apply String.eqb_eq in H11. subst. vm_compute. intros [= <-]. repeat constructor. }
    replace (Dict.get id (specs_data Scenarios.two_epics)) with (@None spec_info);
      [discriminate|].
    change (specs_data Scenarios.two_epics) with
      (specs_data (mk_migrator [] [] (specs_data Scenarios.two_epics) [])).
    vm_compute specs_data. cbn [Dict.get]. now rewrite H3, H1, H31, H11.
  - assert (Hcycle : forall id, id = "a" \/ id = "b" ->
              id <> "" /\ (exists new_id, Dict.get id (spec_map Scenarios.parent_cycle) = Some new_id)
              /\ exists p, Spec.parent_link Scenarios.parent_cycle id = Some p
                           /\ (p = "a" \/ p = "b")).
    { intros id [-> | ->].
      - split; [discriminate|]. split; [exists "T99_a"; vm_compute; reflexivity|].
        exists "b". split; [vm_compute; reflexivity|now right].
      - split; [discriminate|]. split; [exists "T99_b"; vm_compute; reflexivity|].
        exists "a". split; [vm_compute; reflexivity|now left]. }
    destruct (proj2 (C4_walk_ends_iff_no_cycle Scenarios.parent_cycle)
                (fun id => id = "a" \/ id = "b") Hcycle "a" (or_introl eq_refl))
      as [Hwalk Hrun].
    split; [exact Hwalk|].
    exact (Hrun Reference.lib 7 (Reference.disk []) []
             (Scenarios.node "task" [("id", VStr "a"); ("parent", VStr "b")] "" "specs/a.md")
             [("b", Scenarios.node "task" [("id", VStr "b"); ("parent", VStr "a")] ""
                      "specs/b.md")]
             eq_refl eq_refl).
Defined.

Section WriteFailure.
Variable E : externals.
Variable fuel : nat.
Variable st : migrator.

Lemma plan_ops_create plans dir path content f :
  forallb Spec.creates
    (flat_map Spec.plan_ops plans ++ FS.OpMkdir dir :: Spec.cut_ops path content f)
  = true.
Proof.
  rewrite forallb_app. cbn [forallb Spec.creates]. rewrite cut_ops_create, andb_true_r.
  induction plans as [|p plans IH]; [reflexivity|exact IH].
Qed.

Lemma plan_ops_writes plans dir path content f p c :
  In (FS.OpWrite p c)
     (flat_map Spec.plan_ops plans ++ FS.OpMkdir dir :: Spec.cut_ops path content f) ->
  (exists pl, In pl plans /\ p = Spec.plan_path pl /\ c = Spec.plan_content pl)
  \/ (p = path /\ f <> FS.Refused).
Proof.
  intros Hin. apply in_app_or in Hin. destruct Hin as [Hin|[Hin|Hin]]; [| discriminate |].
  - left. apply in_flat_map in Hin.
    destruct Hin as (pl & Hpl & [Hin|[Hin|[]]]); [discriminate|].
    injection Hin as <- <-. now exists pl.
  - right. destruct f as [|k]; [destruct Hin|]. destruct Hin as [Hin|[]].
    injection Hin as <- _. split; [reflexivity|discriminate].
Qed.

(** The first loop when the computations and the operations of the
    first nodes succeed, the directory of the next node is made and the
    disk fails the write that follows. *)
Lemma first_loop_fails done plans :
  Forall2 (fun e p => Spec.planned E fuel st e = Ok p) done plans ->
  forall st' w failing rest plf f,
    (forall e, Spec.planned E fuel st' e = Spec.planned E fuel st e) ->
    Spec.planned E fuel st failing = Ok plf ->
    (forall i, i < 2 * length done + 1 -> FS.fault w (FS.clock w + i) = None) ->
    FS.fault w (FS.clock w + (2 * length done + 1)) = Some f ->
    exists w',
      FS.for_each (Migration.migrate_spec E fuel) (done ++ failing :: rest) st' w
      = (Raise OSError, w')
      /\ Spec.stepped w w'
           (flat_map Spec.plan_ops plans
            ++ FS.OpMkdir (Spec.plan_dir plf)
               :: Spec.cut_ops (Spec.plan_path plf) (Spec.plan_content plf) f).
Proof.
  induction 1 as [|e p done plans Hp _ IH];
    intros st' w failing rest plf f Hsame Hf Hok Hbad.
  - cbn [app flat_map FS.for_each length] in *.
    pose proof (Hok 0 ltac:(lia)) as H0. rewrite Nat.add_0_r in H0.
    replace (FS.clock w + (2 * 0 + 1)) with (S (FS.clock w)) in Hbad by lia.
    rewrite <- Hsame in Hf.
    destruct (proj2 (migrate_spec_planned E fuel st' failing plf w Hf H0) f Hbad)
      as (w' & Hm & Hs).
    exists w'. split; [|exact Hs]. unfold FS.mbind. now rewrite Hm.
  - cbn [app flat_map FS.for_each length] in *.
    pose proof (Hok 0 ltac:(lia)) as H0. rewrite Nat.add_0_r in H0.
    pose proof (Hok 1 ltac:(lia)) as H1. rewrite Nat.add_1_r in H1.
    rewrite <- Hsame in Hp.
    destruct (proj1 (migrate_spec_planned E fuel st' e p w Hp H0) H1)
      as (w1 & Hm & Hs & Hclock).
    pose proof Hs as (_ & Hfault & _ & _).
    destruct (IH (Migration.add_log (Spec.plan_log p) st') w1 failing rest plf f)
      as (w' & Hloop & Hs').
    + intros x. now rewrite planned_add_log.
    + exact Hf.
    + intros i Hi. rewrite Hfault, Hclock.
      replace (2 + FS.clock w + i) with (FS.clock w + (2 + i)) by lia.
      apply Hok. lia.
    + rewrite Hfault, Hclock.
      replace (2 + FS.clock w + (2 * length done + 1))
        with (FS.clock w + (2 * S (length done) + 1)) by lia.
      exact Hbad.
    + exists w'. split.
      * unfold FS.mbind. rewrite Hm. exact Hloop.
      * rewrite <- List.app_assoc. exact (stepped_trans _ _ _ _ _ Hs Hs').
Qed.

End WriteFailure.

(** C2, as stated, fails on a tree in which an original file lies at a
    new location: the file of the epic [2] is [specs/E01/spec.md], where
    the document of the epic [1] is written first; the write of the
    epic [2] then fails.  The run stops without any deletion, but the
    original tree is not untouched: the document of the epic [2] has
    been replaced by that of the epic [1]. *)
Lemma C2_original_overwritten_before_failure :
  let w := Scenarios.failing_disk Scenarios.overlapping_files 5 FS.Refused in
  let r := Migration.run Reference.lib 8 w in
  fst r = Raise OSError
  /\ Spec.summary (FS.ops (snd r))
     = [("copytree", "specs_backup_20250101_000000"); ("mkdir", "specs/E01");
        ("write", "specs/E01/spec.md"); ("mkdir", "specs/E02")]
  /\ Dict.get "specs/E01/spec.md" (FS.files w)
     = Some (Reference.doc ["id: 2"; "type: epic"] "Epic two")
  /\ Dict.get "specs/E01/spec.md" (FS.files (snd r))
     = Some (Codec.encode Reference.lib [("id", VStr "c4ca4238"); ("type", VStr "epic")]
             ++ "Epic one").
Proof. vm_compute. repeat split; reflexivity. Qed.

(** C2, amended: [perform_migration] performs all its writes before its
    first deletion.  If the mapping is one of literal patterns and
    templates, the computations of the nodes succeed, the
    operations of the first N-1 nodes succeed, the directory of the Nth
    is made and the write of the Nth node fails, the run stops with
    [OSError]; the mutations performed are exactly the directories and
    new-location files of the first N-1 nodes, the directory of the Nth
    and, when the write failed after its file was opened, the part of
    the Nth file it had written; no file has been deleted, every file
    whose path is none of those new locations is unchanged, and the
    first N-1 new-location files are present. *)
Theorem C2_writes_before_deletions (E : externals) (fuel : nat)
    (st : migrator) (w : FS.world) :
  (exists creates unlinks,
      Spec.stepped w (snd (Migration.perform_migration E fuel st w)) (creates ++ unlinks)
      /\ forallb Spec.creates creates = true
      /\ forallb Spec.is_unlink unlinks = true)
  /\ (forall done failing rest plans plf f,
        specs_data st = (done ++ failing :: rest)%list ->
        Spec.literal_refs (spec_map st) = true ->
        Forall2 (fun e p => Spec.planned E fuel st e = Ok p) done plans ->
        Spec.planned E fuel st failing = Ok plf ->
        (forall i, i < 2 * length done + 1 -> FS.fault w (FS.clock w + i) = None) ->
        FS.fault w (FS.clock w + (2 * length done + 1)) = Some f ->
        exists w',
          Migration.perform_migration E fuel st w = (Raise OSError, w')
          /\ FS.ops w'
             = (FS.ops w ++ flat_map Spec.plan_ops plans
                ++ FS.OpMkdir (Spec.plan_dir plf)
                   :: Spec.cut_ops (Spec.plan_path plf) (Spec.plan_content plf) f)%list
          /\ (forall p, Dict.mem p (FS.files w) = true ->
                Dict.mem p (FS.files w') = true)
          /\ (forall p, ~ In p (map Spec.plan_path plans) ->
                f = FS.Refused \/ p <> Spec.plan_path plf ->
                Dict.get p (FS.files w') = Dict.get p (FS.files w))
          /\ (forall pl, In pl plans ->
                Dict.mem (Spec.plan_path pl) (FS.files w') = true)).
Proof.
  split.
  { destruct (perform_migration_trace E fuel st w) as (a & b & Hs & Ha & Hb & _).
    now exists a, b. }
  intros done failing rest plans plf f Hspecs _ Hplans Hf Hok Hbad.
  destruct (first_loop_fails E fuel st done plans Hplans st w failing rest plf f
              (fun e => eq_refl) Hf Hok Hbad) as (w' & Hloop & Hs).
  exists w'. split.
  { unfold Migration.perform_migration, FS.mbind. rewrite Hspecs, Hloop. reflexivity. }
  destruct Hs as (Hops & _ & _ & Hfiles).
  pose proof (plan_ops_create plans (Spec.plan_dir plf) (Spec.plan_path plf)
                (Spec.plan_content plf) f) as Hc.
  split; [exact Hops|]. rewrite Hfiles. split; [|split].
  - intros p. now apply apply_creates_mem.
  - intros p Hp Hnot. apply apply_creates_get; [exact Hc|].
    intros c Hin. apply plan_ops_writes in Hin.
    destruct Hin as [(pl & Hpl & -> & _)|[-> Hcut]].
    + apply Hp. now apply in_map.
    + destruct Hnot as [->|Hne]; [now apply Hcut|now apply Hne].
  - intros pl Hpl.
    apply (apply_creates_written _ _ _ (Spec.plan_content pl) Hc).
    apply in_or_app. left. apply in_flat_map. exists pl. split; [exact Hpl|].
    right. now left.
Qed.

Lemma C2_writes_before_deletions_witness :
  let E := Reference.lib in
  let st := Scenarios.two_old_epics in
  let w := Scenarios.failing_disk Scenarios.two_old_epics_files 3 (FS.Cut 4) in
  let plan_of e :=
    match Spec.planned E 8 st e with
    | Ok p => p
    | _ => Spec.mk_plan "" "" "" (LogContext "" "")
    end in
  let first := ("1", Scenarios.node "epic" [("id", VInt 1); ("type", VStr "epic")]
                       "Epic one" "specs/1.md") in
  let second := ("2", Scenarios.node "epic" [("id", VInt 2); ("type", VStr "epic")]
                        "Epic two" "specs/2.md") in
  exists w',
    Migration.perform_migration E 8 st w = (Raise OSError, w')
    /\ FS.ops w'
       = (FS.ops w ++ flat_map Spec.plan_ops [plan_of first]
          ++ FS.OpMkdir (Spec.plan_dir (plan_of second))
             :: Spec.cut_ops (Spec.plan_path (plan_of second))
                  (Spec.plan_content (plan_of second)) (FS.Cut 4))%list
    /\ (forall p, Dict.mem p (FS.files w) = true -> Dict.mem p (FS.files w') = true)
    /\ (forall p, ~ In p (map Spec.plan_path [plan_of first]) ->
          FS.Cut 4 = FS.Refused \/ p <> Spec.plan_path (plan_of second) ->
          Dict.get p (FS.files w') = Dict.get p (FS.files w))
    /\ (forall pl, In pl [plan_of first] ->
          Dict.mem (Spec.plan_path pl) (FS.files w') = true).
Proof.
  intros E st w plan_of first second.
  apply (proj2 (C2_writes_before_deletions E 8 st w) [first] second [] [plan_of first]
           (plan_of second) (FS.Cut 4)).
  - vm_compute; reflexivity.
  - vm_compute; reflexivity.
  - constructor; [vm_compute; reflexivity|constructor].
  - vm_compute; reflexivity.
  - intros i Hi. cbn in Hi.
    destruct i as [|[|[|i]]]; [reflexivity|reflexivity|reflexivity|lia].
  - reflexivity.
Defined.

(** ** Running again *)

Lemma fix_one_passes E uuid4 n file w :
  Spec.passed_over E (snd file) = true ->
  FixIds.fix_one E uuid4 n file w = (Ok n, w).
Proof.
  unfold Spec.passed_over, FixIds.fix_one. destruct file as [spec_file content].
  cbn [snd].
  destruct (FixIds.parse_yaml_frontmatter E content) as [[md|v] body]; [|reflexivity].
  destruct (Dict.get "id" md) as [id|]; [|reflexivity].
  now intros ->.
Qed.

Lemma fix_loop_passes E uuid4 files : forall n w,
  forallb (fun f => Spec.passed_over E (snd f)) files = true ->
  FS.for_each (FixIds.fix_one E uuid4) files n w = (Ok n, w).
Proof.
  induction files as [|f files IH]; intros n w Hall; [reflexivity|].
  cbn in Hall. apply andb_true_iff in Hall. destruct Hall as [Hf Hall].
  cbn [FS.for_each]. unfold FS.mbind. rewrite (fix_one_passes E uuid4 n f w Hf).
  now apply IH.
Qed.

(** C3, as stated, fails: the second run of the migrator on the output
    of a first run loads the migrated epic under its unique id, writes
    its file again and then deletes that very file as the old one; the
    migrated document is gone. *)
Lemma C3_second_run_rewrites_and_deletes :
  let r := Migration.run (Reference.lib_at "20250102_000000") 8
             (Reference.disk Scenarios.after_first_run) in
  Dict.keys Scenarios.after_first_run
  = ["specs_backup_20250101_000000/1.md"; "specs/E01/spec.md";
     "migration_log.json"; "rollback_migration.sh"]
  /\ Spec.summary (FS.ops (snd r))
     = [("copytree", "specs_backup_20250102_000000"); ("mkdir", "specs/E01");
        ("write", "specs/E01/spec.md"); ("unlink", "specs/E01/spec.md");
        ("write", "migration_log.json"); ("write", "rollback_migration.sh");
        ("chmod", "rollback_migration.sh")]
  /\ Dict.mem "specs/E01/spec.md" (FS.files (snd r)) = false.
Proof. vm_compute. repeat split; reflexivity. Qed.

(** C3, amended: the migrator has no detection of identifiers that
    already conform: a [perform_migration] that completes has written
    at least one new-location file per loaded node, whatever the loaded
    ids look like, so a second run on the output of a first run mutates
    again.  Only [fix_spec_ids] detects migrated identifiers: on a tree
    where every [specs/**/spec.md] has an [id] of eight hexadecimal
    digits (or none) it writes nothing and leaves the filesystem as it
    is. *)
Theorem C3_no_detection_in_migrator (E : externals) (fuel : nat)
    (uuid4 : string -> string) (st : migrator) (w : FS.world) :
  (forall st' w', Migration.perform_migration E fuel st w = (Ok st', w') ->
     exists added,
       FS.ops w' = (FS.ops w ++ added)%list
       /\ length (specs_data st) <= length (filter Spec.is_write added))
  /\ (forallb (fun f => Spec.passed_over E (snd f))
        (filter (fun f => FixIds.is_spec_md (fst f)) (FS.files w)) = true ->
      FixIds.fix_spec_ids E uuid4 w = (Ok 0, w)).
Proof.
  split.
  - intros st' w' Hrun.
    destruct (perform_migration_trace E fuel st w) as (a & b & Hs & _ & _ & Hk).
    rewrite Hrun in Hs, Hk. cbn [fst snd] in *. destruct Hs as (Hops & _).
    exists (a ++ b)%list. split; [exact Hops|].
    rewrite filter_app, List.length_app. lia.
  - intros Hall. unfold FixIds.fix_spec_ids. now apply fix_loop_passes.
Qed.

Lemma C3_no_detection_in_migrator_witness :
  (exists added,
     FS.ops (snd (Migration.perform_migration Reference.lib 8 Scenarios.two_old_epics
                    (Reference.disk Scenarios.two_old_epics_files)))
     = ([] ++ added)%list
     /\ 2 <= length (filter Spec.is_write added))
  /\ FixIds.fix_spec_ids Reference.lib (fun _ => "0a0a0a0a")
       (Reference.disk Scenarios.after_first_run)
     = (Ok 0, Reference.disk Scenarios.after_first_run).
Proof.
  split.
  - destruct (Migration.perform_migration Reference.lib 8 Scenarios.two_old_epics
                (Reference.disk Scenarios.two_old_epics_files)) as [r w'] eqn:Hrun.
    assert (Hok : exists st', r = Ok st').
    { assert (H : fst (Migration.perform_migration Reference.lib 8 Scenarios.two_old_epics
                         (Reference.disk Scenarios.two_old_epics_files))
                  = Ok (match r with Ok s => s | _ => init end)).
      { rewrite Hrun. cbn [fst]. revert Hrun. vm_compute. now intros [= <- _]. }
      rewrite Hrun in H. cbn [fst] in H. eauto. }
    destruct Hok as [st' ->].
    exact (proj1 (C3_no_detection_in_migrator Reference.lib 8 (fun _ => "0a0a0a0a")
                    Scenarios.two_old_epics (Reference.disk Scenarios.two_old_epics_files))
             st' w' Hrun).
  - apply (proj2 (C3_no_detection_in_migrator Reference.lib 8 (fun _ => "0a0a0a0a")
                    Scenarios.two_old_epics (Reference.disk Scenarios.after_first_run))).
    vm_compute; reflexivity.
Defined.

(** ** The round trip of the codec *)

Section CodecFacts.

Lemma join_after (x : string) (l : list string) :
  PyStr.join Codec.nl (x :: l) = x ++ Spec.after_lines l.
Proof.
  revert x. induction l as [|y l IH]; intros x.
  - cbn. now rewrite str_app_nil_r.
  - change (PyStr.join Codec.nl (x :: y :: l)) with (x ++ Codec.nl ++ PyStr.join Codec.nl (y :: l)).
    rewrite IH. reflexivity.
Qed.

Lemma after_lines_app (a b : list string) :
  Spec.after_lines (a ++ b) = Spec.after_lines a ++ Spec.after_lines b.
Proof.
  induction a as [|x a IH]; [reflexivity|].
  cbn [Spec.after_lines app]. rewrite IH. now rewrite !str_app_assoc.
Qed.

Lemma take_app (a b : string) : PyStr.take (String.length a) (a ++ b) = a.
Proof. induction a as [|c a IH]; cbn; [now destruct b|now rewrite IH]. Qed.

Lemma drop_all (a : string) n : String.length a <= n -> PyStr.drop n a = "".
Proof.
  revert n. induction a as [|c a IH]; intros n H; destruct n; cbn in *; try reflexivity; try lia.
  apply IH. lia.
Qed.

Lemma startswith_head (p : string) c d s :
  c <> d -> PyStr.startswith (String c p) (String d s) = false.
Proof. intros H. unfold PyStr.startswith. cbn. now destruct (ascii_dec c d). Qed.

Lemma startswith_cons (p : string) c s :
  PyStr.startswith (String c p) (String c s) = PyStr.startswith p s.
Proof. unfold PyStr.startswith. cbn. now destruct (ascii_dec c c). Qed.

Lemma not_char_neq c a : Spec.not_char c a = true -> c <> a.
Proof.
  unfold Spec.not_char. intros H ->. now rewrite Ascii.eqb_refl in H.
Qed.

(** Searching [p], which starts with [c], through a text without [c]. *)
Lemma find_through (c : ascii) (p l rest : string) :
  PyStr.all_chars (Spec.not_char c) l = true ->
  PyStr.find (String c p) (l ++ rest)
  = option_map (Nat.add (String.length l)) (PyStr.find (String c p) rest).
Proof.
  induction l as [|a l IH]; intros Hl.
  - cbn [append String.length]. now destruct (PyStr.find (String c p) rest).
  - cbn in Hl. apply andb_true_iff in Hl. destruct Hl as [Ha Hl].
    cbn [append PyStr.find]. rewrite (startswith_head p c a (l ++ rest) (not_char_neq c a Ha)).
    rewrite (IH Hl). now destruct (PyStr.find (String c p) rest).
Qed.

Lemma closing_not_at_line (l r : string) :
  PyStr.all_chars (Spec.not_char Codec.nl_char) l = true ->
  String.eqb l "---" = false ->
  PyStr.startswith Codec.closing (Codec.nl ++ l ++ Codec.nl ++ r) = false.
Proof.
  intros Hl Hne.
  change Codec.closing with (String Codec.nl_char ("---" ++ Codec.nl)).
  change (Codec.nl ++ l ++ Codec.nl ++ r) with (String Codec.nl_char (l ++ Codec.nl ++ r)).
  rewrite startswith_cons.
  destruct (PyStr.startswith ("---" ++ Codec.nl) (l ++ Codec.nl ++ r)) eqn:Hp; [|reflexivity].
  exfalso.
  destruct (startswith_split _ _ Hp) as [t Ht].
  destruct l as [|a [|b [|c [|d l]]]]; cbn in Ht; try discriminate.
  - injection Ht as -> -> -> _. discriminate.
  - injection Ht as -> -> -> -> _. cbn in Hl. discriminate.
Qed.

Lemma find_closing_line (l r : string) :
  PyStr.all_chars (Spec.not_char Codec.nl_char) l = true ->
  String.eqb l "---" = false ->
  PyStr.find Codec.closing (Codec.nl ++ l ++ Codec.nl ++ r)
  = option_map (Nat.add (S (String.length l))) (PyStr.find Codec.closing (Codec.nl ++ r)).
Proof.
  intros Hl Hne.
  assert (H0 := closing_not_at_line l r Hl Hne).
  change (Codec.nl ++ l ++ Codec.nl ++ r) with (String Codec.nl_char (l ++ Codec.nl ++ r)) in *.
  cbn [PyStr.find]. rewrite H0.
  change Codec.closing with (String Codec.nl_char ("---" ++ Codec.nl)).
  rewrite (find_through Codec.nl_char _ l _ Hl).
  now destruct (PyStr.find _ (Codec.nl ++ r)).
Qed.

Lemma after_lines_nl (G : list string) (r : string) :
  exists t, Spec.after_lines G ++ Codec.nl ++ r = Codec.nl ++ t.
Proof.
  destruct G as [|g G]; cbn [Spec.after_lines].
  - now exists r.
  - exists (g ++ Spec.after_lines G ++ Codec.nl ++ r). now rewrite !str_app_assoc.
Qed.

Lemma find_closing (G : list string) :
  forallb Spec.plain_line G = true ->
  PyStr.find Codec.closing (Spec.after_lines G ++ Codec.closing)
  = Some (String.length (Spec.after_lines G)).
Proof.
  induction G as [|g G IH]; intros HG.
  - reflexivity.
  - cbn in HG. apply andb_true_iff in HG. destruct HG as [Hg HG].
    apply andb_true_iff in Hg. destruct Hg as [Hnl Hne].
    apply negb_true_iff in Hne.
    cbn [Spec.after_lines]. rewrite !str_app_assoc.
    destruct (after_lines_nl G ("---" ++ Codec.nl)) as [t Ht].
    change Codec.closing with (Codec.nl ++ "---" ++ Codec.nl) at 2.
    rewrite Ht, (find_closing_line g t Hnl Hne), <- Ht.
    change (Codec.nl ++ "---" ++ Codec.nl) with Codec.closing.
    rewrite (IH HG). cbn [option_map]. f_equal.
    rewrite !str_length_app. cbn. lia.
Qed.

Lemma split_plain (c : ascii) (l : string) :
  PyStr.all_chars (Spec.not_char c) l = true -> PyStr.split c l = [l].
Proof.
  induction l as [|a l IH]; intros H; [reflexivity|].
  cbn in H. apply andb_true_iff in H. destruct H as [Ha H].
  cbn [PyStr.split]. unfold Spec.not_char in Ha. apply negb_true_iff in Ha. rewrite Ha.
  now rewrite (IH H).
Qed.

Lemma split_app (c : ascii) (l r : string) :
  PyStr.all_chars (Spec.not_char c) l = true ->
  PyStr.split c (l ++ String c r) = l :: PyStr.split c r.
Proof.
  induction l as [|a l IH]; intros H.
  - cbn [append PyStr.split]. now rewrite Ascii.eqb_refl.
  - cbn in H. apply andb_true_iff in H. destruct H as [Ha H].
    cbn [append PyStr.split]. unfold Spec.not_char in Ha. apply negb_true_iff in Ha. rewrite Ha.
    now rewrite (IH H).
Qed.

Lemma split_parts (c : ascii) (s : string) :
  forallb (PyStr.all_chars (Spec.not_char c)) (PyStr.split c s) = true.
Proof.
  induction s as [|a s IH]; [reflexivity|].
  cbn [PyStr.split]. destruct (Ascii.eqb a c) eqn:Ha.
  - cbn. exact IH.
  - destruct (PyStr.split c s) as [|w ws]; cbn in *.
    + unfold Spec.not_char. now rewrite Ha.
    + unfold Spec.not_char at 1. now rewrite Ha.
Qed.

Lemma split_lines (g : string) (G : list string) :
  forallb (PyStr.all_chars (Spec.not_char Codec.nl_char)) (g :: G) = true ->
  PyStr.split Codec.nl_char (g ++ Spec.after_lines G) = g :: G.
Proof.
  revert g. induction G as [|h G IH]; intros g H.
  - cbn in H. rewrite andb_true_r in H. cbn [Spec.after_lines].
    rewrite str_app_nil_r. now apply split_plain.
  - cbn [forallb] in H. apply andb_true_iff in H. destruct H as [Hg H].
    cbn [Spec.after_lines].
    change (Codec.nl ++ h ++ Spec.after_lines G) with (String Codec.nl_char (h ++ Spec.after_lines G)).
    rewrite (split_app _ _ _ Hg). now rewrite (IH h H).
Qed.

Lemma clean_lines_app (a b : list string) :
  Codec.clean_lines (a ++ b) = (Codec.clean_lines a ++ Codec.clean_lines b)%list.
Proof.
  induction a as [|x a IH]; [reflexivity|].
  cbn [app Codec.clean_lines]. destruct (Codec.clean_line x); [|exact IH].
  cbn [app]. now rewrite IH.
Qed.

Lemma hash_free_chars (l : string) :
  PyStr.contains "#" l = false -> PyStr.all_chars (Spec.not_char Codec.hash_char) l = true.
Proof.
  unfold PyStr.contains. induction l as [|a l IH]; intros H; [reflexivity|].
  cbn [PyStr.find] in H. unfold PyStr.startswith in H. cbn [prefix] in H.
  destruct (ascii_dec "#" a) as [<-|Hne].
  - now destruct l.
  - cbn [PyStr.all_chars]. rewrite IH.
    + unfold Spec.not_char. rewrite andb_true_r. apply negb_true_iff.
      apply Ascii.eqb_neq. intros ->. now apply Hne.
    + destruct (PyStr.find "#" l); [discriminate|reflexivity].
Qed.

Lemma all_chars_lstrip p (s : string) :
  PyStr.all_chars p s = true -> PyStr.all_chars p (PyStr.lstrip s) = true.
Proof.
  induction s as [|c s IH]; intros H; [reflexivity|].
  cbn [PyStr.lstrip]. destruct (PyStr.is_space c); [|exact H].
  cbn in H. apply andb_true_iff in H. now apply IH.
Qed.

Lemma all_chars_rstrip p (s : string) :
  PyStr.all_chars p s = true -> PyStr.all_chars p (PyStr.rstrip s) = true.
Proof.
  induction s as [|c s IH]; intros H; [reflexivity|].
  cbn in H. apply andb_true_iff in H. destruct H as [Hc H].
  cbn [PyStr.rstrip]. specialize (IH H). destruct (PyStr.rstrip s).
  - destruct (PyStr.is_space c); cbn; [reflexivity|now rewrite Hc].
  - cbn [PyStr.all_chars] in *. now rewrite Hc, IH.
Qed.

Lemma startswith_absent (c : ascii) (p s : string) :
  PyStr.all_chars (Spec.not_char c) s = true -> PyStr.startswith (String c p) s = false.
Proof.
  destruct s as [|a s]; intros H; [reflexivity|].
  cbn in H. apply andb_true_iff in H. destruct H as [Ha _].
  apply startswith_head. now apply not_char_neq.
Qed.

Lemma clean_plain (l : string) :
  PyStr.contains "#" l = false -> Codec.clean_line l = Some l.
Proof.
  intros H. unfold Codec.clean_line. rewrite H.
  assert (H0 : PyStr.startswith "#" (PyStr.strip l) = false).
  { apply (startswith_absent Codec.hash_char "" (PyStr.strip l)).
    unfold PyStr.strip. apply all_chars_rstrip, all_chars_lstrip. now apply hash_free_chars. }
  now rewrite H0.
Qed.

Lemma contains_mid (p a b : string) : PyStr.contains p (a ++ p ++ b) = true.
Proof.
  unfold PyStr.contains. induction a as [|c a IH].
  - cbn [append]. destruct (p ++ b) eqn:E.
    + cbn [PyStr.find]. rewrite <- E, startswith_app. reflexivity.
    + cbn [PyStr.find]. rewrite <- E, startswith_app. reflexivity.
  - cbn [append PyStr.find]. destruct (PyStr.startswith p (String c (a ++ p ++ b))); [reflexivity|].
    now destruct (PyStr.find p (a ++ p ++ b)).
Qed.

(** A quote followed by [#] is not found where no [#] is. *)
Lemma find_pair (q d : ascii) (l t : string) :
  PyStr.all_chars (Spec.not_char Codec.hash_char) l = true ->
  d <> Codec.hash_char ->
  PyStr.find (String q "#") (l ++ String d t)
  = option_map (Nat.add (String.length l)) (PyStr.find (String q "#") (String d t)).
Proof.
  intros Hl Hd. remember (PyStr.find (String q "#") (String d t)) as f eqn:Hf.
  induction l as [|a l IH].
  - cbn [append String.length]. rewrite <- Hf. now destruct f.
  - cbn in Hl. apply andb_true_iff in Hl. destruct Hl as [Ha Hl].
    cbn [append PyStr.find].
    assert (H0 : PyStr.startswith (String q "#") (String a (l ++ String d t)) = false).
    { unfold PyStr.startswith. cbn [prefix]. destruct (ascii_dec q a); [|reflexivity].
      destruct l as [|b l]; cbn [append prefix].
      - destruct (ascii_dec "#" d) as [<-|]; [now elim Hd|reflexivity].
      - cbn in Hl. apply andb_true_iff in Hl. destruct Hl as [Hb _].
        destruct (ascii_dec "#" b) as [<-|]; [discriminate|reflexivity]. }
    rewrite H0, (IH Hl). now destruct f.
Qed.

Lemma rstrip_space (a : string) : PyStr.rstrip (a ++ " ") = PyStr.rstrip a.
Proof.
  induction a as [|c a IH]; [reflexivity|].
  cbn [append PyStr.rstrip]. now rewrite IH.
Qed.

Lemma clean_id (l : string) :
  PyStr.contains "#" l = false ->
  PyStr.startswith "id:" l = true ->
  Codec.clean_line (l ++ Spec.id_note) = Some (PyStr.rstrip l).
Proof.
  intros Hh Hid. apply hash_free_chars in Hh.
  unfold Codec.clean_line.
  assert (H1 : PyStr.startswith "#" (PyStr.strip (l ++ Spec.id_note)) = false).
  { destruct (startswith_split _ _ Hid) as [r ->].
    unfold PyStr.strip. cbn [append PyStr.lstrip].
    change (PyStr.is_space "i") with false. cbv iota.
    cbn [PyStr.rstrip]. now destruct (PyStr.rstrip _). }
  rewrite H1.
  assert (H2 : PyStr.contains "#" (l ++ Spec.id_note) = true).
  { change Spec.id_note with (" " ++ "#" ++ " Unique identifier (never changes)").
    rewrite <- str_app_assoc. apply contains_mid. }
  rewrite H2.
  unfold PyStr.contains.
  change Spec.id_note with (String " " "# Unique identifier (never changes)") at 1 2.
  change (Codec.dquote ++ "#") with (String (ascii_of_nat 34) "#").
  rewrite !(find_pair _ " " l _ Hh) by discriminate.
  cbn [orb option_map PyStr.find PyStr.startswith prefix ascii_dec]. 
  change (PyStr.find _ (String " " "# Unique identifier (never changes)")) with (@None nat).
  change (PyStr.find "'#" (String " " "# Unique identifier (never changes)")) with (@None nat).
  cbn [option_map orb].
  change Spec.id_note with (" " ++ String Codec.hash_char " Unique identifier (never changes)").
  rewrite <- str_app_assoc, split_app.
  - cbn [hd]. now rewrite rstrip_space.
  - rewrite all_chars_app, Hh. reflexivity.
Qed.

Lemma clean_cons (line : string) (rest : list string) :
  PyStr.contains "#" line = false ->
  Codec.clean_lines (line :: rest) = line :: Codec.clean_lines rest.
Proof. intros Hl. cbn [Codec.clean_lines]. now rewrite (clean_plain line Hl). Qed.

Lemma clean_banner (banner line : string) (rest : list string) :
  Codec.clean_line banner = None ->
  PyStr.contains "#" line = false ->
  Codec.clean_lines ("" :: banner :: line :: rest) = "" :: line :: Codec.clean_lines rest.
Proof.
  intros Hb Hl. rewrite (clean_cons "" _ eq_refl). cbn [Codec.clean_lines].
  now rewrite Hb, (clean_plain line Hl).
Qed.

(** What the comment filter leaves of the formatted lines. *)
Lemma clean_format (lines : list string) : forall current,
  forallb Spec.hash_free lines = true ->
  Codec.clean_lines (Codec.format_lines true current lines) = Spec.spaced current lines.
Proof.
  induction lines as [|line rest IH]; intros current H; [reflexivity|].
  cbn [forallb] in H. apply andb_true_iff in H. destruct H as [Hl H].
  unfold Spec.hash_free in Hl. apply negb_true_iff in Hl.
  cbn [Codec.format_lines Spec.spaced].
  unfold Codec.format_line, Spec.section_of. cbn [andb].
  destruct (PyStr.startswith "id:" line) eqn:Hid.
  { rewrite clean_lines_app. cbn [Codec.clean_lines].
    fold Spec.id_note. rewrite (clean_id line Hl Hid). cbn [app]. now rewrite (IH current H). }
  assert (Hin : forall section banner,
             Codec.clean_line banner = None ->
             Codec.clean_lines
               (let (current', out) := Codec.enter section banner line current in
                out ++ Codec.format_lines true current' rest)%list
             = if String.eqb current section then line :: Spec.spaced current rest
               else "" :: line :: Spec.spaced section rest).
  { intros section banner Hb. unfold Codec.enter.
    destruct (String.eqb current section); cbn [app].
    - now rewrite (clean_cons line _ Hl), (IH current H).
    - now rewrite (clean_banner banner line _ Hb Hl), (IH section H). }
  destruct (PyStr.startswith "parent:" line); [now apply Hin|].
  destruct (PyStr.startswith "status:" line); [now apply Hin|].
  destruct (PyStr.startswith "created:" line); [now apply Hin|].
  destruct (PyStr.startswith "dependencies:" line); [now apply Hin|].
  destruct (PyStr.startswith "pull_requests:" line); [now apply Hin|].
  destruct (PyStr.startswith "tags:" line); [now apply Hin|].
  cbn [app]. now rewrite (clean_cons line _ Hl), (IH current H).
Qed.

Lemma plain_format (lines : list string) : forall current,
  forallb Spec.plain_line lines = true ->
  forallb Spec.plain_line (Codec.format_lines true current lines) = true.
Proof.
  induction lines as [|line rest IH]; intros current H; [reflexivity|].
  cbn [forallb] in H. apply andb_true_iff in H. destruct H as [Hl H].
  cbn [Codec.format_lines].
  unfold Codec.format_line. cbn [andb].
  destruct (PyStr.startswith "id:" line) eqn:Hid.
  { cbn [app forallb]. rewrite (IH current H), andb_true_r.
    unfold Spec.plain_line in *. apply andb_true_iff in Hl. destruct Hl as [Hn _].
    rewrite all_chars_app, Hn.
    destruct (startswith_split _ _ Hid) as [r ->]. reflexivity. }
  assert (Hin : forall section banner,
             Spec.plain_line banner = true ->
             forallb Spec.plain_line
               (let (current', out) := Codec.enter section banner line current in
                out ++ Codec.format_lines true current' rest)%list = true).
  { intros section banner Hb. unfold Codec.enter.
    destruct (String.eqb current section); cbn [app forallb].
    - now rewrite Hl, (IH current H).
    - now rewrite Hb, Hl, (IH section H). }
  destruct (PyStr.startswith "parent:" line); [now apply Hin|].
  destruct (PyStr.startswith "status:" line); [now apply Hin|].
  destruct (PyStr.startswith "created:" line); [now apply Hin|].
  destruct (PyStr.startswith "dependencies:" line); [now apply Hin|].
  destruct (PyStr.startswith "pull_requests:" line); [now apply Hin|].
  destruct (PyStr.startswith "tags:" line); [now apply Hin|].
  cbn [app forallb]. now rewrite Hl, (IH current H).
Qed.

Lemma plain_lines (lines : list string) :
  forallb Spec.plain_line lines = true ->
  forallb (PyStr.all_chars (Spec.not_char Codec.nl_char)) lines = true.
Proof.
  induction lines as [|l lines IH]; intros H; [reflexivity|].
  cbn [forallb] in *. apply andb_true_iff in H. destruct H as [Hl H].
  unfold Spec.plain_line in Hl. apply andb_true_iff in Hl. destruct Hl as [Hl _].
  now rewrite Hl, (IH H).
Qed.

Lemma split_plain_lines (s : string) :
  forallb (fun l => negb (String.eqb l "---")) (PyStr.split Codec.nl_char s) = true ->
  forallb Spec.plain_line (PyStr.split Codec.nl_char s) = true.
Proof.
  intros H. assert (Hp := split_parts Codec.nl_char s).
  revert H Hp. generalize (PyStr.split Codec.nl_char s) as lines.
  induction lines as [|l lines IH]; intros H Hp; [reflexivity|].
  cbn [forallb] in *. apply andb_true_iff in H. destruct H as [Hl H].
  apply andb_true_iff in Hp. destruct Hp as [Hn Hp].
  unfold Spec.plain_line at 1. now rewrite Hn, Hl, (IH H Hp).
Qed.

Lemma forallb_app' (A : Type) (p : A -> bool) (a b : list A) :
  forallb p a = true -> forallb p b = true -> forallb p (a ++ b) = true.
Proof. intros Ha Hb. now rewrite forallb_app, Ha, Hb. Qed.

Lemma encode_shape (E : externals) (md : Dict.t value) :
  Codec.encode E md
  = "---" ++ Spec.after_lines
               (Spec.banners ++ Codec.format_lines true "identification"
                             (PyStr.split Codec.nl_char (yaml_dump E md)))
    ++ Codec.closing.
Proof.
  unfold Codec.encode, Codec.formatted_yaml.
  change Codec.header with ("---" :: Spec.banners). cbn [app].
  rewrite join_after, List.app_assoc, after_lines_app, !str_app_assoc.
  reflexivity.
Qed.

(** The decoder on an encoded mapping, when the dumped lines hold no
    [#] and none of them is the delimiter. *)
Lemma decode_encode (E : externals) (md : Dict.t value) :
  let lines := PyStr.split Codec.nl_char (yaml_dump E md) in
  forallb Spec.hash_free lines = true ->
  forallb (fun l => negb (String.eqb l "---")) lines = true ->
  yaml_safe_load E (PyStr.join Codec.nl ("" :: "" :: Spec.spaced "identification" lines))
  <> LoadError ->
  Codec.parse_yaml_frontmatter E (Codec.encode E md)
  = (Codec.or_empty
       (yaml_safe_load E
          (PyStr.join Codec.nl ("" :: "" :: Spec.spaced "identification" lines))),
     "").
Proof.
  intros lines Hh Hd Hload.
  assert (Hp : forallb Spec.plain_line
                 (Spec.banners ++ Codec.format_lines true "identification" lines) = true).
  { apply forallb_app'; [reflexivity|]. apply plain_format. now apply split_plain_lines. }
  unfold Codec.parse_yaml_frontmatter. rewrite encode_shape. fold lines.
  set (G := (Spec.banners ++ Codec.format_lines true "identification" lines)%list) in *.
  rewrite startswith_app. cbn [negb].
  change (PyStr.drop 3 ("---" ++ Spec.after_lines G ++ Codec.closing))
    with (Spec.after_lines G ++ Codec.closing).
  rewrite (find_closing G Hp), take_app.
  rewrite (drop_all (Spec.after_lines G ++ Codec.closing))
    by (rewrite str_length_app; cbn; lia).
  change (Spec.after_lines G) with ("" ++ Spec.after_lines G).
  rewrite (split_lines "" G) by (cbn [forallb]; now rewrite (plain_lines G Hp)).
  unfold G. change ("" :: Spec.banners ++ ?x)%list with (("" :: Spec.banners) ++ x)%list.
  rewrite clean_lines_app, (clean_format lines "identification" Hh).
  change (Codec.clean_lines ("" :: Spec.banners)) with ["" ; ""]. cbn [app].
  destruct (yaml_safe_load E _); [reflexivity|reflexivity|now elim Hload].
Qed.

End CodecFacts.

(** C5, as stated, fails: the YAML library reads its own dump of the
    mapping back, but the decoder cuts the dumped line [title: a#b] at
    the [#] before the library sees it. *)
Lemma C5_hash_in_value_is_cut :
  let m := [("id", VStr "abc"); ("title", VStr "a#b")] in
  Reference.safe_load (Reference.dump m) = LoadMap m
  /\ Codec.parse_yaml_frontmatter Reference.lib (Codec.encode Reference.lib m)
     = (FMap [("id", VStr "abc"); ("title", VStr "a")], "").
Proof. vm_compute. split; reflexivity. Qed.

(** C5, amended: decoding the encoded form of a mapping [m] returns
    [m] with an empty body when no line of the YAML dump of [m] holds a
    [#], none of them is the delimiter [---], and the YAML library reads
    [m] back from the dumped lines with an empty line before the first
    line of each section and the [id] line without trailing
    whitespace. *)
Theorem C5_decode_encode_without_hash (E : externals) (md : Dict.t value) :
  let lines := PyStr.split Codec.nl_char (yaml_dump E md) in
  forallb Spec.hash_free lines = true ->
  forallb (fun l => negb (String.eqb l "---")) lines = true ->
  yaml_safe_load E (PyStr.join Codec.nl ("" :: "" :: Spec.spaced "identification" lines))
  = LoadMap md ->
  Codec.parse_yaml_frontmatter E (Codec.encode E md) = (FMap md, "").
Proof.
  intros lines Hh Hd Hload.
  rewrite (decode_encode E md Hh Hd); fold lines; rewrite Hload; [reflexivity|discriminate].
Qed.

Lemma C5_decode_encode_without_hash_witness :
  let m := [("id", VStr "c4ca4238"); ("title", VStr "Broker"); ("type", VStr "feature");
            ("parent", VStr "E01"); ("status", VStr "draft"); ("priority", VInt 2);
            ("dependencies", VList [VStr "F01"; VStr "F02"]); ("tags", VList [])] in
  Codec.parse_yaml_frontmatter Reference.lib (Codec.encode Reference.lib m) = (FMap m, "").
Proof.
  intros m. apply (C5_decode_encode_without_hash Reference.lib m); vm_compute; reflexivity.
Defined.

(** ** The identifier mapping *)

Section CounterFacts.

Lemma counter_of_str_nat (n : nat) : Spec.counter_of (PyStr.str_nat n) = Some n.
Proof.
  unfold Spec.counter_of, PyStr.str_nat. rewrite NilEmpty.usu. cbn [option_map].
  now rewrite Unsigned.of_to.
Qed.

Lemma counter_of_zero (s : string) :
  Spec.counter_of (String "0" s) = Spec.counter_of s.
Proof.
  unfold Spec.counter_of. cbn [NilEmpty.uint_of_string].
  destruct (NilEmpty.uint_of_string s) as [d|]; reflexivity.
Qed.

Lemma counter_of_fmt (n : nat) : Spec.counter_of (PyStr.fmt_02d n) = Some n.
Proof.
  unfold PyStr.fmt_02d. destruct (String.length (PyStr.str_nat n) <? 2)%nat.
  - change ("0" ++ PyStr.str_nat n) with (String "0" (PyStr.str_nat n)).
    now rewrite counter_of_zero, counter_of_str_nat.
  - apply counter_of_str_nat.
Qed.

Lemma fmt_02d_inj (a b : nat) : PyStr.fmt_02d a = PyStr.fmt_02d b -> a = b.
Proof.
  intros H. assert (Ha := counter_of_fmt a). rewrite H, counter_of_fmt in Ha. congruence.
Qed.

Lemma digits_of_uint (d : Decimal.uint) :
  PyStr.all_chars PyStr.is_digit (NilEmpty.string_of_uint d) = true.
Proof. induction d; cbn [NilEmpty.string_of_uint PyStr.all_chars]; [reflexivity|exact IHd ..]. Qed.

Lemma fmt_02d_digits (n : nat) : PyStr.all_chars PyStr.is_digit (PyStr.fmt_02d n) = true.
Proof.
  unfold PyStr.fmt_02d, PyStr.str_nat.
  destruct (String.length _ <? 2)%nat; [cbn [append PyStr.all_chars]|]; apply digits_of_uint.
Qed.

Lemma str_app_inv_head (a b c : string) : a ++ b = a ++ c -> b = c.
Proof. induction a as [|x a IH]; cbn; intros H; [exact H|]. injection H as H. now apply IH. Qed.

Lemma type_prefix_length (t : value) (p : string) :
  Hierarchy.type_prefix t = Ok p -> String.length p = 1.
Proof.
  unfold Hierarchy.type_prefix. destruct t as [| | |s|]; cbn; try (intros [= <-]; reflexivity); try discriminate.
  unfold TYPE_PREFIXES. cbn [Dict.get].
  repeat match goal with
         | |- context [String.eqb s ?k] => destruct (String.eqb s k)
         end; intros [= <-]; reflexivity.
Qed.

End CounterFacts.

Section GroupFacts.

Lemma grouped_nil : Spec.grouped [] (Hierarchy.mk_groups [] [] [] []).
Proof.
  intros l p ms x Hm Hin. destruct l; cbn in Hm; try discriminate.
  destruct (String.eqb p ""); [|discriminate]. injection Hm as <-. destruct Hin.
Qed.

Lemma group_add_get (p x : string) (tbl : Dict.t (list string)) (p' y : string)
    (ms : list string) :
  Dict.get p' (Hierarchy.group_add p x tbl) = Some ms -> In y ms ->
  (p' = p /\ y = x) \/ (exists ms0, Dict.get p' tbl = Some ms0 /\ In y ms0).
Proof.
  unfold Hierarchy.group_add. intros Hg Hin.
  destruct (Dict.get p tbl) as [l0|] eqn:Hp; rewrite get_set in Hg;
    destruct (String.eqb p' p) eqn:He.
  - apply String.eqb_eq in He. subst p'. injection Hg as <-.
    apply in_app_or in Hin. destruct Hin as [Hin|[<-|[]]]; [right; eauto|left; auto].
  - right; eauto.
  - apply String.eqb_eq in He. subst p'. injection Hg as <-.
    destruct Hin as [<-|[]]. left; auto.
  - right; eauto.
Qed.

Lemma grouped_more (a b : Dict.t spec_info) (g : Hierarchy.groups) :
  Spec.grouped a g -> Spec.grouped (a ++ b)%list g.
Proof.
  intros H l p ms x Hm Hin. destruct (H l p ms x Hm Hin) as (info & Hi & Hs).
  exists info. split; [apply in_or_app; now left|exact Hs].
Qed.

Lemma grouped_step (done : Dict.t spec_info) (g : Hierarchy.groups)
    (entry : string * spec_info) :
  Spec.grouped done g -> Spec.grouped (done ++ [entry])%list (Hierarchy.group_one g entry).
Proof.
  intros H. destruct entry as [old_id info].
  assert (Hold := grouped_more done [(old_id, info)] g H).
  assert (Hnew : In (old_id, info) (done ++ [(old_id, info)])%list).
  { apply in_or_app. right. now left. }
  unfold Hierarchy.group_one.
  destruct (Py.eq_str (type info) "epic") eqn:T1.
  { intros l p ms x Hm Hin. destruct l; cbn [Spec.members Hierarchy.epics
      Hierarchy.features_by_parent Hierarchy.tasks_by_parent Hierarchy.subtasks_by_parent] in Hm;
      try (apply (Hold _ p ms x); [exact Hm|exact Hin]).
    destruct (String.eqb p "") eqn:Hp; [|discriminate]. apply String.eqb_eq in Hp. subst p.
    injection Hm as <-. rewrite keys_set in Hin.
    assert (Hcase : In x (Dict.keys (Hierarchy.epics g)) \/ x = old_id).
    { destruct (Dict.mem old_id (Hierarchy.epics g)); [now left|].
      apply in_app_or in Hin. destruct Hin as [Hin|[<-|[]]]; auto. }
    destruct Hcase as [Hk| ->].
    - apply (Hold Spec.Epic "" (Dict.keys (Hierarchy.epics g)) x); [reflexivity|exact Hk].
    - exists info. split; [exact Hnew|]. unfold Spec.scope. now rewrite T1. }
  destruct (Py.eq_str (type info) "feature") eqn:T2.
  { intros l p ms x Hm Hin. destruct l; cbn [Spec.members Hierarchy.epics
      Hierarchy.features_by_parent Hierarchy.tasks_by_parent Hierarchy.subtasks_by_parent] in Hm;
      try (apply (Hold _ p ms x); [exact Hm|exact Hin]).
    destruct (group_add_get _ _ _ _ _ _ Hm Hin) as [[-> ->]|(ms0 & Hg0 & Hin0)].
    - exists info. split; [exact Hnew|]. unfold Spec.scope. now rewrite T1, T2.
    - apply (Hold Spec.Feature p ms0 x); [exact Hg0|exact Hin0]. }
  destruct (Py.eq_str (type info) "task") eqn:T3.
  { intros l p ms x Hm Hin. destruct l; cbn [Spec.members Hierarchy.epics
      Hierarchy.features_by_parent Hierarchy.tasks_by_parent Hierarchy.subtasks_by_parent] in Hm;
      try (apply (Hold _ p ms x); [exact Hm|exact Hin]).
    destruct (group_add_get _ _ _ _ _ _ Hm Hin) as [[-> ->]|(ms0 & Hg0 & Hin0)].
    - exists info. split; [exact Hnew|]. unfold Spec.scope. now rewrite T1, T2, T3.
    - apply (Hold Spec.Task p ms0 x); [exact Hg0|exact Hin0]. }
  destruct (Py.eq_str (type info) "subtask") eqn:T4.
  { intros l p ms x Hm Hin. destruct l; cbn [Spec.members Hierarchy.epics
      Hierarchy.features_by_parent Hierarchy.tasks_by_parent Hierarchy.subtasks_by_parent] in Hm;
      try (apply (Hold _ p ms x); [exact Hm|exact Hin]).
    destruct (group_add_get _ _ _ _ _ _ Hm Hin) as [[-> ->]|(ms0 & Hg0 & Hin0)].
    - exists info. split; [exact Hnew|]. unfold Spec.scope. now rewrite T1, T2, T3, T4.
    - apply (Hold Spec.Subtask p ms0 x); [exact Hg0|exact Hin0]. }
  exact Hold.
Qed.

Lemma grouped_fold (specs : Dict.t spec_info) : forall done g,
  Spec.grouped done g ->
  Spec.grouped (done ++ specs)%list (fold_left Hierarchy.group_one specs g).
Proof.
  induction specs as [|e specs IH]; intros done g H.
  - now rewrite List.app_nil_r.
  - cbn [fold_left].
    replace (done ++ e :: specs)%list with ((done ++ [e]) ++ specs)%list
      by now rewrite <- List.app_assoc.
    apply IH. now apply grouped_step.
Qed.

(** The members of a scope are loaded nodes of that scope. *)
Lemma group_specs_sound (specs : Dict.t spec_info) :
  NoDup (Dict.keys specs) ->
  forall l p ms old_id,
    Spec.members (Hierarchy.group_specs specs) l p = Some ms -> In old_id ms ->
    exists info, Dict.get old_id specs = Some info /\ Spec.scope info = Some (l, p).
Proof.
  intros Hnd l p ms x Hm Hin.
  destruct (grouped_fold specs [] _ grouped_nil l p ms x Hm Hin) as (info & Hi & Hs).
  exists info. split; [|exact Hs]. now apply in_get_nodup.
Qed.

End GroupFacts.

Section NumberingFacts.
Variable specs : Dict.t spec_info.
Hypothesis specs_nodup : NoDup (Dict.keys specs).

Lemma all_assigned_set (m : Dict.t string) (old_id new_id : string) :
  Spec.assigned specs old_id new_id ->
  Spec.all_assigned specs m ->
  Spec.all_assigned specs (Dict.set old_id new_id m).
Proof.
  intros Ha Hm k v Hg. rewrite get_set in Hg.
  destruct (String.eqb k old_id) eqn:He.
  - apply String.eqb_eq in He. subst k. now injection Hg as <-.
  - now apply Hm.
Qed.

Lemma number_loop_keeps (P : Dict.t string -> Prop) (prefix : string)
    (inner : string -> Dict.t string -> Dict.t string) (all : list string) :
  (forall id m, P m -> P (inner id m)) ->
  (forall k id m, nth_error all k = Some id -> P m ->
     P (Dict.set id (prefix ++ PyStr.fmt_02d (S k)) m)) ->
  forall rest done m,
    all = (done ++ rest)%list -> P m ->
    P (Spec.number_loop prefix inner rest (S (length done)) m).
Proof.
  intros Hinner Hset. induction rest as [|id rest IH]; intros done m Hall Hm.
  - exact Hm.
  - cbn [Spec.number_loop].
    replace (S (S (length done))) with (S (length (done ++ [id])%list))
      by (rewrite List.length_app; cbn; lia).
    apply IH.
    + now rewrite <- List.app_assoc.
    + apply Hinner, Hset; [|exact Hm].
      rewrite Hall, nth_error_app2 by lia. now rewrite Nat.sub_diag.
Qed.

Lemma numbered_member (l : Spec.level) (p : string) (ms : list string) (k : nat)
    (old_id : string) :
  Spec.members (Hierarchy.group_specs specs) l p = Some ms ->
  nth_error (Spec.sorted ms) k = Some old_id ->
  Spec.assigned specs old_id (Spec.letter l ++ PyStr.fmt_02d (S k)).
Proof.
  intros Hm Hk.
  assert (Hin : In old_id ms).
  { apply (Permutation_in old_id (Permutation_sym (sorted_perm ms))).
    now apply nth_error_In with k. }
  destruct (group_specs_sound specs specs_nodup l p ms old_id Hm Hin) as (info & Hi & Hs).
  exists info. split; [exact Hi|]. left. exists l, p, ms, k. auto.
Qed.

Lemma number_children_keeps (l : Spec.level) (by_parent : Dict.t (list string))
    (inner : string -> Dict.t string -> Dict.t string) :
  (forall p, Dict.get p by_parent = Spec.members (Hierarchy.group_specs specs) l p) ->
  (forall id m, Spec.all_assigned specs m -> Spec.all_assigned specs (inner id m)) ->
  forall parent m,
    Spec.all_assigned specs m ->
    Spec.all_assigned specs
      (Spec.number_children by_parent (Spec.letter l) inner parent m).
Proof.
  intros Htbl Hinner parent m Hm. unfold Spec.number_children.
  destruct (Dict.get parent by_parent) as [ms|] eqn:Hg; [|exact Hm].
  rewrite Htbl in Hg.
  apply (number_loop_keeps (Spec.all_assigned specs) (Spec.letter l) inner
           (Spec.sorted ms) Hinner) with (done := []); [|reflexivity|exact Hm].
  intros k id m0 Hk Hm0. apply all_assigned_set; [|exact Hm0].
  now apply numbered_member with (p := parent) (ms := ms).
Qed.

Lemma assign_epics_keeps (m : Dict.t string) :
  Spec.all_assigned specs m ->
  Spec.all_assigned specs (Spec.assign_epics (Hierarchy.group_specs specs) m).
Proof.
  intros Hm. unfold Spec.assign_epics.
  set (g := Hierarchy.group_specs specs).
  apply (number_loop_keeps (Spec.all_assigned specs) "E" (Spec.assign_features g)
           (Spec.sorted (Dict.keys (Hierarchy.epics g)))) with (done := []);
    [| |reflexivity|exact Hm].
  - apply (number_children_keeps Spec.Feature); [reflexivity|].
    apply (number_children_keeps Spec.Task); [reflexivity|].
    apply (number_children_keeps Spec.Subtask); [reflexivity|].
    intros id m0 H0. exact H0.
  - intros k id m0 Hk Hm0. apply all_assigned_set; [|exact Hm0].
    now apply (numbered_member Spec.Epic "" (Dict.keys (Hierarchy.epics g))).
Qed.

End NumberingFacts.

Section OrphanFacts.
Variable specs : Dict.t spec_info.
Hypothesis specs_nodup : NoDup (Dict.keys specs).

Lemma type_prefix_ok (t : value) :
  Spec.hashable t = true -> exists p, Hierarchy.type_prefix t = Ok p.
Proof.
  unfold Spec.hashable, Hierarchy.type_prefix.
  destruct t; cbn; intros H; try discriminate; eauto.
Qed.

Lemma mem_set_same (m : Dict.t string) (k v : string) :
  Dict.mem k (Dict.set k v m) = true.
Proof. unfold Dict.mem. now rewrite get_set, String.eqb_refl. Qed.

Lemma mem_set_keeps (m : Dict.t string) (k k' v : string) :
  Dict.mem k' m = true -> Dict.mem k' (Dict.set k v m) = true.
Proof.
  unfold Dict.mem. rewrite get_set. now destruct (String.eqb k' k).
Qed.

Lemma assign_orphans_ok (rest : Dict.t spec_info) : forall m,
  incl rest specs ->
  forallb (fun e => Spec.hashable (type (snd e))) rest = true ->
  Spec.all_assigned specs m ->
  exists m',
    Hierarchy.assign_orphans rest m = Ok m'
    /\ Spec.all_assigned specs m'
    /\ (forall id, In id (Dict.keys rest) -> Dict.mem id m' = true)
    /\ (forall id, Dict.mem id m = true -> Dict.mem id m' = true).
Proof.
  induction rest as [|[old_id info] rest IH]; intros m Hincl Hh Hm.
  - exists m. cbn. repeat split; auto; intros id [].
  - cbn [forallb snd] in Hh. apply andb_true_iff in Hh. destruct Hh as [Hi Hh].
    assert (Hincl' : incl rest specs) by (intros e He; apply Hincl; now right).
    cbn [Hierarchy.assign_orphans].
    destruct (Dict.mem old_id m) eqn:Hmem.
    + destruct (IH m Hincl' Hh Hm) as (m' & Hrun & Ha & Hk & Hp).
      exists m'. repeat split; auto.
      intros id [<-|Hin]; [now apply Hp|now apply Hk].
    + destruct (type_prefix_ok (type info) Hi) as [prefix Hpre]. rewrite Hpre. cbn [bind].
      assert (Hset : Spec.all_assigned specs
                       (Dict.set old_id (prefix ++ "99_" ++ old_id) m)).
      { apply all_assigned_set; [|exact Hm]. exists info. split.
        - apply in_get_nodup; [exact specs_nodup|]. apply Hincl. now left.
        - right. exists prefix. auto. }
      destruct (IH _ Hincl' Hh Hset) as (m' & Hrun & Ha & Hk & Hp).
      exists m'. repeat split; auto.
      * intros id [<-|Hin]; [apply Hp, mem_set_same|now apply Hk].
      * intros id Hid. now apply Hp, mem_set_keeps.
Qed.

Lemma numbered_not_orphan (l : Spec.level) (k : nat) (prefix old_id : string) :
  String.length prefix = 1 ->
  Spec.letter l ++ PyStr.fmt_02d (S k) <> prefix ++ "99_" ++ old_id.
Proof.
  intros Hlen H. destruct prefix as [|c [|c' r]]; cbn in Hlen; try discriminate.
  assert (H' : PyStr.fmt_02d (S k) = "99_" ++ old_id) by (destruct l; now injection H).
  assert (D := fmt_02d_digits (S k)). rewrite H' in D. vm_compute in D. discriminate.
Qed.

(** Two assignments of one new id within a scope are assignments to one
    node. *)
Lemma assigned_in_scope (id1 id2 : string) (i1 i2 : spec_info) (new_id : string) :
  Dict.get id1 specs = Some i1 -> Dict.get id2 specs = Some i2 ->
  Spec.scope i1 = Spec.scope i2 ->
  Spec.assigned specs id1 new_id -> Spec.assigned specs id2 new_id ->
  id1 = id2.
Proof.
  intros G1 G2 Hs (j1 & J1 & A1) (j2 & J2 & A2).
  rewrite G1 in J1. injection J1 as <-. rewrite G2 in J2. injection J2 as <-.
  destruct A1 as [(l1 & p1 & ms1 & k1 & S1 & M1 & N1 & V1)|(q1 & Q1 & V1)];
    destruct A2 as [(l2 & p2 & ms2 & k2 & S2 & M2 & N2 & V2)|(q2 & Q2 & V2)].
  - rewrite S1, S2 in Hs. injection Hs as <- <-.
    rewrite M1 in M2. injection M2 as <-.
    rewrite V1 in V2. apply str_app_inv_head, fmt_02d_inj in V2. injection V2 as <-.
    congruence.
  - exfalso. rewrite V1 in V2.
    exact (numbered_not_orphan l1 k1 q2 id2 (type_prefix_length _ _ Q2) V2).
  - exfalso. rewrite V2 in V1.
    exact (numbered_not_orphan l2 k2 q1 id1 (type_prefix_length _ _ Q1) V1).
  - rewrite V1 in V2.
    assert (L1 := type_prefix_length _ _ Q1). assert (L2 := type_prefix_length _ _ Q2).
    destruct q1 as [|c1 [|? ?]]; cbn in L1; try discriminate.
    destruct q2 as [|c2 [|? ?]]; cbn in L2; try discriminate.
    now injection V2.
Qed.

End OrphanFacts.

(** ** The numbering and its sort keys

    The loops of [build_hierarchy_map] compute a sort key for every id
    they number.  When no key raises they compute the numbering of
    [Spec.assign_epics]; and no key raises on ids that are ASCII strings
    short enough for [int]. *)

Section NumberingFacts.

Lemma all_chars_weaken (p q : ascii -> bool) (s : string) :
  (forall c, p c = true -> q c = true) ->
  PyStr.all_chars p s = true -> PyStr.all_chars q s = true.
Proof.
  intros Hpq. induction s as [|c s IH]; cbn; [reflexivity|].
  intros H. apply andb_true_iff in H. destruct H as [Hc Hs].
  now rewrite (Hpq c Hc), (IH Hs).
Qed.

Lemma all_chars_both (p q : ascii -> bool) (s : string) :
  PyStr.all_chars p s = true -> PyStr.all_chars q s = true ->
  PyStr.all_chars (fun c => p c && q c) s = true.
Proof.
  induction s as [|c s IH]; cbn; [reflexivity|].
  intros H1 H2. apply andb_true_iff in H1. apply andb_true_iff in H2.
  destruct H1 as [-> H1], H2 as [-> H2]. now rewrite (IH H1 H2).
Qed.

Lemma digit_is_digit_like (c : ascii) :
  PyStr.is_digit c = true -> PyStr.is_digit_like c = true.
Proof. unfold PyStr.is_digit_like. now intros ->. Qed.

Lemma ascii_digit_like (c : ascii) :
  PyStr.is_digit_like c && PyStr.is_ascii c = true -> PyStr.is_digit c = true.
Proof.
  unfold PyStr.is_digit_like, PyStr.is_digit, PyStr.is_ascii, PyStr.char_in.
  cbv zeta. generalize (nat_of_ascii c). intros n.
  destruct (Nat.ltb_spec n 128) as [Hlt|Hge]; [|now rewrite andb_false_r].
  rewrite andb_true_r.
  replace (178 <=? n)%nat with false by (symmetry; apply Nat.leb_gt; lia).
  replace (185 <=? n)%nat with false by (symmetry; apply Nat.leb_gt; lia).
  cbn [andb]. now rewrite !orb_false_r.
Qed.

(** A sort key that is computed is the numeric key. *)
Lemma sort_key_pure (x : string) (k : Z) :
  Hierarchy.sort_key x = Ok k -> k = Spec.key x.
Proof.
  unfold Hierarchy.sort_key, Spec.key, Spec.decimal, PyStr.isdigit, Py.int.
  destruct x as [|c x]; [now intros [= <-]|].
  destruct (PyStr.all_chars PyStr.is_digit_like (String c x)) eqn:Hl.
  - destruct (PyStr.all_chars PyStr.is_digit (String c x)); cbn [andb]; [|discriminate].
    destruct (_ <=? _)%nat; [now intros [= <-]|discriminate].
  - intros [= <-].
    destruct (PyStr.all_chars PyStr.is_digit (String c x)) eqn:Hd; [|reflexivity].
    apply (all_chars_weaken _ _ _ digit_is_digit_like) in Hd. congruence.
Qed.

(** On a plain id the sort key is computed. *)
Lemma sort_key_plain (x : string) :
  Spec.plain_id x = true -> Hierarchy.sort_key x = Ok (Spec.key x).
Proof.
  unfold Spec.plain_id, PyStr.isascii. intros H.
  apply andb_true_iff in H. destruct H as [Ha Hlen].
  unfold Hierarchy.sort_key, Spec.key, Spec.decimal, PyStr.isdigit, Py.int.
  destruct x as [|c x]; [reflexivity|].
  destruct (PyStr.all_chars PyStr.is_digit_like (String c x)) eqn:Hl.
  - assert (Hd : PyStr.all_chars PyStr.is_digit (String c x) = true).
    { apply (all_chars_weaken _ _ _ ascii_digit_like).
      now apply all_chars_both. }
    now rewrite Hd, Hlen.
  - destruct (PyStr.all_chars PyStr.is_digit (String c x)) eqn:Hd; [|reflexivity].
    apply (all_chars_weaken _ _ _ digit_is_digit_like) in Hd. congruence.
Qed.

Lemma keyed_pure (l : list string) : forall kl,
  Hierarchy.keyed l = Ok kl -> kl = Spec.with_keys l.
Proof.
  induction l as [|x l IH]; cbn [Hierarchy.keyed]; intros kl H.
  - now injection H as <-.
  - destruct (Hierarchy.sort_key x) as [k| |] eqn:Hk; cbn [bind] in H; try discriminate.
    destruct (Hierarchy.keyed l) as [rest| |]; cbn [bind] in H; try discriminate.
    injection H as <-. apply sort_key_pure in Hk. subst k.
    now rewrite (IH rest eq_refl).
Qed.

Lemma keyed_plain (l : list string) :
  Forall (fun x => Spec.plain_id x = true) l ->
  Hierarchy.keyed l = Ok (Spec.with_keys l).
Proof.
  induction 1 as [|x l Hx _ IH]; cbn [Hierarchy.keyed]; [reflexivity|].
  now rewrite (sort_key_plain _ Hx), IH.
Qed.

Lemma insert_with_key (x : string) (l : list string) :
  Hierarchy.insert_by_key (Spec.key x, x) (Spec.with_keys l)
  = Spec.with_keys (Spec.insert_by_key x l).
Proof.
  unfold Spec.with_keys.
  induction l as [|y l IH]; cbn [Spec.insert_by_key map Hierarchy.insert_by_key fst];
    [reflexivity|].
  destruct (Spec.key x <=? Spec.key y)%Z; cbn [map]; [reflexivity|].
  now rewrite IH.
Qed.

Lemma sort_with_keys (l : list string) :
  fold_right Hierarchy.insert_by_key [] (Spec.with_keys l) = Spec.with_keys (Spec.sorted l).
Proof.
  induction l as [|x l IH]; [reflexivity|].
  change (Spec.with_keys (x :: l)) with ((Spec.key x, x) :: Spec.with_keys l).
  cbn [fold_right Spec.sorted]. rewrite IH. apply insert_with_key.
Qed.

Lemma snd_with_keys (l : list string) : map snd (Spec.with_keys l) = l.
Proof.
  unfold Spec.with_keys. rewrite map_map. cbn. apply map_id.
Qed.

Lemma sorted_pure (l r : list string) :
  Hierarchy.sorted l = Ok r -> r = Spec.sorted l.
Proof.
  unfold Hierarchy.sorted. intros H.
  destruct (Hierarchy.keyed l) as [kl| |] eqn:Hk; cbn [bind] in H; try discriminate.
  injection H as <-. apply keyed_pure in Hk. subst kl.
  now rewrite sort_with_keys, snd_with_keys.
Qed.

Lemma sorted_plain (l : list string) :
  Forall (fun x => Spec.plain_id x = true) l ->
  Hierarchy.sorted l = Ok (Spec.sorted l).
Proof.
  intros H. unfold Hierarchy.sorted. rewrite (keyed_plain l H). cbn [bind].
  now rewrite sort_with_keys, snd_with_keys.
Qed.

Section Loops.
Variable inner_py : string -> Dict.t string -> outcome (Dict.t string).
Variable inner : string -> Dict.t string -> Dict.t string.
Variable prefix : string.

Lemma number_loop_pure :
  (forall id m r, inner_py id m = Ok r -> r = inner id m) ->
  forall ids counter m r,
    Hierarchy.number_loop prefix inner_py ids counter m = Ok r ->
    r = Spec.number_loop prefix inner ids counter m.
Proof.
  intros Hin. induction ids as [|id ids IH]; cbn [Hierarchy.number_loop Spec.number_loop];
    intros counter m r H.
  - now injection H as <-.
  - destruct (inner_py id _) as [m1| |] eqn:H1; cbn [bind] in H; try discriminate.
    apply Hin in H1. subst m1. now apply IH.
Qed.

Lemma number_loop_total :
  (forall id m, inner_py id m = Ok (inner id m)) ->
  forall ids counter m,
    Hierarchy.number_loop prefix inner_py ids counter m
    = Ok (Spec.number_loop prefix inner ids counter m).
Proof.
  intros Hin. induction ids as [|id ids IH]; cbn [Hierarchy.number_loop Spec.number_loop];
    intros counter m; [reflexivity|].
  rewrite Hin. cbn [bind]. apply IH.
Qed.

Variable by_parent : Dict.t (list string).

Lemma number_children_pure :
  (forall id m r, inner_py id m = Ok r -> r = inner id m) ->
  forall parent m r,
    Hierarchy.number_children by_parent prefix inner_py parent m = Ok r ->
    r = Spec.number_children by_parent prefix inner parent m.
Proof.
  intros Hin parent m r. unfold Hierarchy.number_children, Spec.number_children.
  destruct (Dict.get parent by_parent) as [ms|]; [|now intros [= <-]].
  destruct (Hierarchy.sorted ms) as [ids| |] eqn:Hs; cbn [bind]; try discriminate.
  apply sorted_pure in Hs. subst ids. now apply number_loop_pure.
Qed.

Lemma number_children_total :
  (forall p ms, Dict.get p by_parent = Some ms ->
                Forall (fun x => Spec.plain_id x = true) ms) ->
  (forall id m, inner_py id m = Ok (inner id m)) ->
  forall parent m,
    Hierarchy.number_children by_parent prefix inner_py parent m
    = Ok (Spec.number_children by_parent prefix inner parent m).
Proof.
  intros Hpl Hin parent m. unfold Hierarchy.number_children, Spec.number_children.
  destruct (Dict.get parent by_parent) as [ms|] eqn:Hg; [|reflexivity].
  rewrite (sorted_plain _ (Hpl _ _ Hg)). cbn [bind]. now apply number_loop_total.
Qed.

End Loops.

Lemma assign_epics_pure (g : Hierarchy.groups) (m r : Dict.t string) :
  Hierarchy.assign_epics g m = Ok r -> r = Spec.assign_epics g m.
Proof.
  unfold Hierarchy.assign_epics, Spec.assign_epics. intros H.
  destruct (Hierarchy.sorted _) as [ids| |] eqn:Hs; cbn [bind] in H; try discriminate.
  apply sorted_pure in Hs. subst ids. revert H. apply number_loop_pure.
  apply number_children_pure. apply number_children_pure. apply number_children_pure.
  now intros id m0 r0 [= <-].
Qed.

Lemma assign_epics_total (g : Hierarchy.groups) (m : Dict.t string) :
  Spec.plain_groups g ->
  Hierarchy.assign_epics g m = Ok (Spec.assign_epics g m).
Proof.
  intros Hg. unfold Hierarchy.assign_epics, Spec.assign_epics.
  rewrite (sorted_plain _ (Hg Spec.Epic "" _ eq_refl)). cbn [bind].
  apply number_loop_total.
  apply number_children_total; [exact (Hg Spec.Feature)|].
  apply number_children_total; [exact (Hg Spec.Task)|].
  apply number_children_total; [exact (Hg Spec.Subtask)|].
  reflexivity.
Qed.

Lemma group_specs_plain (specs : Dict.t spec_info) :
  NoDup (Dict.keys specs) -> Spec.plain_ids specs = true ->
  Spec.plain_groups (Hierarchy.group_specs specs).
Proof.
  intros Hnd Hpl l p ms Hm. apply Forall_forall. intros x Hx.
  destruct (group_specs_sound specs Hnd l p ms x Hm Hx) as (info & Hi & _).
  apply get_in in Hi. unfold Spec.plain_ids in Hpl.
  rewrite forallb_forall in Hpl. exact (Hpl _ Hi).
Qed.

(** What a run of [build_hierarchy_map] that returns has computed. *)
Lemma build_pure (st st' : migrator) :
  Hierarchy.build_hierarchy_map st = Ok st' ->
  Hierarchy.assign_orphans (specs_data st)
    (Spec.assign_epics (Hierarchy.group_specs (specs_data st)) (spec_map st))
  = Ok (spec_map st')
  /\ st' = set_spec_map (spec_map st') st.
Proof.
  unfold Hierarchy.build_hierarchy_map. cbv zeta. intros H.
  destruct (Hierarchy.assign_epics _ _) as [m| |] eqn:He; cbn [bind] in H; try discriminate.
  apply assign_epics_pure in He. subst m.
  destruct (Hierarchy.assign_orphans _ _) as [m'| |]; cbn [bind] in H; try discriminate.
  injection H as <-. now split.
Qed.

(** On plain ids [build_hierarchy_map] is that computation. *)
Lemma build_plain (st : migrator) :
  NoDup (Dict.keys (specs_data st)) -> Spec.plain_ids (specs_data st) = true ->
  Hierarchy.build_hierarchy_map st
  = (m' <- Hierarchy.assign_orphans (specs_data st)
             (Spec.assign_epics (Hierarchy.group_specs (specs_data st)) (spec_map st)) ;;
     Ok (set_spec_map m' st)).
Proof.
  intros Hnd Hpl. unfold Hierarchy.build_hierarchy_map. cbv zeta.
  now rewrite (assign_epics_total _ (spec_map st) (group_specs_plain _ Hnd Hpl)).
Qed.

End NumberingFacts.

(** C1, as stated, fails: the counters start again under every parent,
    so the feature [11] of the epic [1] and the feature [31] of the epic
    [3] both receive [F01]. *)
Lemma C1_features_of_two_epics_collide :
  let st := mk_migrator [] [] (specs_data Scenarios.two_epics) [] in
  Dict.keys (specs_data st) = ["3"; "1"; "31"; "11"]
  /\ Hierarchy.build_hierarchy_map st = Ok Scenarios.two_epics
  /\ Dict.get "11" (spec_map Scenarios.two_epics) = Some "F01"
  /\ Dict.get "31" (spec_map Scenarios.two_epics) = Some "F01".
Proof. vm_compute. repeat split; reflexivity. Qed.

(** C1, amended: on a loaded table none of whose types is a list and
    whose ids are ASCII strings that [int] converts when they are
    numbers, [build_hierarchy_map] returns, its mapping gives every
    loaded old id a new id, and two loaded nodes of one scope (the
    epics; the nodes of one level under one parent key; the nodes of no
    level) that receive the same new id are the same node. *)
Theorem C1_total_and_injective_in_scope (st : migrator) :
  NoDup (Dict.keys (specs_data st)) ->
  spec_map st = [] ->
  forallb (fun e => Spec.hashable (type (snd e))) (specs_data st) = true ->
  Spec.plain_ids (specs_data st) = true ->
  exists st',
    Hierarchy.build_hierarchy_map st = Ok st'
    /\ (forall old_id, In old_id (Dict.keys (specs_data st)) ->
          exists new_id, Dict.get old_id (spec_map st') = Some new_id)
    /\ (forall id1 id2 i1 i2 new_id,
          Dict.get id1 (specs_data st) = Some i1 ->
          Dict.get id2 (specs_data st) = Some i2 ->
          Spec.scope i1 = Spec.scope i2 ->
          Dict.get id1 (spec_map st') = Some new_id ->
          Dict.get id2 (spec_map st') = Some new_id ->
          id1 = id2).
Proof.
  intros Hnd Hempty Hh Hpl.
  assert (H0 : Spec.all_assigned (specs_data st)
                 (Spec.assign_epics (Hierarchy.group_specs (specs_data st))
                    (spec_map st))).
  { apply assign_epics_keeps; [exact Hnd|]. rewrite Hempty. intros k v Hk. discriminate. }
  destruct (assign_orphans_ok (specs_data st) Hnd (specs_data st) _
              (incl_refl _) Hh H0) as (m' & Hrun & Ha & Hk & _).
  exists (set_spec_map m' st). rewrite (build_plain st Hnd Hpl).
  rewrite Hrun. cbn [bind set_spec_map spec_map]. split; [reflexivity|]. split.
  - intros old_id Hin. apply mem_get. now apply Hk.
  - intros id1 id2 i1 i2 new_id G1 G2 Hs M1 M2.
    apply (assigned_in_scope (specs_data st) id1 id2 i1 i2 new_id G1 G2 Hs);
      now apply Ha.
Qed.

Lemma C1_total_and_injective_in_scope_witness :
  let st := mk_migrator [] [] (specs_data Scenarios.two_epics) [] in
  exists st',
    Hierarchy.build_hierarchy_map st = Ok st'
    /\ (forall old_id, In old_id (Dict.keys (specs_data st)) ->
          exists new_id, Dict.get old_id (spec_map st') = Some new_id)
    /\ (forall id1 id2 i1 i2 new_id,
          Dict.get id1 (specs_data st) = Some i1 ->
          Dict.get id2 (specs_data st) = Some i2 ->
          Spec.scope i1 = Spec.scope i2 ->
          Dict.get id1 (spec_map st') = Some new_id ->
          Dict.get id2 (spec_map st') = Some new_id ->
          id1 = id2).
Proof.
  intros st.
  apply (C1_total_and_injective_in_scope st); [|reflexivity|reflexivity|reflexivity].
  vm_compute. repeat constructor; cbn; intuition discriminate.
Defined.

(** ** The shape of the new paths *)

Section PlainPaths.

(** A part that is one component is its own component and has no
    root. *)
Lemma plain_component (part : string) :
  Paths.plain part = true ->
  Paths.components part = [part] /\ PyStr.startswith "/" part = false.
Proof.
  unfold Paths.plain. intros H.
  apply andb_true_iff in H. destruct H as [H Hall].
  apply andb_true_iff in H. destruct H as [H _].
  apply andb_true_iff in H. destruct H as [Hne Hdot].
  split.
  - unfold Paths.components. rewrite (split_plain Paths.slash part Hall).
    cbn [filter]. now rewrite Hne, Hdot.
  - destruct part as [|c part]; [reflexivity|].
    cbn [PyStr.all_chars] in Hall. apply andb_true_iff in Hall. destruct Hall as [Hc _].
    apply negb_true_iff in Hc. unfold PyStr.startswith. cbn [String.prefix].
    destruct (ascii_dec "/"%char c) as [<-|_]; [|reflexivity].
    discriminate.
Qed.

Lemma normal_plain (parts : Paths.path) : forall root cs,
  Forall (fun part => Paths.plain part = true) parts ->
  fold_left Paths.add_part parts (root, cs) = (root, (cs ++ parts)%list).
Proof.
  induction parts as [|part parts IH]; intros root cs Hall.
  - now rewrite List.app_nil_r.
  - inversion Hall as [|x xs Hpart Hrest]. subst x xs.
    destruct (plain_component part Hpart) as [Hc Hr].
    cbn [fold_left]. unfold Paths.add_part at 2. rewrite Hr, Hc. cbn [fst snd].
    rewrite (IH root (cs ++ [part])%list Hrest), <- List.app_assoc. reflexivity.
Qed.

(** The path of parts that are each one component is their join. *)
Lemma path_str_plain (parts : Paths.path) :
  parts <> [] ->
  Forall (fun part => Paths.plain part = true) parts ->
  Paths.path_str parts = PyStr.join "/" parts.
Proof.
  intros Hne Hall. unfold Paths.path_str, Paths.normal.
  rewrite (normal_plain parts "" [] Hall). cbn [app].
  destruct parts; [now elim Hne|reflexivity].
Qed.

End PlainPaths.

Section PathFacts.
Variable st : migrator.


Lemma walk_shape : forall fuel id h r,
  Paths.walk st fuel id h = Ok r ->
  exists pre,
    r = (pre ++ h)%list
    /\ Forall (Spec.in_range (spec_map st)) pre
    /\ (id <> "" ->
        exists pre' n, Dict.get id (spec_map st) = Some n /\ pre = (pre' ++ [n])%list).
Proof.
  induction fuel as [|fuel IH]; intros id h r; cbn [Paths.walk]; [discriminate|].
  destruct (String.eqb id "") eqn:Hid.
  { intros [= <-]. exists []. repeat split; [constructor|].
    apply String.eqb_eq in Hid. intros Hne. now elim Hne. }
  destruct (Dict.get id (spec_map st)) as [n|] eqn:Hn; [|discriminate].
  assert (Hone : forall r0, Ok (n :: h) = Ok r0 ->
            exists pre, r0 = (pre ++ h)%list
              /\ Forall (Spec.in_range (spec_map st)) pre
              /\ (id <> "" -> exists pre' n0,
                    Some n = Some n0 /\ pre = (pre' ++ [n0])%list)).
  { intros r0 [= <-]. exists [n]. repeat split.
    - constructor; [now exists id|constructor].
    - intros _. now exists [], n. }
  destruct (Dict.get id (specs_data st)) as [info|]; [|discriminate].
  destruct (Py.truthy (Paths.parent_id (metadata info))); [|apply Hone].
  destruct (Py.as_key (Paths.parent_id (metadata info))) as [[parent|]| |];
    cbn [bind]; try discriminate; [|apply Hone].
  destruct (Dict.mem parent (specs_data st)); [|apply Hone].
  intros H. destruct (IH parent (n :: h) r H) as (pre & -> & Hall & _).
  exists (pre ++ [n])%list. split; [now rewrite <- List.app_assoc|]. split.
  - apply Forall_app. split; [exact Hall|]. constructor; [now exists id|constructor].
  - intros _. now exists pre, n.
Qed.

End PathFacts.



(** X2: when every new id of the mapping is one component of a path
    (not empty, not [.] or [..], without [/]), the new path of a node
    is [specs] followed by new ids of the mapping, one directory each,
    the last one being the node's own new id unless its id is the empty
    string; the file [spec.md] written for the node lies under
    [specs]. *)
Theorem X2_path_of_new_ids (st : migrator) (fuel : nat) (old_id : string)
    (p : Paths.path) :
  forallb (fun e => Paths.plain (snd e)) (spec_map st) = true ->
  Paths.get_new_path st fuel old_id = Ok p ->
  exists ids,
    Paths.path_str p = PyStr.join "/" ("specs" :: ids)
    /\ Forall (Spec.in_range (spec_map st)) ids
    /\ (old_id <> "" ->
        exists ancestors new_id,
          Dict.get old_id (spec_map st) = Some new_id
          /\ ids = (ancestors ++ [new_id])%list)
    /\ FS.under "specs" (Paths.path_str (p ++ ["spec.md"])%list) = true.
Proof.
  intros Hplain. unfold Paths.get_new_path.
  destruct (Dict.get old_id (specs_data st)); [|discriminate].
  destruct (Paths.walk st fuel old_id []) as [r| |] eqn:Hw; cbn [bind]; try discriminate.
  intros [= <-]. destruct (walk_shape st fuel old_id [] r Hw) as (pre & -> & Hall & Hlast).
  rewrite List.app_nil_r.
  assert (Hparts : Forall (fun part => Paths.plain part = true) pre).
  { rewrite Forall_forall in *. intros new_id Hin.
    destruct (Hall new_id Hin) as [old Hold]. apply get_in in Hold.
    rewrite forallb_forall in Hplain. exact (Hplain (old, new_id) Hold). }
  exists pre. split; [|split; [exact Hall|split; [exact Hlast|]]].
  - apply path_str_plain; [discriminate|]. now constructor.
  - rewrite path_str_plain.
    + cbn [app]. destruct (pre ++ ["spec.md"])%list as [|x xs] eqn:He;
        [destruct pre; discriminate|].
      change (PyStr.join "/" ("specs" :: x :: xs))
        with ("specs" ++ "/" ++ PyStr.join "/" (x :: xs)).
      unfold FS.under. rewrite <- str_app_assoc. apply startswith_app.
    + discriminate.
    + constructor; [reflexivity|]. apply Forall_app. split; [exact Hparts|].
      now constructor.
Qed.

Lemma X2_path_of_new_ids_witness :
  exists ids,
    Paths.path_str ["specs"; "E02"; "F01"] = PyStr.join "/" ("specs" :: ids)
    /\ Forall (Spec.in_range (spec_map Scenarios.two_epics)) ids
    /\ ("31" <> "" ->
        exists ancestors new_id,
          Dict.get "31" (spec_map Scenarios.two_epics) = Some new_id
          /\ ids = (ancestors ++ [new_id])%list)
    /\ FS.under "specs" (Paths.path_str (["specs"; "E02"; "F01"] ++ ["spec.md"])%list) = true.
Proof.
  apply (X2_path_of_new_ids Scenarios.two_epics 3 "31"); reflexivity.
Defined.

(** ** The new ids, node by node *)

Section ScopeFacts.

Lemma level_eqb_eq (a b : Spec.level) : Spec.level_eqb a b = true <-> a = b.
Proof. destruct a, b; cbn; split; intros H; try reflexivity; discriminate. Qed.

Lemma in_scope_iff (l : Spec.level) (p : string) (info : spec_info) :
  Spec.in_scope l p info = true <-> Spec.scope info = Some (l, p).
Proof.
  unfold Spec.in_scope. destruct (Spec.scope info) as [[l' p']|].
  - rewrite andb_true_iff, level_eqb_eq, String.eqb_eq. split.
    + now intros [-> ->].
    + now intros [= -> ->].
  - split; discriminate.
Qed.

Lemma scope_ids_app (a b : Dict.t spec_info) (l : Spec.level) (p : string) :
  Spec.scope_ids (a ++ b)%list l p = (Spec.scope_ids a l p ++ Spec.scope_ids b l p)%list.
Proof. unfold Spec.scope_ids. now rewrite filter_app, map_app. Qed.

Lemma scope_ids_one (id : string) (info : spec_info) (l : Spec.level) (p : string) :
  Spec.scope_ids [(id, info)] l p = if Spec.in_scope l p info then [id] else [].
Proof. unfold Spec.scope_ids. cbn. now destruct (Spec.in_scope l p info). Qed.

Lemma scope_ids_in (specs : Dict.t spec_info) (l : Spec.level) (p id : string) :
  In id (Spec.scope_ids specs l p) <->
  exists info, In (id, info) specs /\ Spec.scope info = Some (l, p).
Proof.
  unfold Spec.scope_ids. rewrite in_map_iff. split.
  - intros ([id' info] & Hid & Hin). cbn in Hid. subst id'.
    apply filter_In in Hin. destruct Hin as [Hin Hs]. cbn in Hs.
    exists info. split; [exact Hin|]. now apply in_scope_iff.
  - intros (info & Hin & Hs). exists (id, info). split; [reflexivity|].
    apply filter_In. split; [exact Hin|]. now apply in_scope_iff.
Qed.

Lemma scope_ids_keys (specs : Dict.t spec_info) (l : Spec.level) (p id : string) :
  In id (Spec.scope_ids specs l p) -> In id (Dict.keys specs).
Proof.
  intros H. apply scope_ids_in in H. destruct H as (info & Hin & _).
  unfold Dict.keys. apply in_map_iff. now exists (id, info).
Qed.

Lemma group_add_exact (done : Dict.t spec_info) (l : Spec.level)
    (tbl : Dict.t (list string)) (id q : string) (info : spec_info) :
  Spec.scope info = Some (l, q) ->
  (forall p, Dict.get p tbl = Spec.as_group (Spec.scope_ids done l p)) ->
  forall p, Dict.get p (Hierarchy.group_add q id tbl)
            = Spec.as_group (Spec.scope_ids (done ++ [(id, info)])%list l p).
Proof.
  intros Hs Htbl p. rewrite scope_ids_app, scope_ids_one.
  unfold Spec.in_scope. rewrite Hs.
  replace (Spec.level_eqb l l) with true by (now destruct l). cbn [andb].
  unfold Hierarchy.group_add.
  destruct (String.eqb q p) eqn:Hq.
  - apply String.eqb_eq in Hq. subst p.
    rewrite (Htbl q). destruct (Spec.scope_ids done l q) as [|x ms] eqn:Hms; cbn [Spec.as_group].
    + rewrite get_set, String.eqb_refl. reflexivity.
    + rewrite get_set, String.eqb_refl. reflexivity.
  - assert (Hpq : String.eqb p q = false) by (rewrite String.eqb_sym; exact Hq).
    rewrite List.app_nil_r.
    destruct (Dict.get q tbl); rewrite get_set, Hpq; apply Htbl.
Qed.

Lemma other_level_exact (done : Dict.t spec_info) (l : Spec.level)
    (tbl : Dict.t (list string)) (id : string) (info : spec_info) :
  (forall p, Spec.scope info <> Some (l, p)) ->
  (forall p, Dict.get p tbl = Spec.as_group (Spec.scope_ids done l p)) ->
  forall p, Dict.get p tbl
            = Spec.as_group (Spec.scope_ids (done ++ [(id, info)])%list l p).
Proof.
  intros Hs Htbl p. rewrite scope_ids_app, scope_ids_one.
  destruct (Spec.in_scope l p info) eqn:Hin.
  - apply in_scope_iff in Hin. now elim (Hs p).
  - rewrite List.app_nil_r. apply Htbl.
Qed.

Lemma exact_step (done : Dict.t spec_info) (g : Hierarchy.groups)
    (id : string) (info : spec_info) :
  ~ In id (Dict.keys done) ->
  Spec.exact_groups done g ->
  Spec.exact_groups (done ++ [(id, info)])%list (Hierarchy.group_one g (id, info)).
Proof.
  intros Hnew (He & Hf & Ht & Hs).
  unfold Hierarchy.group_one.
  destruct (Py.eq_str (type info) "epic") eqn:T1.
  { assert (Hsc : Spec.scope info = Some (Spec.Epic, ""))
      by (unfold Spec.scope; now rewrite T1).
    assert (Hother : forall l, l <> Spec.Epic -> forall p, Spec.scope info <> Some (l, p))
      by (intros l Hl p; rewrite Hsc; intros [= <- _]; now apply Hl).
    repeat split; cbn [Hierarchy.epics Hierarchy.features_by_parent
      Hierarchy.tasks_by_parent Hierarchy.subtasks_by_parent].
    - rewrite keys_set, scope_ids_app, scope_ids_one.
      unfold Spec.in_scope. rewrite Hsc. cbn [Spec.level_eqb String.eqb andb].
      destruct (Dict.mem id (Hierarchy.epics g)) eqn:Hm; [|now rewrite He].
      exfalso. apply Hnew. apply mem_get in Hm. destruct Hm as [v Hv].
      apply get_in_keys in Hv. rewrite He in Hv. now apply scope_ids_keys in Hv.
    - apply other_level_exact; [apply Hother; discriminate|exact Hf].
    - apply other_level_exact; [apply Hother; discriminate|exact Ht].
    - apply other_level_exact; [apply Hother; discriminate|exact Hs]. }
  assert (Hepic : Dict.keys (Hierarchy.epics g)
                  = Spec.scope_ids (done ++ [(id, info)])%list Spec.Epic "").
  { rewrite scope_ids_app, scope_ids_one.
    replace (Spec.in_scope Spec.Epic "" info) with false.
    - now rewrite List.app_nil_r.
    - symmetry. destruct (Spec.in_scope Spec.Epic "" info) eqn:Hin; [|reflexivity].
      apply in_scope_iff in Hin. unfold Spec.scope in Hin. rewrite T1 in Hin.
      repeat match type of Hin with
             | (if ?b then _ else _) = _ => destruct b
             end; discriminate. }
  destruct (Py.eq_str (type info) "feature") eqn:T2.
  { assert (Hsc : Spec.scope info
                  = Some (Spec.Feature, Hierarchy.parent_key (metadata info)))
      by (unfold Spec.scope; now rewrite T1, T2).
    assert (Hother : forall l, l <> Spec.Feature -> forall p, Spec.scope info <> Some (l, p))
      by (intros l Hl p; rewrite Hsc; intros [= <- _]; now apply Hl).
    repeat split; cbn [Hierarchy.epics Hierarchy.features_by_parent
      Hierarchy.tasks_by_parent Hierarchy.subtasks_by_parent].
    - exact Hepic.
    - now apply group_add_exact.
    - apply other_level_exact; [apply Hother; discriminate|exact Ht].
    - apply other_level_exact; [apply Hother; discriminate|exact Hs]. }
  destruct (Py.eq_str (type info) "task") eqn:T3.
  { assert (Hsc : Spec.scope info
                  = Some (Spec.Task, Hierarchy.parent_key (metadata info)))
      by (unfold Spec.scope; now rewrite T1, T2, T3).
    assert (Hother : forall l, l <> Spec.Task -> forall p, Spec.scope info <> Some (l, p))
      by (intros l Hl p; rewrite Hsc; intros [= <- _]; now apply Hl).
    repeat split; cbn [Hierarchy.epics Hierarchy.features_by_parent
      Hierarchy.tasks_by_parent Hierarchy.subtasks_by_parent].
    - exact Hepic.
    - apply other_level_exact; [apply Hother; discriminate|exact Hf].
    - now apply group_add_exact.
    - apply other_level_exact; [apply Hother; discriminate|exact Hs]. }
  destruct (Py.eq_str (type info) "subtask") eqn:T4.
  { assert (Hsc : Spec.scope info
                  = Some (Spec.Subtask, Hierarchy.parent_key (metadata info)))
      by (unfold Spec.scope; now rewrite T1, T2, T3, T4).
    assert (Hother : forall l, l <> Spec.Subtask -> forall p, Spec.scope info <> Some (l, p))
      by (intros l Hl p; rewrite Hsc; intros [= <- _]; now apply Hl).
    repeat split; cbn [Hierarchy.epics Hierarchy.features_by_parent
      Hierarchy.tasks_by_parent Hierarchy.subtasks_by_parent].
    - exact Hepic.
    - apply other_level_exact; [apply Hother; discriminate|exact Hf].
    - apply other_level_exact; [apply Hother; discriminate|exact Ht].
    - now apply group_add_exact. }
  assert (Hnone : forall l p, Spec.scope info <> Some (l, p))
    by (intros l p; unfold Spec.scope; rewrite T1, T2, T3, T4; discriminate).
  repeat split.
  - exact Hepic.
  - apply other_level_exact; [apply Hnone|exact Hf].
  - apply other_level_exact; [apply Hnone|exact Ht].
  - apply other_level_exact; [apply Hnone|exact Hs].
Qed.

Lemma exact_fold (rest : Dict.t spec_info) : forall done g,
  NoDup (Dict.keys (done ++ rest)%list) ->
  Spec.exact_groups done g ->
  Spec.exact_groups (done ++ rest)%list (fold_left Hierarchy.group_one rest g).
Proof.
  induction rest as [|[id info] rest IH]; intros done g Hnd H.
  - now rewrite List.app_nil_r.
  - cbn [fold_left].
    replace (done ++ (id, info) :: rest)%list with ((done ++ [(id, info)]) ++ rest)%list in *
      by now rewrite <- List.app_assoc.
    apply IH; [exact Hnd|]. apply exact_step; [|exact H].
    unfold Dict.keys in Hnd. rewrite !map_app in Hnd. cbn [map fst] in Hnd.
    rewrite <- List.app_assoc in Hnd. apply NoDup_remove_2 in Hnd.
    intros Hin. apply Hnd. apply in_or_app. now left.
Qed.

(** The groups of a loaded table are its scopes. *)
Lemma group_specs_exact (specs : Dict.t spec_info) :
  NoDup (Dict.keys specs) ->
  Spec.exact_groups specs (Hierarchy.group_specs specs).
Proof.
  intros Hnd. apply (exact_fold specs [] _ Hnd).
  repeat split.
Qed.

Lemma members_exact (specs : Dict.t spec_info) (l : Spec.level) (p : string)
    (ms : list string) :
  NoDup (Dict.keys specs) ->
  Spec.members (Hierarchy.group_specs specs) l p = Some ms ->
  ms = Spec.scope_ids specs l p.
Proof.
  intros Hnd Hm. destruct (group_specs_exact specs Hnd) as (He & Hf & Ht & Hs).
  assert (Hgrp : forall x, Spec.as_group x = Some ms -> ms = x)
    by (intros [|a x]; cbn; [discriminate|now intros [= <-]]).
  destruct l; cbn [Spec.members] in Hm.
  - destruct (String.eqb p "") eqn:Hp; [|discriminate].
    apply String.eqb_eq in Hp. subst p. injection Hm as <-. exact He.
  - rewrite Hf in Hm. now apply Hgrp.
  - rewrite Ht in Hm. now apply Hgrp.
  - rewrite Hs in Hm. now apply Hgrp.
Qed.

Lemma members_complete (specs : Dict.t spec_info) (l : Spec.level) (p id : string) :
  NoDup (Dict.keys specs) ->
  Spec.node_in specs l id p ->
  Spec.members (Hierarchy.group_specs specs) l p = Some (Spec.scope_ids specs l p)
  /\ In id (Spec.scope_ids specs l p).
Proof.
  intros Hnd (info & Hget & Hs).
  assert (Hin : In id (Spec.scope_ids specs l p)).
  { apply scope_ids_in. exists info. split; [now apply get_in|exact Hs]. }
  split; [|exact Hin].
  destruct (group_specs_exact specs Hnd) as (He & Hf & Ht & Hsub).
  assert (Hgrp : Spec.as_group (Spec.scope_ids specs l p) = Some (Spec.scope_ids specs l p))
    by (destruct (Spec.scope_ids specs l p); [destruct Hin|reflexivity]).
  destruct l; cbn [Spec.members].
  - assert (p = "") as ->.
    { unfold Spec.scope in Hs.
      repeat match type of Hs with
             | (if ?b then _ else _) = _ => destruct b
             end; try discriminate. now injection Hs as <-. }
    cbn. now rewrite He.
  - now rewrite Hf.
  - now rewrite Ht.
  - now rewrite Hsub.
Qed.

End ScopeFacts.

Section RankFacts.
Variable specs : Dict.t spec_info.
Hypothesis specs_nodup : NoDup (Dict.keys specs).

Lemma all_ranked_set (m : Dict.t string) (l : Spec.level) (p : string)
    (ms : list string) (k : nat) (old_id : string) :
  Spec.placed specs l p ->
  Spec.members (Hierarchy.group_specs specs) l p = Some ms ->
  nth_error (Spec.sorted ms) k = Some old_id ->
  Spec.all_ranked specs m ->
  Spec.all_ranked specs (Dict.set old_id (Spec.letter l ++ PyStr.fmt_02d (S k)) m).
Proof.
  intros Hp Hm Hk Hall x v Hg. rewrite get_set in Hg.
  destruct (String.eqb x old_id) eqn:He; [|now apply Hall].
  apply String.eqb_eq in He. subst x. injection Hg as <-.
  assert (Hin : In old_id ms).
  { apply (Permutation_in old_id (Permutation_sym (sorted_perm ms))).
    now apply nth_error_In with k. }
  destruct (group_specs_sound specs specs_nodup l p ms old_id Hm Hin) as (info & Hi & Hs).
  exists info, l, p, ms, k. repeat split; assumption.
Qed.

Lemma number_loop_keeps_in (P : Dict.t string -> Prop) (prefix : string)
    (inner : string -> Dict.t string -> Dict.t string) (all : list string) :
  (forall id m, In id all -> P m -> P (inner id m)) ->
  (forall k id m, nth_error all k = Some id -> P m ->
     P (Dict.set id (prefix ++ PyStr.fmt_02d (S k)) m)) ->
  forall rest done m,
    all = (done ++ rest)%list -> P m ->
    P (Spec.number_loop prefix inner rest (S (length done)) m).
Proof.
  intros Hinner Hset. induction rest as [|id rest IH]; intros done m Hall Hm.
  - exact Hm.
  - cbn [Spec.number_loop].
    replace (S (S (length done))) with (S (length (done ++ [id])%list))
      by (rewrite List.length_app; cbn; lia).
    apply IH.
    + now rewrite <- List.app_assoc.
    + apply Hinner.
      * rewrite Hall. apply in_or_app. right. now left.
      * apply Hset; [|exact Hm].
        rewrite Hall, nth_error_app2 by lia. now rewrite Nat.sub_diag.
Qed.

Lemma level_keeps (l : Spec.level) (by_parent : Dict.t (list string))
    (inner : string -> Dict.t string -> Dict.t string) :
  (forall p, Dict.get p by_parent = Spec.members (Hierarchy.group_specs specs) l p) ->
  (forall p id m,
     Spec.placed specs l p -> Spec.node_in specs l id p ->
     Spec.all_ranked specs m -> Spec.all_ranked specs (inner id m)) ->
  forall p m,
    Spec.placed specs l p ->
    Spec.all_ranked specs m ->
    Spec.all_ranked specs (Spec.number_children by_parent (Spec.letter l) inner p m).
Proof.
  intros Htbl Hinner p m Hp Hm. unfold Spec.number_children.
  destruct (Dict.get p by_parent) as [ms|] eqn:Hg; [|exact Hm].
  rewrite Htbl in Hg.
  apply (number_loop_keeps_in (Spec.all_ranked specs) (Spec.letter l) inner
           (Spec.sorted ms)) with (done := []); [| |reflexivity|exact Hm].
  - intros id m0 Hin Hm0. apply (Hinner p); [exact Hp| |exact Hm0].
    apply (Permutation_in id (Permutation_sym (sorted_perm ms))) in Hin.
    exact (group_specs_sound specs specs_nodup l p ms id Hg Hin).
  - intros k id m0 Hk Hm0. now apply all_ranked_set with (p := p) (ms := ms).
Qed.

Lemma assign_epics_ranked (m : Dict.t string) :
  Spec.all_ranked specs m ->
  Spec.all_ranked specs (Spec.assign_epics (Hierarchy.group_specs specs) m).
Proof.
  intros Hm. unfold Spec.assign_epics.
  set (g := Hierarchy.group_specs specs).
  apply (number_loop_keeps_in (Spec.all_ranked specs) "E" (Spec.assign_features g)
           (Spec.sorted (Dict.keys (Hierarchy.epics g)))) with (done := []);
    [| |reflexivity|exact Hm].
  - intros e m0 Hin Hm0.
    apply (Permutation_in e (Permutation_sym (sorted_perm _))) in Hin.
    assert (He : Spec.node_in specs Spec.Epic e "")
      by exact (group_specs_sound specs specs_nodup Spec.Epic "" _ e eq_refl Hin).
    apply (level_keeps Spec.Feature); [reflexivity| |exact He|exact Hm0].
    intros e' f m1 He' Hf Hm1.
    apply (level_keeps Spec.Task); [reflexivity| |now exists e'|exact Hm1].
    intros f' t m2 Hf' Ht Hm2. destruct Hf' as (e'' & Hf'' & He'').
    apply (level_keeps Spec.Subtask); [reflexivity| |now exists f', e''|exact Hm2].
    intros t' s m3 _ _ Hm3. exact Hm3.
  - intros k id m0 Hk Hm0.
    now apply (all_ranked_set m0 Spec.Epic "" (Dict.keys (Hierarchy.epics g))).
Qed.

(** Coverage: the loops only add entries, and add one for every member. *)
Lemma set_keeps_keys (k v : string) : Spec.keeps_keys (Dict.set k v).
Proof. intros m x H. now apply mem_set_keeps. Qed.

Lemma number_loop_keeps_keys (prefix : string)
    (inner : string -> Dict.t string -> Dict.t string) :
  (forall id, Spec.keeps_keys (inner id)) ->
  forall ids c, Spec.keeps_keys (Spec.number_loop prefix inner ids c).
Proof.
  intros Hinner. induction ids as [|id ids IH]; intros c m x H; [exact H|].
  cbn [Spec.number_loop]. apply IH, Hinner. now apply mem_set_keeps.
Qed.

Lemma number_children_keeps_keys (by_parent : Dict.t (list string)) (prefix : string)
    (inner : string -> Dict.t string -> Dict.t string) :
  (forall id, Spec.keeps_keys (inner id)) ->
  forall p, Spec.keeps_keys (Spec.number_children by_parent prefix inner p).
Proof.
  intros Hinner p m x H. unfold Spec.number_children.
  destruct (Dict.get p by_parent); [|exact H]. now apply number_loop_keeps_keys.
Qed.

Lemma assign_subtasks_keeps_keys g p : Spec.keeps_keys (Spec.assign_subtasks g p).
Proof. apply number_children_keeps_keys. intros id m x H. exact H. Qed.

Lemma assign_tasks_keeps_keys g p : Spec.keeps_keys (Spec.assign_tasks g p).
Proof. apply number_children_keeps_keys. apply assign_subtasks_keeps_keys. Qed.

Lemma assign_features_keeps_keys g p : Spec.keeps_keys (Spec.assign_features g p).
Proof. apply number_children_keeps_keys. apply assign_tasks_keeps_keys. Qed.

Lemma number_loop_covers (prefix : string)
    (inner : string -> Dict.t string -> Dict.t string) (x : string) :
  (forall id, Spec.keeps_keys (inner id)) ->
  forall ids c m,
    (In x ids \/ exists id, In id ids /\ forall m0, Dict.mem x (inner id m0) = true) ->
    Dict.mem x (Spec.number_loop prefix inner ids c m) = true.
Proof.
  intros Hinner. induction ids as [|id ids IH]; intros c m H.
  - destruct H as [[]|(id & [] & _)].
  - cbn [Spec.number_loop].
    destruct H as [[->|Hin]|(id' & [->|Hin] & Hcov)].
    + apply number_loop_keeps_keys; [exact Hinner|]. apply Hinner, mem_set_same.
    + apply IH. now left.
    + apply number_loop_keeps_keys; [exact Hinner|]. apply Hcov.
    + apply IH. right. now exists id'.
Qed.

Lemma number_children_covers (l : Spec.level) (by_parent : Dict.t (list string))
    (prefix : string) (inner : string -> Dict.t string -> Dict.t string)
    (p x : string) :
  (forall q, Dict.get q by_parent = Spec.members (Hierarchy.group_specs specs) l q) ->
  (forall id, Spec.keeps_keys (inner id)) ->
  (Spec.node_in specs l x p
   \/ exists id, Spec.node_in specs l id p /\ forall m0, Dict.mem x (inner id m0) = true) ->
  forall m, Dict.mem x (Spec.number_children by_parent prefix inner p m) = true.
Proof.
  intros Htbl Hinner H m. unfold Spec.number_children. rewrite Htbl.
  assert (Hsome : exists id, Spec.node_in specs l id p)
    by (destruct H as [H|(id & H & _)]; eauto).
  destruct Hsome as (id0 & Hid0).
  destruct (members_complete specs l p id0 specs_nodup Hid0) as [-> _].
  apply number_loop_covers; [exact Hinner|].
  destruct H as [H|(id & H & Hcov)].
  - left. apply (Permutation_in x (sorted_perm _)).
    now destruct (members_complete specs l p x specs_nodup H).
  - right. exists id. split; [|exact Hcov].
    apply (Permutation_in id (sorted_perm _)).
    now destruct (members_complete specs l p id specs_nodup H).
Qed.

Lemma assign_epics_covers (l : Spec.level) (p x : string) (m : Dict.t string) :
  Spec.node_in specs l x p ->
  Spec.placed specs l p ->
  Dict.mem x (Spec.assign_epics (Hierarchy.group_specs specs) m) = true.
Proof.
  intros Hx Hp. unfold Spec.assign_epics.
  set (g := Hierarchy.group_specs specs).
  assert (Hepic : forall e, Spec.node_in specs Spec.Epic e "" ->
            In e (Spec.sorted (Dict.keys (Hierarchy.epics g)))).
  { intros e He. apply (Permutation_in e (sorted_perm _)).
    destruct (members_complete specs Spec.Epic "" e specs_nodup He) as [Hm Hin].
    cbn in Hm. injection Hm as Hm. fold g in Hm. now rewrite Hm. }
  apply number_loop_covers; [apply assign_features_keeps_keys|].
  destruct l; cbn [Spec.placed] in Hp.
  - subst p. left. now apply Hepic.
  - right. exists p. split; [now apply Hepic|]. intros m0.
    apply (number_children_covers Spec.Feature); [reflexivity| |now left].
    apply assign_tasks_keeps_keys.
  - destruct Hp as (e & Hf & He).
    right. exists e. split; [now apply Hepic|]. intros m0.
    apply (number_children_covers Spec.Feature); [reflexivity| |].
    { apply assign_tasks_keeps_keys. }
    right. exists p. split; [exact Hf|]. intros m1.
    apply (number_children_covers Spec.Task); [reflexivity| |now left].
    apply assign_subtasks_keeps_keys.
  - destruct Hp as (f & e & Ht & Hf & He).
    right. exists e. split; [now apply Hepic|]. intros m0.
    apply (number_children_covers Spec.Feature); [reflexivity| |].
    { apply assign_tasks_keeps_keys. }
    right. exists f. split; [exact Hf|]. intros m1.
    apply (number_children_covers Spec.Task); [reflexivity| |].
    { apply assign_subtasks_keeps_keys. }
    right. exists p. split; [exact Ht|]. intros m2.
    apply (number_children_covers Spec.Subtask); [reflexivity| |now left].
    intros id m3 y H. exact H.
Qed.

(** The loop over the orphans: what was mapped stays, what was not is
    given the orphan id. *)
Lemma assign_orphans_run (rest : Dict.t spec_info) : forall m m',
  incl rest specs ->
  NoDup (Dict.keys rest) ->
  Hierarchy.assign_orphans rest m = Ok m' ->
  Spec.all_assigned specs m ->
  Spec.all_assigned specs m'
  /\ (forall id v, Dict.get id m = Some v -> Dict.get id m' = Some v)
  /\ (forall id info, In (id, info) rest -> Dict.mem id m = false ->
        exists prefix, Hierarchy.type_prefix (type info) = Ok prefix
                       /\ Dict.get id m' = Some (prefix ++ "99_" ++ id)).
Proof.
  induction rest as [|[old_id info] rest IH]; intros m m' Hincl Hnd Hrun Hm.
  - cbn in Hrun. injection Hrun as <-. repeat split; auto. intros id i [].
  - assert (Hincl' : incl rest specs) by (intros e He; apply Hincl; now right).
    assert (Hget : Dict.get old_id specs = Some info).
    { apply in_get_nodup; [exact specs_nodup|]. apply Hincl. now left. }
    cbn [Dict.keys map fst] in Hnd. inversion Hnd as [|k ks Hfresh Hnd']. subst k ks.
    fold (Dict.keys rest) in Hfresh, Hnd'.
    assert (Hother : forall id i, In (id, i) rest -> String.eqb id old_id = false).
    { intros id i Hin. apply String.eqb_neq. intros ->. apply Hfresh.
      unfold Dict.keys. apply in_map_iff. now exists (old_id, i). }
    cbn [Hierarchy.assign_orphans] in Hrun.
    destruct (Dict.mem old_id m) eqn:Hmem.
    + destruct (IH m m' Hincl' Hnd' Hrun Hm) as (Ha & Hk & Ho).
      repeat split; auto.
      intros id i [[= <- <-]|Hin] Hno; [congruence|now apply Ho].
    + destruct (Hierarchy.type_prefix (type info)) as [prefix| |] eqn:Hpre;
        cbn [bind] in Hrun; try discriminate.
      assert (Hset : Spec.all_assigned specs
                       (Dict.set old_id (prefix ++ "99_" ++ old_id) m)).
      { apply all_assigned_set; [|exact Hm]. exists info. split; [exact Hget|].
        right. exists prefix. auto. }
      destruct (IH _ m' Hincl' Hnd' Hrun Hset) as (Ha & Hk & Ho).
      repeat split; auto.
      * intros id v Hv. apply Hk. rewrite get_set.
        destruct (String.eqb id old_id) eqn:He; [|exact Hv].
        apply String.eqb_eq in He. subst id. unfold Dict.mem in Hmem.
        rewrite Hv in Hmem. discriminate.
      * intros id i [[= <- <-]|Hin] Hno.
        -- exists prefix. split; [exact Hpre|]. apply Hk. now rewrite get_set, String.eqb_refl.
        -- apply Ho; [exact Hin|].
           unfold Dict.mem in *. now rewrite get_set, (Hother id i Hin).
Qed.

End RankFacts.

Section BuildFacts.
Variable st st' : migrator.
Hypothesis specs_nodup : NoDup (Dict.keys (specs_data st)).
Hypothesis fresh : spec_map st = [].
Hypothesis built : Hierarchy.build_hierarchy_map st = Ok st'.

Let epics_numbered : Dict.t string :=
  Spec.assign_epics (Hierarchy.group_specs (specs_data st)) [].

Lemma built_orphans :
  Hierarchy.assign_orphans (specs_data st) epics_numbered = Ok (spec_map st').
Proof.
  destruct (build_pure st st' built) as [H _]. rewrite fresh in H. exact H.
Qed.

Lemma ranked_assigned (m : Dict.t string) :
  Spec.all_ranked (specs_data st) m -> Spec.all_assigned (specs_data st) m.
Proof.
  intros H id v Hg. destruct (H id v Hg) as (info & l & p & ms & k & Hi & Hs & _ & Hm & Hk & ->).
  exists info. split; [exact Hi|]. left. exists l, p, ms, k. auto.
Qed.

Lemma epics_numbered_ranked : Spec.all_ranked (specs_data st) epics_numbered.
Proof.
  apply assign_epics_ranked; [exact specs_nodup|]. intros id v H. discriminate.
Qed.

Lemma built_assigned : Spec.all_assigned (specs_data st) (spec_map st').
Proof.
  destruct (assign_orphans_run (specs_data st) specs_nodup (specs_data st)
              epics_numbered (spec_map st') (incl_refl _) specs_nodup built_orphans
              (ranked_assigned _ epics_numbered_ranked)) as (H & _).
  exact H.
Qed.

Lemma built_rank (old_id : string) (info : spec_info) (l : Spec.level) (p : string) :
  Dict.get old_id (specs_data st) = Some info ->
  Spec.scope info = Some (l, p) ->
  Spec.placed (specs_data st) l p ->
  exists k,
    nth_error (Spec.sorted (Spec.scope_ids (specs_data st) l p)) k = Some old_id
    /\ Dict.get old_id (spec_map st') = Some (Spec.rank_id l k).
Proof.
  intros Hi Hs Hp.
  assert (Hmem : Dict.mem old_id epics_numbered = true).
  { apply (assign_epics_covers (specs_data st) specs_nodup l p); [|exact Hp].
    now exists info. }
  apply mem_get in Hmem. destruct Hmem as [v Hv].
  destruct (epics_numbered_ranked old_id v Hv)
    as (info' & l' & p' & ms & k & Hi' & Hs' & _ & Hm & Hk & ->).
  rewrite Hi in Hi'. injection Hi' as <-. rewrite Hs in Hs'. injection Hs' as <- <-.
  apply (members_exact _ _ _ _ specs_nodup) in Hm. subst ms.
  exists k. split; [exact Hk|].
  destruct (assign_orphans_run (specs_data st) specs_nodup (specs_data st)
              epics_numbered (spec_map st') (incl_refl _) specs_nodup built_orphans
              (ranked_assigned _ epics_numbered_ranked)) as (_ & Hkeep & _).
  now apply Hkeep.
Qed.

Lemma built_orphan (old_id : string) (info : spec_info) :
  Dict.get old_id (specs_data st) = Some info ->
  (forall l p, Spec.scope info = Some (l, p) -> ~ Spec.placed (specs_data st) l p) ->
  exists prefix,
    Hierarchy.type_prefix (type info) = Ok prefix
    /\ Dict.get old_id (spec_map st') = Some (prefix ++ "99_" ++ old_id).
Proof.
  intros Hi Hout.
  assert (Hno : Dict.mem old_id epics_numbered = false).
  { unfold Dict.mem. destruct (Dict.get old_id epics_numbered) as [v|] eqn:Hv; [|reflexivity].
    exfalso.
    destruct (epics_numbered_ranked old_id v Hv)
      as (info' & l & p & ms & k & Hi' & Hs & Hp & _).
    rewrite Hi in Hi'. injection Hi' as <-. exact (Hout l p Hs Hp). }
  destruct (assign_orphans_run (specs_data st) specs_nodup (specs_data st)
              epics_numbered (spec_map st') (incl_refl _) specs_nodup built_orphans
              (ranked_assigned _ epics_numbered_ranked)) as (_ & _ & Ho).
  apply Ho; [now apply get_in|exact Hno].
Qed.

End BuildFacts.

(** X3: on a table whose ids are ASCII strings that [int] converts
    when they are numbers, the mapping built by [build_hierarchy_map]
    has an entry only for loaded ids, and every new id in it is either
    the letter of the node's level followed by the two-digit place of
    the node in its sorted scope, or the orphan id: the prefix of the
    node's type, [99_] and the old id. *)
Theorem X3_new_id_is_rank_or_orphan (st st' : migrator) (old_id new_id : string) :
  NoDup (Dict.keys (specs_data st)) ->
  spec_map st = [] ->
  Spec.plain_ids (specs_data st) = true ->
  Hierarchy.build_hierarchy_map st = Ok st' ->
  Dict.get old_id (spec_map st') = Some new_id ->
  exists info,
    Dict.get old_id (specs_data st) = Some info
    /\ (Spec.numbered (Hierarchy.group_specs (specs_data st)) info old_id new_id
        \/ Spec.orphan info old_id new_id).
Proof.
  intros Hnd Hfresh _ Hbuilt Hget.
  exact (built_assigned st st' Hnd Hfresh Hbuilt old_id new_id Hget).
Qed.

Lemma X3_new_id_is_rank_or_orphan_witness :
  exists info,
    Dict.get "14" Scenarios.project_table = Some info
    /\ (Spec.numbered (Hierarchy.group_specs Scenarios.project_table) info "14" "B99_14"
        \/ Spec.orphan info "14" "B99_14").
Proof.
  apply (X3_new_id_is_rank_or_orphan Scenarios.project
           (Scenarios.resolved Scenarios.project_table []) "14" "B99_14");
    try reflexivity.
  vm_compute. repeat constructor; cbn; intuition discriminate.
Defined.

(** X4: on a table whose ids are ASCII strings that [int] converts
    when they are numbers, a loaded node whose scope the numbering
    reaches (an epic; a feature whose parent key is the id of a loaded
    epic; a task under such a feature; a subtask under such a task)
    receives the letter of its level followed by its two-digit place,
    counted from 01, among the loaded nodes of its scope sorted by the
    numeric key. *)
Theorem X4_placed_node_gets_its_rank (st st' : migrator) (old_id : string)
    (info : spec_info) (l : Spec.level) (p : string) :
  NoDup (Dict.keys (specs_data st)) ->
  spec_map st = [] ->
  Spec.plain_ids (specs_data st) = true ->
  Hierarchy.build_hierarchy_map st = Ok st' ->
  Dict.get old_id (specs_data st) = Some info ->
  Spec.scope info = Some (l, p) ->
  Spec.placed (specs_data st) l p ->
  exists k,
    nth_error (Spec.sorted (Spec.scope_ids (specs_data st) l p)) k = Some old_id
    /\ Dict.get old_id (spec_map st') = Some (Spec.letter l ++ PyStr.fmt_02d (S k)).
Proof.
  intros Hnd Hfresh _ Hbuilt Hi Hs Hp.
  exact (built_rank st st' Hnd Hfresh Hbuilt old_id info l p Hi Hs Hp).
Qed.

Lemma X4_placed_node_gets_its_rank_witness :
  exists k,
    nth_error (Spec.sorted (Spec.scope_ids Scenarios.project_table Spec.Subtask "12")) k
    = Some "13"
    /\ Dict.get "13" (spec_map (Scenarios.resolved Scenarios.project_table []))
       = Some (Spec.letter Spec.Subtask ++ PyStr.fmt_02d (S k)).
Proof.
  apply (X4_placed_node_gets_its_rank Scenarios.project
           (Scenarios.resolved Scenarios.project_table []) "13"
           (Scenarios.node "subtask"
              [("id", VInt 13); ("type", VStr "subtask"); ("parent", VStr "12")]
              "" "specs/10/11/12/13.md") Spec.Subtask "12"); try reflexivity.
  - vm_compute. repeat constructor; cbn; intuition discriminate.
  - exists "11", "10". repeat split; eexists; split; reflexivity.
Defined.

(** X5: a loaded node whose scope the numbering does not reach (a node
    of another type such as a bug; a feature whose parent key is not
    the id of a loaded epic; a task placed directly under an epic; ...)
    receives the orphan id: the prefix of its type ([T] for an unknown
    type), [99_] and its old id. *)
Theorem X5_unplaced_node_is_orphan (st st' : migrator) (old_id : string)
    (info : spec_info) :
  NoDup (Dict.keys (specs_data st)) ->
  spec_map st = [] ->
  Hierarchy.build_hierarchy_map st = Ok st' ->
  Dict.get old_id (specs_data st) = Some info ->
  (forall l p, Spec.scope info = Some (l, p) -> ~ Spec.placed (specs_data st) l p) ->
  exists prefix,
    Hierarchy.type_prefix (type info) = Ok prefix
    /\ Dict.get old_id (spec_map st') = Some (prefix ++ "99_" ++ old_id).
Proof.
  intros Hnd Hfresh Hbuilt Hi Hout.
  exact (built_orphan st st' Hnd Hfresh Hbuilt old_id info Hi Hout).
Qed.

Lemma X5_unplaced_node_is_orphan_witness :
  exists prefix,
    Hierarchy.type_prefix (VStr "task") = Ok prefix
    /\ Dict.get "15" (spec_map (Scenarios.resolved Scenarios.project_table []))
       = Some (prefix ++ "99_" ++ "15").
Proof.
  apply (X5_unplaced_node_is_orphan Scenarios.project
           (Scenarios.resolved Scenarios.project_table []) "15"
           (Scenarios.node "task"
              [("id", VInt 15); ("type", VStr "task"); ("parent", VStr "10")]
              "" "specs/10/15.md")); try reflexivity.
  - vm_compute. repeat constructor; cbn; intuition discriminate.
  - intros l p Hs. vm_compute in Hs. injection Hs as <- <-.
    intros (e & (i & Hi & Hsc) & _). vm_compute in Hi. injection Hi as <-.
    vm_compute in Hsc. discriminate.
Defined.

(** ** The order of the counters *)

Section OrderFacts.

Lemma key_le_trans (x y z : string) :
  Spec.key_le x y -> Spec.key_le y z -> Spec.key_le x z.
Proof. unfold Spec.key_le. lia. Qed.

Lemma sorted_split_le (l1 l2 l3 : list string) (a b : string) :
  Sorted Spec.key_le (l1 ++ b :: l2 ++ a :: l3)%list -> (Spec.key b <= Spec.key a)%Z.
Proof.
  intros H. apply (Sorted_StronglySorted key_le_trans) in H.
  induction l1 as [|x l1 IH]; cbn [app] in H.
  - inversion H as [|? ? _ Hall]; subst. rewrite Forall_forall in Hall.
    apply Hall. apply in_or_app. right. now left.
  - inversion H; subst. now apply IH.
Qed.

Lemma nth_error_two (L : list string) (i j : nat) (a b : string) :
  i < j -> nth_error L i = Some a -> nth_error L j = Some b ->
  exists l1 l2 l3, L = (l1 ++ a :: l2 ++ b :: l3)%list.
Proof.
  intros Hij Ha Hb.
  destruct (nth_error_split L i Ha) as (l1 & r & -> & Hlen).
  rewrite nth_error_app2 in Hb by lia.
  destruct (j - length l1) as [|m] eqn:Hm; [lia|]. cbn [nth_error] in Hb.
  destruct (nth_error_split r m Hb) as (l2 & l3 & -> & _).
  now exists l1, l2, l3.
Qed.

Lemma order_unique (a b : string) (x2 x3 y2 y3 : list string) :
  forall x1 y1 : list string,
    NoDup (x1 ++ a :: x2 ++ b :: x3)%list ->
    (x1 ++ a :: x2 ++ b :: x3 = y1 ++ b :: y2 ++ a :: y3)%list -> False.
Proof.
  induction x1 as [|c x1 IH]; intros y1 Hnd He; cbn [app] in *.
  - inversion Hnd as [|? ? Hnot _]; subst. apply Hnot.
    destruct y1 as [|c y1]; cbn [app] in He; injection He as He1 He2.
    + subst b. apply in_or_app. right. now left.
    + rewrite He2. apply in_or_app. right. right. apply in_or_app. right. now left.
  - inversion Hnd as [|? ? Hnot Hnd']; subst.
    destruct y1 as [|c' y1]; cbn [app] in He; injection He as He1 He2.
    + subst c. apply Hnot. apply in_or_app. right. right. apply in_or_app. right. now left.
    + exact (IH y1 Hnd' He2).
Qed.

Lemma with_key_two (k : Z) (l1 l2 l3 : list string) (a b : string) :
  Spec.key a = k -> Spec.key b = k ->
  Spec.with_key k (l1 ++ a :: l2 ++ b :: l3)%list
  = (Spec.with_key k l1 ++ a :: Spec.with_key k l2 ++ b :: Spec.with_key k l3)%list.
Proof.
  intros Ha Hb. unfold Spec.with_key.
  rewrite filter_app. cbn [filter]. rewrite Ha, Z.eqb_refl.
  rewrite filter_app. cbn [filter]. now rewrite Hb, Z.eqb_refl.
Qed.

(** The places of two members of a sorted list: the smaller key comes
    first, and of two equal keys the one that came first in the list
    that was sorted. *)
Lemma sorted_order (l : list string) (ka kb : nat) (a b : string) :
  NoDup l ->
  nth_error (Spec.sorted l) ka = Some a ->
  nth_error (Spec.sorted l) kb = Some b ->
  ((Spec.key a < Spec.key b)%Z -> ka < kb)
  /\ (Spec.key a = Spec.key b ->
      (exists l1 l2 l3, l = (l1 ++ a :: l2 ++ b :: l3)%list) -> ka < kb).
Proof.
  intros Hnd Ha Hb. split.
  - intros Hlt. destruct (Nat.lt_trichotomy ka kb) as [H|[H|H]]; [exact H| |].
    + subst kb. rewrite Ha in Hb. injection Hb as ->. lia.
    + destruct (nth_error_two _ _ _ _ _ H Hb Ha) as (t1 & t2 & t3 & He).
      assert (Hs := sorted_is_sorted l). rewrite He in Hs.
      apply sorted_split_le in Hs. lia.
  - intros Hk (l1 & l2 & l3 & Hl).
    destruct (Nat.lt_trichotomy ka kb) as [H|[H|H]]; [exact H| |]; exfalso.
    + subst kb. rewrite Ha in Hb. injection Hb as ->. subst l.
      apply NoDup_remove_2 in Hnd. apply Hnd.
      apply in_or_app. right. apply in_or_app. right. now left.
    + destruct (nth_error_two _ _ _ _ _ H Hb Ha) as (t1 & t2 & t3 & He).
      assert (Hst := sorted_stable (Spec.key a) l). rewrite He in Hst.
      rewrite Hl in Hst.
      rewrite (with_key_two _ t1 t2 t3 b a (eq_sym Hk) eq_refl) in Hst.
      rewrite (with_key_two _ l1 l2 l3 a b eq_refl (eq_sym Hk)) in Hst.
      set (k := Spec.key a) in *.
      apply (order_unique a b (Spec.with_key k l2) (Spec.with_key k l3)
               (Spec.with_key k t2) (Spec.with_key k t3)
               (Spec.with_key k l1) (Spec.with_key k t1)); [|now symmetry].
      subst k. rewrite <- (with_key_two _ l1 l2 l3 a b eq_refl (eq_sym Hk)), <- Hl.
      unfold Spec.with_key. now apply NoDup_filter.
Qed.

Lemma scope_ids_nodup (specs : Dict.t spec_info) (l : Spec.level) (p : string) :
  NoDup (Dict.keys specs) -> NoDup (Spec.scope_ids specs l p).
Proof.
  unfold Dict.keys, Spec.scope_ids.
  induction specs as [|[k v] specs IH]; cbn [map filter fst snd]; intros H;
    [constructor|].
  inversion H as [|? ? Hnot Hnd]; subst.
  destruct (Spec.in_scope l p v); cbn [map fst]; [|now apply IH].
  constructor; [|now apply IH].
  intros Hin. apply Hnot. apply in_map_iff in Hin.
  destruct Hin as (e & He & Hin). apply filter_In in Hin.
  apply in_map_iff. exists e. split; [exact He|apply Hin].
Qed.

Lemma scope_in_scope (info : spec_info) (l : Spec.level) (p : string) :
  Spec.scope info = Some (l, p) -> Spec.in_scope l p info = true.
Proof.
  unfold Spec.in_scope. intros ->. rewrite String.eqb_refl. now destruct l.
Qed.

(** Two nodes of a scope keep their load order in the scope. *)
Lemma scope_ids_two (specs : Dict.t spec_info) (l : Spec.level) (p a b : string)
    (ia ib : spec_info) (l1 l2 l3 : list string) :
  NoDup (Dict.keys specs) ->
  Dict.keys specs = (l1 ++ a :: l2 ++ b :: l3)%list ->
  Dict.get a specs = Some ia -> Spec.scope ia = Some (l, p) ->
  Dict.get b specs = Some ib -> Spec.scope ib = Some (l, p) ->
  exists s1 s2 s3, Spec.scope_ids specs l p = (s1 ++ a :: s2 ++ b :: s3)%list.
Proof.
  intros Hnd Hk Ga Sa Gb Sb. unfold Dict.keys in Hk.
  apply map_eq_app in Hk. destruct Hk as (e1 & r1 & He & _ & Hr1).
  apply map_eq_cons in Hr1. destruct Hr1 as ([a' ia'] & r2 & -> & Ha' & Hr2).
  apply map_eq_app in Hr2. destruct Hr2 as (e2 & r3 & -> & _ & Hr3).
  apply map_eq_cons in Hr3. destruct Hr3 as ([b' ib'] & e3 & -> & Hb' & _).
  cbn [fst] in Ha', Hb'. subst a' b'.
  assert (Hia : ia' = ia).
  { assert (Hin : In (a, ia') specs).
    { rewrite He. apply in_or_app. right. now left. }
    apply (in_get_nodup _ _ _ Hnd) in Hin. congruence. }
  assert (Hib : ib' = ib).
  { assert (Hin : In (b, ib') specs).
    { rewrite He. apply in_or_app. right. right. apply in_or_app. right. now left. }
    apply (in_get_nodup _ _ _ Hnd) in Hin. congruence. }
  subst ia' ib'. rewrite He. unfold Spec.scope_ids.
  rewrite filter_app. cbn [filter snd]. rewrite (scope_in_scope _ _ _ Sa).
  rewrite filter_app. cbn [filter snd]. rewrite (scope_in_scope _ _ _ Sb).
  rewrite map_app. cbn [map fst]. rewrite map_app. cbn [map fst].
  eauto.
Qed.

End OrderFacts.

Section NumberFacts.

Lemma int_acc_uint (d : Decimal.uint) : forall acc : nat,
  PyStr.int_acc (NilEmpty.string_of_uint d) (Z.of_nat acc)
  = Z.of_nat (Nat.of_uint_acc d acc).
Proof.
  induction d as [|d IH|d IH|d IH|d IH|d IH|d IH|d IH|d IH|d IH|d IH]; intros acc;
    cbn [NilEmpty.string_of_uint PyStr.int_acc Nat.of_uint_acc]; [reflexivity|..];
    rewrite <- IH; f_equal; rewrite Nat.tail_mul_spec;
    match goal with
    | |- context [nat_of_ascii ?c - 48] =>
        let v := eval vm_compute in (nat_of_ascii c - 48) in
        change (nat_of_ascii c - 48) with v
    end; lia.
Qed.

Lemma digits_uint (d : Decimal.uint) :
  PyStr.all_chars PyStr.is_digit (NilEmpty.string_of_uint d) = true.
Proof.
  induction d; cbn [NilEmpty.string_of_uint PyStr.all_chars]; [reflexivity|..];
    rewrite IHd; reflexivity.
Qed.

(** The key of a number as [str] writes it is the number; the key of
    an id that [isdigit] rejects is 0. *)
Lemma key_str_nat (n : nat) : Spec.key (PyStr.str_nat n) = Z.of_nat n.
Proof.
  unfold Spec.key, Spec.decimal, PyStr.str_nat, PyStr.int_of.
  rewrite digits_uint.
  destruct (NilEmpty.string_of_uint (Nat.to_uint n)) eqn:Hs.
  - exfalso. apply (f_equal NilEmpty.uint_of_string) in Hs.
    rewrite NilEmpty.usu in Hs. cbn in Hs. injection Hs as Hs.
    apply (DecimalFacts.unorm_nonnil (Nat.to_uint n)).
    now rewrite <- Unsigned.to_of, Unsigned.of_to.
  - rewrite <- Hs. change 0%Z with (Z.of_nat 0). rewrite int_acc_uint.
    change (Nat.of_uint_acc (Nat.to_uint n) 0) with (Nat.of_uint (Nat.to_uint n)).
    now rewrite Unsigned.of_to.
Qed.

Lemma key_not_digits (x : string) : PyStr.isdigit x = false -> Spec.key x = 0%Z.
Proof.
  unfold Spec.key, Spec.decimal, PyStr.isdigit. destruct x as [|c x]; [reflexivity|].
  intros H. destruct (PyStr.all_chars PyStr.is_digit (String c x)) eqn:Hd; [|reflexivity].
  apply (all_chars_weaken _ _ _ digit_is_digit_like) in Hd. congruence.
Qed.

End NumberFacts.

(** C9, amended: on a table whose ids are ASCII strings short enough
    for [int], the sort keys of the nodes are computed; the key is the
    number the id writes when the id is a number, and 0 when [isdigit]
    rejects the id; and the nodes of a scope the numbering reaches are
    numbered in the order of that key: of two nodes of the scope, the
    one with the smaller key has the smaller counter, and of two nodes
    with the same key (in particular two ids that are not numbers) the
    one loaded first.  The epics [1] and [3], loaded [3] first, receive
    [E01] and [E02]. *)
Theorem C9_numbered_in_key_order (st st' : migrator) (l : Spec.level) (p : string)
    (a b : string) (ia ib : spec_info) :
  NoDup (Dict.keys (specs_data st)) ->
  spec_map st = [] ->
  Spec.plain_ids (specs_data st) = true ->
  Hierarchy.build_hierarchy_map st = Ok st' ->
  Dict.get a (specs_data st) = Some ia -> Spec.scope ia = Some (l, p) ->
  Dict.get b (specs_data st) = Some ib -> Spec.scope ib = Some (l, p) ->
  Spec.placed (specs_data st) l p ->
  exists ka kb,
    Hierarchy.sort_key a = Ok (Spec.key a)
    /\ Hierarchy.sort_key b = Ok (Spec.key b)
    /\ (forall n, Spec.key (PyStr.str_nat n) = Z.of_nat n)
    /\ (forall x, PyStr.isdigit x = false -> Spec.key x = 0%Z)
    /\ Dict.get a (spec_map st') = Some (Spec.letter l ++ PyStr.fmt_02d (S ka))
    /\ Dict.get b (spec_map st') = Some (Spec.letter l ++ PyStr.fmt_02d (S kb))
    /\ ((Spec.key a < Spec.key b)%Z -> ka < kb)
    /\ (Spec.key a = Spec.key b ->
        (exists l1 l2 l3,
            Dict.keys (specs_data st) = (l1 ++ a :: l2 ++ b :: l3)%list) ->
        ka < kb)
    /\ Dict.get "1" (spec_map Scenarios.two_epics) = Some "E01"
    /\ Dict.get "3" (spec_map Scenarios.two_epics) = Some "E02".
Proof.
  intros Hnd Hfresh Hpl Hbuilt Ga Sa Gb Sb Hp.
  destruct (built_rank st st' Hnd Hfresh Hbuilt a ia l p Ga Sa Hp) as (ka & Na & Ma).
  destruct (built_rank st st' Hnd Hfresh Hbuilt b ib l p Gb Sb Hp) as (kb & Nb & Mb).
  exists ka, kb.
  assert (Hplain : forall x i, Dict.get x (specs_data st) = Some i ->
                               Spec.plain_id x = true).
  { intros x i Hx. apply get_in in Hx. unfold Spec.plain_ids in Hpl.
    rewrite forallb_forall in Hpl. exact (Hpl _ Hx). }
  destruct (sorted_order _ ka kb a b (scope_ids_nodup _ l p Hnd) Na Nb) as [Hlt Heq].
  split; [exact (sort_key_plain a (Hplain a ia Ga))|].
  split; [exact (sort_key_plain b (Hplain b ib Gb))|].
  split; [exact key_str_nat|]. split; [exact key_not_digits|].
  split; [exact Ma|]. split; [exact Mb|]. split; [exact Hlt|].
  split; [|split; vm_compute; reflexivity].
  intros Hk (l1 & l2 & l3 & Hl). apply Heq; [exact Hk|].
  exact (scope_ids_two _ l p a b ia ib l1 l2 l3 Hnd Hl Ga Sa Gb Sb).
Qed.

Lemma C9_numbered_in_key_order_witness :
  exists ka kb,
    Hierarchy.sort_key "1" = Ok (Spec.key "1")
    /\ Hierarchy.sort_key "3" = Ok (Spec.key "3")
    /\ (forall n, Spec.key (PyStr.str_nat n) = Z.of_nat n)
    /\ (forall x, PyStr.isdigit x = false -> Spec.key x = 0%Z)
    /\ Dict.get "1" (spec_map Scenarios.two_epics)
       = Some (Spec.letter Spec.Epic ++ PyStr.fmt_02d (S ka))
    /\ Dict.get "3" (spec_map Scenarios.two_epics)
       = Some (Spec.letter Spec.Epic ++ PyStr.fmt_02d (S kb))
    /\ ((Spec.key "1" < Spec.key "3")%Z -> ka < kb)
    /\ (Spec.key "1" = Spec.key "3" ->
        (exists l1 l2 l3,
            Dict.keys (specs_data Scenarios.two_epics)
            = (l1 ++ "1" :: l2 ++ "3" :: l3)%list) ->
        ka < kb)
    /\ Dict.get "1" (spec_map Scenarios.two_epics) = Some "E01"
    /\ Dict.get "3" (spec_map Scenarios.two_epics) = Some "E02".
Proof.
  apply (C9_numbered_in_key_order
           (mk_migrator [] [] (specs_data Scenarios.two_epics) [])
           Scenarios.two_epics Spec.Epic "" "1" "3"
           (Scenarios.node "epic" [("id", VInt 1); ("type", VStr "epic")] "" "specs/1.md")
           (Scenarios.node "epic" [("id", VInt 3); ("type", VStr "epic")] "" "specs/3.md"));
    try reflexivity.
  vm_compute. repeat constructor; cbn; intuition discriminate.
Defined.

(** ** What the loader holds *)

Section LoadedFacts.
Variable E : externals.

Lemma load_one_unique st ws file :
  unique_ids (fst (Loader.load_one E (st, ws) file))
  = match Spec.loaded_id E (snd file) with
    | Some k => Dict.set k (Loader.generate_short_uuid E k) (unique_ids st)
    | None => unique_ids st
    end
  /\ spec_map (fst (Loader.load_one E (st, ws) file)) = spec_map st
  /\ migration_log (fst (Loader.load_one E (st, ws) file)) = migration_log st.
Proof.
  unfold Spec.loaded_id, Loader.load_one.
  destruct file as [spec_file content]; cbn [fst snd].
  destruct (Codec.parse_yaml_frontmatter E content) as [[md|v] body].
  - destruct (Dict.get "id" md) as [id|] eqn:Hid.
    + destruct md as [|e md]; [discriminate|]. rewrite Hid. cbn. auto.
    + destruct md; [|rewrite Hid]; cbn; auto.
  - match goal with |- context [if ?b then _ else _] => destruct b end; cbn; auto.
Qed.

Lemma load_one_data st ws file :
  specs_data (fst (Loader.load_one E (st, ws) file))
  = match Spec.loaded_id E (snd file), Spec.loaded_info E file with
    | Some k, Some info => Dict.set k info (specs_data st)
    | _, _ => specs_data st
    end.
Proof.
  destruct (Spec.loaded_id E (snd file)) as [k|] eqn:Hk.
  - destruct (proj1 (loaded_id_info E file)) as [info Hinfo]; [eauto|].
    rewrite Hinfo. now destruct (load_one_stored E st ws file Hk Hinfo).
  - now destruct (load_one_skipped E st ws file Hk).
Qed.

Lemma loaded_info_path file info :
  Spec.loaded_info E file = Some info -> file_path info = fst file.
Proof.
  unfold Spec.loaded_info.
  destruct (Codec.parse_yaml_frontmatter E (snd file)) as [[md|v] body]; [|discriminate].
  destruct (Dict.get "id" md); [|discriminate]. now intros [= <-].
Qed.

(** The entries, the unique ids and the other attributes along the loop. *)
Lemma load_fold (all files : list (string * string)) : forall st ws,
  incl files all ->
  (forall k info, Dict.get k (specs_data st) = Some info ->
     exists file, In file all /\ Spec.loaded_id E (snd file) = Some k
                  /\ Spec.loaded_info E file = Some info) ->
  (forall k, Dict.get k (unique_ids st)
             = option_map (fun _ => Loader.generate_short_uuid E k)
                 (Dict.get k (specs_data st))) ->
  let st' := fst (fold_left (Loader.load_one E) files (st, ws)) in
  (forall k info, Dict.get k (specs_data st') = Some info ->
     exists file, In file all /\ Spec.loaded_id E (snd file) = Some k
                  /\ Spec.loaded_info E file = Some info)
  /\ (forall k, Dict.get k (unique_ids st')
                = option_map (fun _ => Loader.generate_short_uuid E k)
                    (Dict.get k (specs_data st')))
  /\ (forall k, Dict.mem k (specs_data st) = true -> Dict.mem k (specs_data st') = true)
  /\ (forall file k, In file files -> Spec.loaded_id E (snd file) = Some k ->
        Dict.mem k (specs_data st') = true)
  /\ spec_map st' = spec_map st
  /\ migration_log st' = migration_log st.
Proof.
  induction files as [|file files IH]; intros st ws Hincl Hsound Huniq; cbn [fold_left].
  - cbn [fst]. repeat split; auto; intros f k [].
  - destruct (Loader.load_one E (st, ws) file) as [st1 ws1] eqn:Hstep.
    assert (Hd := load_one_data st ws file).
    destruct (load_one_unique st ws file) as (Hu & Hm & Hl).
    rewrite Hstep in Hd, Hu, Hm, Hl. cbn [fst] in Hd, Hu, Hm, Hl.
    assert (Hfile : In file all) by (apply Hincl; now left).
    assert (Hincl' : incl files all) by (intros f Hf; apply Hincl; now right).
    assert (Hsound1 : forall k info, Dict.get k (specs_data st1) = Some info ->
              exists f, In f all /\ Spec.loaded_id E (snd f) = Some k
                        /\ Spec.loaded_info E f = Some info).
    { intros k info. rewrite Hd.
      destruct (Spec.loaded_id E (snd file)) as [k0|] eqn:Hk0; [|apply Hsound].
      destruct (Spec.loaded_info E file) as [info0|] eqn:Hi0; [|apply Hsound].
      rewrite get_set. destruct (String.eqb k k0) eqn:He; [|apply Hsound].
      apply String.eqb_eq in He. subst k0. intros [= <-]. now exists file. }
    assert (Huniq1 : forall k, Dict.get k (unique_ids st1)
              = option_map (fun _ => Loader.generate_short_uuid E k)
                  (Dict.get k (specs_data st1))).
    { intros k. rewrite Hu, Hd.
      destruct (Spec.loaded_id E (snd file)) as [k0|] eqn:Hk0; [|apply Huniq].
      destruct (proj1 (loaded_id_info E file)) as [info0 Hi0]; [eauto|]. rewrite Hi0.
      rewrite !get_set. destruct (String.eqb k k0) eqn:He; [|apply Huniq].
      apply String.eqb_eq in He. now subst k0. }
    assert (Hkeep1 : forall k, Dict.mem k (specs_data st) = true ->
              Dict.mem k (specs_data st1) = true).
    { intros k Hk. rewrite Hd.
      destruct (Spec.loaded_id E (snd file)) as [k0|]; [|exact Hk].
      destruct (Spec.loaded_info E file) as [info0|]; [|exact Hk].
      unfold Dict.mem in *. rewrite get_set. now destruct (String.eqb k k0). }
    destruct (IH st1 ws1 Hincl' Hsound1 Huniq1) as (Hs & Hq & Hk & Hc & Hm' & Hl').
    repeat split; auto.
    + intros f k [<-|Hin] Hid; [|now apply (Hc f)].
      apply Hk. rewrite Hd, Hid.
      destruct (proj1 (loaded_id_info E file)) as [info0 Hi0]; [eauto|]. rewrite Hi0.
      unfold Dict.mem. now rewrite get_set, String.eqb_refl.
    + congruence.
    + congruence.
Qed.

End LoadedFacts.

(** X6: every entry the loader holds is the decoded form of a file
    that exists under [specs], has the suffix [.md] and passes the
    filter (its path holds neither [deliverables] nor [workflow], its
    name neither [context] nor [README]); the entry is stored under the
    string form of the [id] of that file and records the path of that
    file. *)
Theorem X6_loaded_entries_are_spec_files (E : externals) (w : FS.world)
    (old_id : string) (info : spec_info) :
  Dict.get old_id (specs_data (fst (Loader.load_all_specs E init w))) = Some info ->
  exists content,
    In (file_path info, content) (FS.files w)
    /\ Loader.is_spec_file (file_path info) = true
    /\ Spec.loaded_id E content = Some old_id
    /\ Spec.loaded_info E (file_path info, content) = Some info.
Proof.
  intros Hget. unfold Loader.load_all_specs in Hget.
  destruct (load_fold E (Loader.spec_files w) (Loader.spec_files w) init []
              (incl_refl _)) as (Hs & _).
  - intros k i H. discriminate.
  - intros k. reflexivity.
  - destruct (Hs old_id info Hget) as ([path content] & Hin & Hid & Hinfo).
    assert (Hp := loaded_info_path E _ _ Hinfo). cbn [fst] in Hp. subst path.
    unfold Loader.spec_files in Hin. apply filter_In in Hin. destruct Hin as [Hin Hf].
    exists content. auto.
Qed.

Lemma X6_loaded_entries_are_spec_files_witness :
  exists content,
    In ("specs/2.md", content) Scenarios.two_old_epics_files
    /\ Loader.is_spec_file "specs/2.md" = true
    /\ Spec.loaded_id Reference.lib content = Some "2"
    /\ Spec.loaded_info Reference.lib ("specs/2.md", content)
       = Some (mk_spec_info [("id", VInt 2); ("type", VStr "epic")] "Epic two"
                 "specs/2.md" (VStr "epic")).
Proof.
  apply (X6_loaded_entries_are_spec_files Reference.lib
           (Reference.disk Scenarios.two_old_epics_files) "2"
           (mk_spec_info [("id", VInt 2); ("type", VStr "epic")] "Epic two"
              "specs/2.md" (VStr "epic"))).
  vm_compute. reflexivity.
Defined.

(** X7: after loading, the unique ids are kept for exactly the loaded
    ids, and the unique id of a loaded id is [generate_short_uuid] of
    that id (the first eight characters of its MD5 digest when the id
    is not the empty string); the identifier mapping and the migration
    log are still empty. *)
Theorem X7_unique_ids_follow_loaded_ids (E : externals) (w : FS.world) :
  let st := fst (Loader.load_all_specs E init w) in
  (forall old_id,
     Dict.get old_id (unique_ids st)
     = option_map (fun _ => Loader.generate_short_uuid E old_id)
         (Dict.get old_id (specs_data st)))
  /\ spec_map st = []
  /\ migration_log st = [].
Proof.
  unfold Loader.load_all_specs.
  destruct (load_fold E (Loader.spec_files w) (Loader.spec_files w) init []
              (incl_refl _)) as (_ & Hq & _ & _ & Hm & Hl).
  - intros k i H. discriminate.
  - intros k. reflexivity.
  - cbv zeta. auto.
Qed.

(** X8: a file under [specs] that passes the filter and whose
    frontmatter is a mapping with an [id] is loaded: the string form of
    that id is a key of the loaded table. *)
Theorem X8_spec_file_with_id_is_loaded (E : externals) (w : FS.world)
    (path content old_id : string) :
  In (path, content) (FS.files w) ->
  Loader.is_spec_file path = true ->
  Spec.loaded_id E content = Some old_id ->
  Dict.mem old_id (specs_data (fst (Loader.load_all_specs E init w))) = true.
Proof.
  intros Hin Hf Hid. unfold Loader.load_all_specs.
  destruct (load_fold E (Loader.spec_files w) (Loader.spec_files w) init []
              (incl_refl _)) as (_ & _ & _ & Hc & _).
  - intros k i H. discriminate.
  - intros k. reflexivity.
  - apply (Hc (path, content) old_id); [|exact Hid].
    unfold Loader.spec_files. apply filter_In. auto.
Qed.

Lemma X8_spec_file_with_id_is_loaded_witness :
  Dict.mem "1"
    (specs_data (fst (Loader.load_all_specs Reference.lib init
                        (Reference.disk Scenarios.two_old_epics_files)))) = true.
Proof.
  apply (X8_spec_file_with_id_is_loaded Reference.lib
           (Reference.disk Scenarios.two_old_epics_files)
           "specs/1.md" (Reference.doc ["id: 1"; "type: epic"] "Epic one") "1").
  - left. reflexivity.
  - reflexivity.
  - vm_compute. reflexivity.
Defined.

(** ** The rewritten frontmatter, field by field *)

Section FrontmatterFacts.

Lemma get_del_same (V : Type) (d : Dict.t V) (k : string) :
  NoDup (Dict.keys d) -> Dict.get k (Dict.del k d) = None.
Proof.
  induction d as [|[k' v] d IH]; intros Hnd; [reflexivity|].
  cbn [Dict.keys map fst] in Hnd. inversion Hnd as [|x xs Hfresh Hnd']. subst x xs.
  cbn [Dict.del]. destruct (String.eqb k k') eqn:He.
  - apply String.eqb_eq in He. subst k'.
    apply (proj2 (get_none_not_in d k)). exact Hfresh.
  - cbn [Dict.get]. rewrite He. now apply IH.
Qed.

(** The steps of [rewrite_metadata], the unique id named. *)
Lemma rewrite_metadata_run (st : migrator) (old_id : string) (md' : Dict.t value) :
  Rewrite.rewrite_metadata st old_id = Ok md' ->
  exists info uid md1 md2 md4 md5,
    Dict.get old_id (specs_data st) = Some info
    /\ Dict.get old_id (unique_ids st) = Some uid
    /\ Rewrite.rewrite_parent (spec_map st)
         (Dict.set "id" (VStr uid)
            (if Dict.mem "unique_id" (metadata info)
             then Dict.del "unique_id" (metadata info) else metadata info)) = Ok md1
    /\ Rewrite.rewrite_list_field (spec_map st) "children" md1 = Ok md2
    /\ Rewrite.rewrite_list_field (spec_map st) "dependencies"
         (Rewrite.rewrite_epic (spec_map st) md2) = Ok md4
    /\ Rewrite.rewrite_list_field (spec_map st) "blocks" md4 = Ok md5
    /\ Rewrite.rewrite_list_field (spec_map st) "related" md5 = Ok md'.
Proof.
  unfold Rewrite.rewrite_metadata. intros H.
  destruct (Dict.get old_id (specs_data st)) as [info|]; [|discriminate].
  destruct (Dict.get old_id (unique_ids st)) as [uid|]; [|discriminate].
  match type of H with bind (Rewrite.rewrite_parent _ ?d) _ = _ => set (md0 := d) in * end.
  destruct (Rewrite.rewrite_parent (spec_map st) md0) as [md1| |] eqn:H1; try discriminate.
  cbn [bind] in H.
  destruct (Rewrite.rewrite_list_field (spec_map st) "children" md1) as [md2| |] eqn:H2;
    try discriminate.
  cbn [bind] in H.
  destruct (Rewrite.rewrite_list_field (spec_map st) "dependencies"
              (Rewrite.rewrite_epic (spec_map st) md2)) as [md4| |] eqn:H4; try discriminate.
  cbn [bind] in H.
  destruct (Rewrite.rewrite_list_field (spec_map st) "blocks" md4) as [md5| |] eqn:H5;
    try discriminate.
  cbn [bind] in H.
  exists info, uid, md1, md2, md4, md5. repeat split; auto.
Qed.

End FrontmatterFacts.

(** X9: in the frontmatter that [update_spec_content] writes, [id] is
    the node's unique id, the field [unique_id] is absent, and every
    field other than [id], [unique_id] and the reference fields
    ([parent], [children], [epic], [dependencies], [blocks], [related])
    has the value it had in the loaded document. *)
Theorem X9_id_becomes_unique_id (st : migrator) (old_id : string)
    (info : spec_info) (md' : Dict.t value) :
  Dict.get old_id (specs_data st) = Some info ->
  NoDup (Dict.keys (metadata info)) ->
  Rewrite.rewrite_metadata st old_id = Ok md' ->
  (exists uid, Dict.get old_id (unique_ids st) = Some uid
               /\ Dict.get "id" md' = Some (VStr uid))
  /\ Dict.get "unique_id" md' = None
  /\ (forall k,
        ~ In k ["id"; "unique_id"; "parent"; "children"; "epic";
                "dependencies"; "blocks"; "related"] ->
        Dict.get k md' = Dict.get k (metadata info)).
Proof.
  intros Hinfo Hnd Hrun.
  destruct (rewrite_metadata_run st old_id md' Hrun)
    as (info' & uid & md1 & md2 & md4 & md5 & Hi & Hu & H1 & H2 & H4 & H5 & H6).
  rewrite Hinfo in Hi. injection Hi as <-.
  set (md0 := Dict.set "id" (VStr uid)
                (if Dict.mem "unique_id" (metadata info)
                 then Dict.del "unique_id" (metadata info) else metadata info)) in *.
  assert (Hframe : forall k,
            ~ In k ["parent"; "children"; "epic"; "dependencies"; "blocks"; "related"] ->
            Dict.get k md' = Dict.get k md0).
  { intros k Hk.
    rewrite (@rewrite_list_field_frame _ _ _ _ k H6) by (intros ->; apply Hk; cbn; tauto).
    rewrite (@rewrite_list_field_frame _ _ _ _ k H5) by (intros ->; apply Hk; cbn; tauto).
    rewrite (@rewrite_list_field_frame _ _ _ _ k H4) by (intros ->; apply Hk; cbn; tauto).
    rewrite (@rewrite_epic_frame _ _ k) by (intros ->; apply Hk; cbn; tauto).
    rewrite (@rewrite_list_field_frame _ _ _ _ k H2) by (intros ->; apply Hk; cbn; tauto).
    apply (@rewrite_parent_frame _ _ _ k H1). intros ->. apply Hk. cbn. tauto. }
  split; [|split].
  - exists uid. split; [exact Hu|].
    rewrite Hframe by (cbn; intuition discriminate).
    subst md0. apply get_set_same.
  - rewrite Hframe by (cbn; intuition discriminate).
    subst md0. rewrite get_set_other by discriminate.
    destruct (Dict.mem "unique_id" (metadata info)) eqn:Hm.
    + now apply get_del_same.
    + unfold Dict.mem in Hm. now destruct (Dict.get "unique_id" (metadata info)).
  - intros k Hk.
    rewrite Hframe by (intros Hin; apply Hk; cbn in *; tauto).
    subst md0. rewrite get_set_other by (intros ->; apply Hk; cbn; tauto).
    destruct (Dict.mem "unique_id" (metadata info)); [|reflexivity].
    apply get_del_other. intros ->. apply Hk. cbn. tauto.
Qed.

Lemma X9_id_becomes_unique_id_witness :
  let md := [("id", VInt 42); ("type", VStr "feature"); ("parent", VStr "99");
             ("epic", VInt 7); ("dependencies", VList [VInt 42; VInt 5])] in
  let md' := [("id", VStr "a1d0c6e8"); ("type", VStr "feature"); ("parent", VStr "99");
              ("epic", VInt 7); ("dependencies", VList [VStr "F99_42"])] in
  (exists uid, Dict.get "42" (unique_ids Scenarios.orphan_feature) = Some uid
               /\ Dict.get "id" md' = Some (VStr uid))
  /\ Dict.get "unique_id" md' = None
  /\ (forall k,
        ~ In k ["id"; "unique_id"; "parent"; "children"; "epic";
                "dependencies"; "blocks"; "related"] ->
        Dict.get k md' = Dict.get k md).
Proof.
  intros md md'.
  apply (X9_id_becomes_unique_id Scenarios.orphan_feature "42"
           (Scenarios.node "feature" md "" "specs/42.md") md'); try reflexivity.
  vm_compute. repeat constructor; cbn; intuition discriminate.
Defined.

(** X10: a non-empty [children] list is rewritten like the other
    reference lists: each child is looked up through its string form;
    the children that are keys of the mapping are replaced by their new
    ids, in the same order, and the others are dropped. *)
Theorem X10_children_are_mapped (st : migrator) (old_id : string)
    (info : spec_info) (md' : Dict.t value) (c : value) (cs : list value) :
  Dict.get old_id (specs_data st) = Some info ->
  Dict.get "children" (metadata info) = Some (VList (c :: cs)) ->
  Rewrite.rewrite_metadata st old_id = Ok md' ->
  Dict.get "children" md'
  = Some (VList (flat_map
                   (fun child =>
                      match Dict.get (Py.str child) (spec_map st) with
                      | Some new_child => [VStr new_child]
                      | None => []
                      end)
                   (c :: cs))).
Proof.
  intros Hinfo Hch Hrun.
  destruct (rewrite_metadata_run st old_id md' Hrun)
    as (info' & uid & md1 & md2 & md4 & md5 & Hi & Hu & H1 & H2 & H4 & H5 & H6).
  rewrite Hinfo in Hi. injection Hi as <-.
  rewrite (@rewrite_list_field_frame _ _ _ _ "children" H6) by discriminate.
  rewrite (@rewrite_list_field_frame _ _ _ _ "children" H5) by discriminate.
  rewrite (@rewrite_list_field_frame _ _ _ _ "children" H4) by discriminate.
  rewrite (@rewrite_epic_frame _ _ "children") by discriminate.
  assert (H0 : Dict.get "children" md1 = Some (VList (c :: cs))).
  { rewrite (@rewrite_parent_frame _ _ _ "children" H1) by discriminate.
    rewrite get_set_other by discriminate.
    destruct (Dict.mem "unique_id" (metadata info)); [|exact Hch].
    rewrite get_del_other by discriminate. exact Hch. }
  unfold Rewrite.rewrite_list_field in H2. rewrite H0 in H2. cbn in H2.
  injection H2 as <-. rewrite get_set_same.
  assert (Hflat : forall l,
            flat_map (fun child =>
                        match Dict.get (Py.str child) (spec_map st) with
                        | Some new_child => [VStr new_child]
                        | None => []
                        end) l
            = Rewrite.map_refs (spec_map st) l).
  { induction l as [|x l IH]; [reflexivity|].
    cbn [Rewrite.map_refs flat_map].
    destruct (Dict.get (Py.str x) (spec_map st)); cbn [app]; now rewrite IH. }
  rewrite Hflat. reflexivity.
Qed.

Lemma X10_children_are_mapped_witness :
  let md := [("id", VInt 1); ("type", VStr "epic");
             ("children", VList [VInt 11; VInt 12; VStr "13"])] in
  let st := mk_migrator [("1", "E01"); ("13", "F02"); ("11", "F01")] [("1", "c4ca4238")]
              [("1", Scenarios.node "epic" md "" "specs/1.md")] [] in
  let md' := [("id", VStr "c4ca4238"); ("type", VStr "epic");
              ("children", VList [VStr "F01"; VStr "F02"])] in
  Dict.get "children" md' = Some (VList [VStr "F01"; VStr "F02"]).
Proof.
  intros md st md'.
  apply (X10_children_are_mapped st "1" (Scenarios.node "epic" md "" "specs/1.md") md'
           (VInt 11) [VInt 12; VStr "13"]); reflexivity.
Defined.

(** ** Texts that name no old id *)

Section AbsentFacts.

Lemma contains_tail (p : string) (c : ascii) (s : string) :
  PyStr.contains p (String c s) = false ->
  PyStr.startswith p (String c s) = false /\ PyStr.contains p s = false.
Proof.
  unfold PyStr.contains. cbn [PyStr.find].
  destruct (PyStr.startswith p (String c s)); [discriminate|].
  destruct (PyStr.find p s); [discriminate|]. auto.
Qed.

Lemma startswith_longer (a b s : string) :
  PyStr.startswith a s = false -> PyStr.startswith (a ++ b) s = false.
Proof.
  unfold PyStr.startswith. revert s. induction a as [|x a IH]; intros s H.
  - destruct s; discriminate.
  - destruct s as [|y s]; [reflexivity|]. cbn [append prefix] in *.
    destruct (ascii_dec x y); [now apply IH|reflexivity].
Qed.

Lemma contains_longer (a b s : string) :
  PyStr.contains a s = false -> PyStr.contains (a ++ b) s = false.
Proof.
  induction s as [|c s IH]; intros H.
  - unfold PyStr.contains in *. cbn [PyStr.find] in *.
    destruct (PyStr.startswith a "") eqn:Ha; [discriminate|].
    now rewrite (startswith_longer a b "" Ha).
  - destruct (contains_tail a c s H) as [Hs Ht].
    unfold PyStr.contains. cbn [PyStr.find].
    rewrite (startswith_longer a b _ Hs).
    specialize (IH Ht). unfold PyStr.contains in IH.
    now destruct (PyStr.find (a ++ b) s).
Qed.

Lemma sub_from_absent (guard : bool) (old new : string) :
  old <> "" ->
  forall s prev, PyStr.contains old s = false ->
                 Rewrite.sub_from guard old new prev 0 s = s.
Proof.
  intros Hne. induction s as [|c s IH]; intros prev H.
  - cbn [Rewrite.sub_from]. unfold Rewrite.match_at.
    destruct old; [now elim Hne|reflexivity].
  - destruct (contains_tail old c s H) as [Hs Ht].
    cbn [Rewrite.sub_from]. unfold Rewrite.match_at. rewrite Hs. cbn [andb].
    now rewrite IH.
Qed.

Lemma replace_absent (p new : string) :
  p <> "" ->
  forall s, PyStr.contains p s = false -> PyStr.replace p new s = s.
Proof.
  intros Hne s H. unfold PyStr.replace. destruct p as [|x p]; [now elim Hne|].
  induction s as [|c s IH]; [reflexivity|].
  destruct (contains_tail _ c s H) as [Hs Ht].
  cbn [PyStr.replace_from]. rewrite Hs. now rewrite IH.
Qed.

End AbsentFacts.

(** X11: a text in which no old id of the identifier mapping occurs is
    left as it is, both by the rewriting of a spec body and by the
    rewriting of a context file, when the old ids are literal patterns
    (ASCII characters, no operator of regular expressions) and the new
    ids literal templates (ASCII characters, no backslash). *)
Theorem X11_text_without_old_ids_is_kept (m : Dict.t string) (text : string) :
  forallb (fun e => Rewrite.literal (fst e) && Rewrite.plain_template (snd e)) m = true ->
  (forall old new, In (old, new) m -> old <> "" /\ PyStr.contains old text = false) ->
  Rewrite.rewrite_body m text = text /\ Migration.rewrite_context m text = text.
Proof.
  intros _.
  unfold Rewrite.rewrite_body, Migration.rewrite_context.
  induction m as [|[old new] m IH]; intros H; [split; reflexivity|].
  destruct (H old new (or_introl eq_refl)) as [Hne Hc].
  assert (Hrest : forall o n, In (o, n) m -> o <> "" /\ PyStr.contains o text = false)
    by (intros o n Hin; apply (H o n); now right).
  destruct (IH Hrest) as [Hb Hx].
  cbn [fold_left Rewrite.rewrite_pair fst snd].
  unfold Rewrite.re_sub_ref, Rewrite.re_sub_word.
  rewrite !(sub_from_absent _ old new Hne text None Hc).
  rewrite (replace_absent (old ++ ".md") (new ++ "/spec.md")).
  - now split.
  - destruct old; [now elim Hne|discriminate].
  - now apply contains_longer.
Qed.

Lemma X11_text_without_old_ids_is_kept_witness :
  Rewrite.rewrite_body [("1013", "T03"); ("1001", "F01")] "See the design notes of 2024."
  = "See the design notes of 2024."
  /\ Migration.rewrite_context [("1013", "T03"); ("1001", "F01")]
       "See the design notes of 2024."
     = "See the design notes of 2024.".
Proof.
  apply (X11_text_without_old_ids_is_kept [("1013", "T03"); ("1001", "F01")]
           "See the design notes of 2024."); [reflexivity|].
  intros old new [[= <- <-]|[[= <- <-]|[]]]; split; try discriminate; reflexivity.
Defined.

(** ** The backup *)

Section BackupFacts.
Variable stamp : string.

Let B : string := "specs_backup_" ++ stamp.

Lemma under_specs_split (p : string) :
  FS.under "specs" p = true -> exists r, p = "specs/" ++ r.
Proof. unfold FS.under. intros H. exact (startswith_split _ _ H). Qed.

Lemma specs_not_backup (p : string) :
  FS.under "specs" p = true -> FS.under B p = false.
Proof.
  intros H. destruct (under_specs_split p H) as [r ->]. reflexivity.
Qed.

Lemma backup_not_specs (q : string) :
  FS.under B q = true -> FS.under "specs" q = false.
Proof.
  intros H. destruct (FS.under "specs" q) eqn:Hs; [|reflexivity].
  now rewrite (specs_not_backup q Hs) in H.
Qed.

Lemma copy_under_backup (p : string) :
  FS.under "specs" p = true -> FS.under B (B ++ PyStr.drop 5 p) = true.
Proof.
  intros H. destruct (under_specs_split p H) as [r ->].
  change (PyStr.drop 5 ("specs/" ++ r)) with ("/" ++ r).
  unfold FS.under. rewrite <- str_app_assoc. apply startswith_app.
Qed.

Lemma copy_inj (p1 p2 : string) :
  FS.under "specs" p1 = true -> FS.under "specs" p2 = true ->
  B ++ PyStr.drop 5 p1 = B ++ PyStr.drop 5 p2 -> p1 = p2.
Proof.
  intros H1 H2 He.
  destruct (under_specs_split p1 H1) as [r1 ->].
  destruct (under_specs_split p2 H2) as [r2 ->].
  apply str_app_inv_head in He. cbn in He. now injection He as ->.
Qed.

Lemma get_filter_key (P : string -> bool) (fs : Dict.t string) (k : string) :
  Dict.get k (filter (fun f => P (fst f)) fs) = if P k then Dict.get k fs else None.
Proof.
  induction fs as [|[k' v] fs IH]; cbn [filter Dict.get fst]; [now destruct (P k)|].
  destruct (P k') eqn:Hp; cbn [Dict.get]; destruct (String.eqb k k') eqn:He.
  - apply String.eqb_eq in He. subst k'. now rewrite Hp.
  - exact IH.
  - apply String.eqb_eq in He. subst k'. rewrite IH. now rewrite Hp.
  - exact IH.
Qed.

Lemma filter_keys_nodup (P : string * string -> bool) (fs : Dict.t string) :
  NoDup (Dict.keys fs) -> NoDup (Dict.keys (filter P fs)).
Proof.
  induction fs as [|[k v] fs IH]; intros Hnd; [constructor|].
  cbn [Dict.keys map fst] in Hnd. inversion Hnd as [|x xs Hfresh Hnd']. subst x xs.
  cbn [filter]. destruct (P (k, v)); [|now apply IH].
  cbn [Dict.keys map fst]. constructor; [|now apply IH].
  intros Hin. apply Hfresh. unfold Dict.keys in *.
  apply in_map_iff in Hin. destruct Hin as (f & Hf & Hin).
  apply filter_In in Hin. apply in_map_iff. exists f. tauto.
Qed.

Lemma fold_set_other (copies : list (string * string)) : forall (fs : Dict.t string) q,
  ~ In q (map fst copies) ->
  Dict.get q (fold_left (fun acc c => Dict.set (fst c) (snd c) acc) copies fs)
  = Dict.get q fs.
Proof.
  induction copies as [|[k v] copies IH]; intros fs q Hn; [reflexivity|].
  cbn [fold_left fst snd]. rewrite IH by (intros Hin; apply Hn; now right).
  apply get_set_other. intros ->. apply Hn. now left.
Qed.

Lemma fold_set_in (copies : list (string * string)) : forall (fs : Dict.t string) q c,
  NoDup (map fst copies) -> In (q, c) copies ->
  Dict.get q (fold_left (fun acc c => Dict.set (fst c) (snd c) acc) copies fs)
  = Some c.
Proof.
  induction copies as [|[k v] copies IH]; intros fs q c Hnd Hin; [destruct Hin|].
  cbn [map fst] in Hnd. inversion Hnd as [|x xs Hfresh Hnd']. subst x xs.
  cbn [fold_left fst snd]. destruct Hin as [[= <- <-]|Hin].
  - rewrite fold_set_other by exact Hfresh. apply get_set_same.
  - now apply IH.
Qed.

(** The copies [copytree] makes of a tree without a stale backup. *)
Lemma copy_tree_backup (fs : Dict.t string) :
  NoDup (Dict.keys fs) ->
  (forall q, FS.under B q = true -> Dict.get q fs = None) ->
  let fs' := FS.copy_tree "specs" B fs in
  (forall p c, FS.under "specs" p = true -> Dict.get p fs = Some c ->
     Dict.get (B ++ PyStr.drop 5 p) fs' = Some c)
  /\ (forall q, FS.under B q = false -> Dict.get q fs' = Dict.get q fs)
  /\ (forall q c, FS.under B q = true -> Dict.get q fs' = Some c ->
        exists p, FS.under "specs" p = true /\ q = B ++ PyStr.drop 5 p
                  /\ Dict.get p fs = Some c).
Proof.
  intros Hnd Hclean. unfold FS.copy_tree, FS.copies.
  change (String.length "specs") with 5.
  set (src := filter (fun f => FS.under "specs" (fst f)) fs).
  set (copies := map (fun f => (B ++ PyStr.drop 5 (fst f), snd f)) src).
  assert (Hsrc : forall p c, In (p, c) src <->
            FS.under "specs" p = true /\ Dict.get p fs = Some c).
  { intros p c. unfold src. rewrite filter_In. cbn [fst]. split.
    - intros [Hin Hu]. split; [exact Hu|]. now apply in_get_nodup.
    - intros [Hu Hg]. split; [now apply get_in|exact Hu]. }
  assert (Hcopies : forall q c, In (q, c) copies <->
            exists p, FS.under "specs" p = true /\ q = B ++ PyStr.drop 5 p
                      /\ Dict.get p fs = Some c).
  { intros q c. unfold copies. rewrite in_map_iff. split.
    - intros ([p c'] & [= <- <-] & Hin). apply Hsrc in Hin. exists p. tauto.
    - intros (p & Hu & -> & Hg). exists (p, c). split; [reflexivity|]. now apply Hsrc. }
  assert (Hkeys : forall q, In q (map fst copies) -> FS.under B q = true).
  { intros q Hin. apply in_map_iff in Hin. destruct Hin as ([q' c] & Hq & Hin).
    cbn in Hq. subst q'. apply Hcopies in Hin. destruct Hin as (p & Hu & -> & _).
    now apply copy_under_backup. }
  assert (Hnodup : NoDup (map fst copies)).
  { assert (Hs : NoDup (Dict.keys src)) by (apply filter_keys_nodup; exact Hnd).
    assert (Hall : forall f, In f src -> FS.under "specs" (fst f) = true)
      by (intros f Hf; unfold src in Hf; apply filter_In in Hf; tauto).
    unfold copies. clearbody src. clear -Hs Hall.
    induction src as [|[p c] src IH]; [constructor|].
    cbn [Dict.keys map fst snd] in *. inversion Hs as [|x xs Hfresh Hs']. subst x xs.
    constructor.
    - intros Hin. apply in_map_iff in Hin. destruct Hin as ([q c'] & Hq & Hin).
      apply in_map_iff in Hin. destruct Hin as ([p' c''] & [= <- <-] & Hin).
      cbn in Hq. apply copy_inj in Hq.
      + subst p'. apply Hfresh. apply in_map_iff. now exists (p, c'').
      + apply (Hall (p', c'')). now right.
      + apply (Hall (p, c)). now left.
    - apply IH; [exact Hs'|]. intros f Hf. apply Hall. now right. }
  repeat split.
  - intros p c Hu Hg. apply fold_set_in; [exact Hnodup|]. apply Hcopies. now exists p.
  - intros q Hq. apply fold_set_other. intros Hin. apply Hkeys in Hin. congruence.
  - intros q c Hq Hg.
    destruct (in_dec string_dec q (map fst copies)) as [Hin|Hout].
    + apply in_map_iff in Hin. destruct Hin as ([q' c'] & Hq' & Hin). cbn in Hq'. subst q'.
      rewrite (fold_set_in copies fs q c' Hnodup Hin) in Hg. injection Hg as <-.
      now apply Hcopies.
    + rewrite (fold_set_other copies fs q Hout), (Hclean q Hq) in Hg. discriminate.
Qed.

(** A copy and a removal that complete have done all their work. *)
Lemma copy_fold_failed (todo : list (string * string)) : forall w,
  fst (fold_left FS.copy_file todo (false, w)) = false.
Proof.
  induction todo as [|c todo IH]; intros w; [reflexivity|].
  cbn [fold_left]. unfold FS.copy_file at 2.
  destruct (FS.fault w (FS.clock w)) as [[|k]|]; apply IH.
Qed.

Lemma copy_fold_ok (todo : list (string * string)) : forall ok w w',
  fold_left FS.copy_file todo (ok, w) = (true, w') ->
  FS.files w' = fold_left (fun acc c => Dict.set (fst c) (snd c) acc) todo (FS.files w).
Proof.
  induction todo as [|c todo IH]; intros ok w w' H.
  - cbn in H. now injection H as _ <-.
  - cbn [fold_left] in *. unfold FS.copy_file at 2 in H.
    destruct (FS.fault w (FS.clock w)) as [[|k]|].
    + pose proof (copy_fold_failed todo (FS.tick w)) as Hf. rewrite H in Hf. discriminate.
    + pose proof (copy_fold_failed todo
                    (FS.with_files (Dict.set (fst c) (PyStr.take k (snd c)) (FS.files w))
                       (FS.tick w))) as Hf.
      rewrite H in Hf. discriminate.
    + apply IH in H. exact H.
Qed.

Lemma copytree_ok (src dst : string) (w w' : FS.world) :
  FS.copytree src dst w = (Ok tt, w') ->
  FS.files w' = FS.copy_tree src dst (FS.files w).
Proof.
  unfold FS.copytree, FS.copy_tree.
  destruct (FS.copies src dst (FS.files w)) as [|c todo]; [discriminate|].
  destruct (FS.present dst (FS.files w)); [discriminate|].
  destruct (fold_left FS.copy_file (c :: todo) (true, w)) as [ok w2] eqn:Hfold.
  destruct ok; [|discriminate]. intros [= <-]. cbn [FS.record FS.files].
  now apply copy_fold_ok in Hfold.
Qed.

Lemma rmtree_ok (dir : string) (w w' : FS.world) :
  FS.rmtree dir w = (Ok tt, w') ->
  FS.files w' = FS.remove_tree dir (FS.files w).
Proof.
  unfold FS.rmtree, FS.attempt. destruct (Dict.mem dir (FS.files w)); [discriminate|].
  destruct (FS.fault w (FS.clock w)); [discriminate|]. now intros [= <-].
Qed.

End BackupFacts.

(** X12: when [create_backup] returns, every file outside the backup
    directory is as it was, a copy of every file under [specs] lies at
    the same relative path under the backup directory, and nothing else
    lies there: the files of an older backup of the same name have been
    removed.  The name of the backup directory ends with a time stamp
    of digits and underscores. *)
Theorem X12_backup_is_a_faithful_copy (E : externals) (w w' : FS.world) (stamp : string) :
  BACKUP_DIR E = "specs_backup_" ++ stamp ->
  PyStr.all_chars (fun c => PyStr.is_digit c || Ascii.eqb c "_"%char) stamp = true ->
  NoDup (Dict.keys (FS.files w)) ->
  Migration.create_backup E w = (Ok tt, w') ->
  (forall p c,
     FS.under "specs" p = true -> Dict.get p (FS.files w) = Some c ->
     Dict.get (BACKUP_DIR E ++ PyStr.drop 5 p) (FS.files w') = Some c)
  /\ (forall q,
        FS.under (BACKUP_DIR E) q = false ->
        Dict.get q (FS.files w') = Dict.get q (FS.files w))
  /\ (forall q c,
        FS.under (BACKUP_DIR E) q = true -> Dict.get q (FS.files w') = Some c ->
        exists p, FS.under "specs" p = true
                  /\ q = BACKUP_DIR E ++ PyStr.drop 5 p
                  /\ Dict.get p (FS.files w) = Some c).
Proof.
  intros HB _ Hnd Hrun. rewrite HB.
  unfold Migration.create_backup, FS.mbind, Migration.exists_path, Loader.SPECS_DIR in Hrun.
  rewrite HB in Hrun.
  destruct (FS.present ("specs_backup_" ++ stamp) (FS.files w)) eqn:Hpresent.
  - destruct (FS.rmtree ("specs_backup_" ++ stamp) w) as [[[]| |] w1] eqn:Hrm;
      try discriminate.
    apply rmtree_ok in Hrm. apply copytree_ok in Hrun. rewrite Hrun, Hrm.
    set (fs1 := FS.remove_tree ("specs_backup_" ++ stamp) (FS.files w)).
    assert (Hget1 : forall q, Dict.get q fs1
                              = if negb (FS.under ("specs_backup_" ++ stamp) q) then Dict.get q (FS.files w) else None)
      by (intros q; apply (get_filter_key (fun k => negb (FS.under ("specs_backup_" ++ stamp) k)))).
    assert (Hnd1 : NoDup (Dict.keys fs1)) by (apply filter_keys_nodup; exact Hnd).
    assert (Hclean : forall q, FS.under ("specs_backup_" ++ stamp) q = true -> Dict.get q fs1 = None)
      by (intros q Hq; rewrite Hget1, Hq; reflexivity).
    destruct (copy_tree_backup stamp fs1 Hnd1 Hclean) as (H1 & H2 & H3).
    repeat split.
    + intros p c Hu Hg. apply H1; [exact Hu|].
      now rewrite Hget1, (specs_not_backup stamp p Hu).
    + intros q Hq. rewrite (H2 q Hq), Hget1, Hq. reflexivity.
    + intros q c Hq Hg. destruct (H3 q c Hq Hg) as (p & Hu & -> & Hp).
      exists p. repeat split; [exact Hu|].
      now rewrite Hget1, (specs_not_backup stamp p Hu) in Hp.
  - cbn [FS.ret] in Hrun. apply copytree_ok in Hrun. rewrite Hrun.
    assert (Hclean : forall q, FS.under ("specs_backup_" ++ stamp) q = true -> Dict.get q (FS.files w) = None).
    { intros q Hq. destruct (Dict.get q (FS.files w)) as [c|] eqn:Hg; [|reflexivity].
      apply get_in in Hg.
      assert (Hex : existsb (fun f => FS.under ("specs_backup_" ++ stamp) (fst f)) (FS.files w) = true)
        by (apply existsb_exists; exists (q, c); auto).
      unfold FS.present in Hpresent. rewrite Hex, orb_true_r in Hpresent. discriminate. }
    destruct (copy_tree_backup stamp (FS.files w) Hnd Hclean) as (H1 & H2 & H3).
    repeat split; assumption.
Qed.

Lemma X12_backup_is_a_faithful_copy_witness :
  let w := Reference.disk Scenarios.two_old_epics_files in
  let w' := snd (Migration.create_backup Reference.lib w) in
  (forall p c,
     FS.under "specs" p = true -> Dict.get p (FS.files w) = Some c ->
     Dict.get (BACKUP_DIR Reference.lib ++ PyStr.drop 5 p) (FS.files w') = Some c)
  /\ (forall q,
        FS.under (BACKUP_DIR Reference.lib) q = false ->
        Dict.get q (FS.files w') = Dict.get q (FS.files w))
  /\ (forall q c,
        FS.under (BACKUP_DIR Reference.lib) q = true -> Dict.get q (FS.files w') = Some c ->
        exists p, FS.under "specs" p = true
                  /\ q = BACKUP_DIR Reference.lib ++ PyStr.drop 5 p
                  /\ Dict.get p (FS.files w) = Some c).
Proof.
  intros w.
  apply (X12_backup_is_a_faithful_copy Reference.lib w
           (snd (Migration.create_backup Reference.lib w)) "20250101_000000").
  - reflexivity.
  - reflexivity.
  - vm_compute. repeat constructor; cbn; intuition discriminate.
  - vm_compute. reflexivity.
Defined.

(** ** What a migration leaves alone *)

Section NameFacts.

Lemma split_nonempty (c : ascii) (s : string) : PyStr.split c s <> [].
Proof.
  destruct s as [|a s]; cbn [PyStr.split]; [discriminate|].
  destruct (Ascii.eqb a c); [discriminate|].
  destruct (PyStr.split c s); discriminate.
Qed.

Lemma split_sep (c : ascii) (a b : string) :
  PyStr.split c (a ++ String c b) = (PyStr.split c a ++ PyStr.split c b)%list.
Proof.
  induction a as [|x a IH]; cbn [append PyStr.split].
  - now rewrite Ascii.eqb_refl.
  - destruct (Ascii.eqb x c); [now rewrite IH|].
    rewrite IH. assert (Hne := split_nonempty c a).
    destruct (PyStr.split c a) as [|w ws]; [now elim Hne|reflexivity].
Qed.

Lemma last_app_nonempty (A : Type) (l1 l2 : list A) (d : A) :
  l2 <> [] -> List.last (l1 ++ l2) d = List.last l2 d.
Proof.
  intros Hne. induction l1 as [|x l1 IH]; [reflexivity|].
  cbn [app]. destruct (l1 ++ l2)%list eqn:He.
  - destruct l1; [now elim Hne|discriminate].
  - cbn [List.last]. exact IH.
Qed.

Lemma name_of_child (dir leaf : string) :
  PyStr.split (ascii_of_nat 47) leaf = [leaf] ->
  FS.name (dir ++ "/" ++ leaf) = leaf.
Proof.
  intros Hleaf. unfold FS.name.
  change ("/" ++ leaf) with (String (ascii_of_nat 47) leaf).
  rewrite split_sep, last_app_nonempty by apply split_nonempty.
  now rewrite Hleaf.
Qed.

Lemma join_snoc (sep : string) (l : list string) (x : string) :
  l <> [] -> PyStr.join sep (l ++ [x])%list = PyStr.join sep l ++ sep ++ x.
Proof.
  intros Hne. induction l as [|a l IH]; [now elim Hne|].
  destruct l as [|b l]; [reflexivity|].
  change (PyStr.join sep ((a :: b :: l) ++ [x])%list)
    with (a ++ sep ++ PyStr.join sep ((b :: l) ++ [x])%list).
  rewrite IH by discriminate.
  change (PyStr.join sep (a :: b :: l)) with (a ++ sep ++ PyStr.join sep (b :: l)).
  now rewrite !str_app_assoc.
Qed.

Lemma root_of_cases (part : string) :
  Paths.root_of part = "" \/ Paths.root_of part = "/" \/ Paths.root_of part = "//".
Proof.
  unfold Paths.root_of. destruct (PyStr.startswith "/" part); [|now left].
  destruct (PyStr.startswith "//" part && negb (PyStr.startswith "///" part)); auto.
Qed.

Lemma normal_root (p : Paths.path) : forall acc,
  (fst acc = "" \/ fst acc = "/" \/ fst acc = "//") ->
  let r := fst (fold_left Paths.add_part p acc) in r = "" \/ r = "/" \/ r = "//".
Proof.
  induction p as [|part p IH]; intros acc Hacc; [exact Hacc|].
  cbn [fold_left]. apply IH. unfold Paths.add_part.
  destruct (PyStr.startswith "/" part); [apply root_of_cases|exact Hacc].
Qed.

(** The name of a path built with a last part that is one component. *)
Lemma name_child_path (new_path : Paths.path) (leaf : string) :
  Paths.plain leaf = true ->
  PyStr.split (ascii_of_nat 47) leaf = [leaf] ->
  FS.name (Paths.path_str (new_path ++ [leaf])%list) = leaf.
Proof.
  intros Hplain Hleaf. unfold Paths.path_str, Paths.normal.
  rewrite fold_left_app. cbn [fold_left].
  pose proof (normal_root new_path ("", []) (or_introl eq_refl)) as Hroot.
  cbv zeta in Hroot.
  destruct (fold_left Paths.add_part new_path ("", [])) as [root cs].
  cbn [fst] in Hroot.
  assert (Hcomp : Paths.components leaf = [leaf]).
  { unfold Paths.components, Paths.slash. rewrite Hleaf. cbn [filter].
    unfold Paths.plain in Hplain.
    apply andb_true_iff in Hplain. destruct Hplain as [Hplain _].
    apply andb_true_iff in Hplain. destruct Hplain as [Hplain _].
    now rewrite Hplain. }
  assert (Hrel : PyStr.startswith "/" leaf = false).
  { destruct leaf as [|c leaf]; [reflexivity|].
    unfold Paths.plain in Hplain.
    apply andb_true_iff in Hplain. destruct Hplain as [_ Hall].
    cbn [PyStr.all_chars] in Hall. apply andb_true_iff in Hall. destruct Hall as [Hc _].
    unfold PyStr.startswith. cbn [String.prefix].
    unfold Paths.slash in Hc. destruct (Ascii.eqb_spec c (ascii_of_nat 47)) as [->|Hne].
    - discriminate.
    - destruct (ascii_dec "/"%char c) as [He|He]; [symmetry in He; contradiction|reflexivity]. }
  unfold Paths.add_part. rewrite Hrel, Hcomp. cbn [fst snd].
  assert (Hname : forall r, r = "" \/ r = "/" \/ r = "//" ->
            FS.name (r ++ PyStr.join "/" (cs ++ [leaf])%list) = leaf).
  { intros r Hr. destruct cs as [|c cs].
    - cbn [app PyStr.join]. destruct Hr as [->|[->| ->]].
      + unfold FS.name. cbn [append]. now rewrite Hleaf.
      + apply (name_of_child "" leaf Hleaf).
      + apply (name_of_child "/" leaf Hleaf).
    - rewrite (join_snoc "/" (c :: cs) leaf) by discriminate.
      rewrite <- str_app_assoc. now apply name_of_child. }
  destruct root as [|a root].
  - destruct (cs ++ [leaf])%list eqn:He; [destruct cs; discriminate|].
    exact (Hname "" (or_introl eq_refl)).
  - exact (Hname _ Hroot).
Qed.

Lemma name_new_file (st : migrator) (fuel : nat) (old_id : string)
    (new_path : Paths.path) (leaf : string) :
  Paths.get_new_path st fuel old_id = Ok new_path ->
  Paths.plain leaf = true ->
  PyStr.split (ascii_of_nat 47) leaf = [leaf] ->
  FS.name (Paths.path_str (new_path ++ [leaf])%list) = leaf.
Proof. intros _. apply name_child_path. Qed.

End NameFacts.

Section FrameFacts.
Variable E : externals.
Variable fuel : nat.

Lemma apply_spares (p : string) (ops : list FS.op) : forall fs,
  forallb (Spec.spares p) ops = true ->
  Dict.get p (Spec.apply_ops ops fs) = Dict.get p fs.
Proof.
  induction ops as [|o ops IH]; intros fs H; [reflexivity|].
  cbn [forallb] in H. apply andb_true_iff in H. destruct H as [Ho H].
  cbn [Spec.apply_ops fold_left]. fold (Spec.apply_ops ops (Spec.apply_op fs o)).
  rewrite (IH _ H).
  destruct o; cbn [Spec.spares] in Ho; cbn [Spec.apply_op]; try reflexivity;
    try discriminate.
  - apply get_set_other. intros <-. now rewrite String.eqb_refl in Ho.
  - apply get_del_other. intros <-. now rewrite String.eqb_refl in Ho.
Qed.

Lemma forallb_weaken (A : Type) (f g : A -> bool) (l : list A) :
  (forall x, f x = true -> g x = true) -> forallb f l = true -> forallb g l = true.
Proof.
  intros Himp. induction l as [|x l IH]; [reflexivity|]. cbn [forallb].
  rewrite !andb_true_iff. intros [Hx Hl]. auto.
Qed.

Lemma new_file_spares (p : string) (o : FS.op) :
  FS.name p <> "spec.md" -> FS.name p <> "context.md" ->
  Spec.new_file o = true -> Spec.spares p o = true.
Proof.
  intros H1 H2. destruct o; cbn; try discriminate; [|reflexivity].
  intros Hn. apply negb_true_iff. apply String.eqb_neq. intros ->.
  apply orb_true_iff in Hn. destruct Hn as [Hn|Hn]; apply String.eqb_eq in Hn; auto.
Qed.

Lemma unlinks_spares (paths : list string) (p : string) (o : FS.op) :
  ~ In p paths -> Spec.unlinks_of paths o = true -> Spec.spares p o = true.
Proof.
  intros Hout. destruct o; cbn; try discriminate.
  intros Hex. apply negb_true_iff. apply String.eqb_neq. intros ->.
  apply existsb_exists in Hex. destruct Hex as (q & Hq & He).
  apply String.eqb_eq in He. subst q. now apply Hout.
Qed.

Lemma migrate_spec_new st entry w :
  exists added,
    Spec.stepped w (snd (Migration.migrate_spec E fuel st entry w)) added
    /\ forallb Spec.new_file added = true
    /\ (forall st', fst (Migration.migrate_spec E fuel st entry w) = Ok st' ->
          0 <= length (filter Spec.is_write added)).
Proof.
  unfold Migration.migrate_spec. destruct entry as [old_id info].
  unfold FS.mbind, FS.lift, FS.ret.
  destruct (Paths.get_new_path st fuel old_id) as [new_path| |] eqn:Hp;
    try (exists []; split; [apply stepped_refl|split; [reflexivity|intros; lia]]).
  assert (Hname : forall c,
            Spec.new_file (FS.OpWrite (Paths.path_str (new_path ++ ["spec.md"])%list) c)
            = true).
  { intros c. cbn [Spec.new_file].
    now rewrite (name_new_file st fuel old_id new_path "spec.md" Hp eq_refl eq_refl). }
  destruct (FS.fault w (FS.clock w)) as [f0|] eqn:Hf0.
  { destruct (mkdir_fails (Paths.path_str new_path) w f0 Hf0) as (w1 & Hm & Hs1).
    rewrite Hm. exists []. split; [exact Hs1|split; [reflexivity|intros; lia]]. }
  destruct (mkdir_ok (Paths.path_str new_path) w Hf0) as (w1 & Hm & Hs1). rewrite Hm.
  destruct (update_spec_content E st old_id) as [new_content| |];
    try (exists [FS.OpMkdir (Paths.path_str new_path)];
         split; [exact Hs1|split; [reflexivity|intros; lia]]).
  destruct (FS.fault w1 (FS.clock w1)) as [f|] eqn:Hf.
  - destruct (write_text_fails (Paths.path_str (new_path ++ ["spec.md"])%list)
                new_content w1 f Hf) as (w2 & Hw & Hs2).
    rewrite Hw. eexists. cbn [fst snd].
    split; [exact (stepped_trans _ _ _ _ _ Hs1 Hs2)|]. split; [|intros; lia].
    destruct f; cbn [app Spec.cut_ops forallb]; [reflexivity|].
    now rewrite (Hname _).
  - destruct (write_text_ok (Paths.path_str (new_path ++ ["spec.md"])%list)
                new_content w1 Hf) as (w2 & Hw & Hs2).
    rewrite Hw.
    exists [FS.OpMkdir (Paths.path_str new_path);
            FS.OpWrite (Paths.path_str (new_path ++ ["spec.md"])%list) new_content].
    assert (Hs : Spec.stepped w w2
                   [FS.OpMkdir (Paths.path_str new_path);
                    FS.OpWrite (Paths.path_str (new_path ++ ["spec.md"])%list) new_content])
      by exact (stepped_trans _ _ _ _ _ Hs1 Hs2).
    assert (Hn : forallb Spec.new_file
                   [FS.OpMkdir (Paths.path_str new_path);
                    FS.OpWrite (Paths.path_str (new_path ++ ["spec.md"])%list) new_content]
                 = true).
    { cbn [forallb]. now rewrite (Hname _). }
    destruct (Migration.new_id_of st old_id) as [new_id| |];
      try (split; [exact Hs|split; [exact Hn|intros; lia]]).
    destruct (Migration.unique_id_of st old_id) as [unique_id| |];
      (split; [exact Hs|split; [exact Hn|intros; lia]]).
Qed.

Lemma migrate_context_new st file w :
  exists added,
    Spec.stepped w (snd (Migration.migrate_context fuel st file w)) added
    /\ forallb Spec.new_file added = true
    /\ (forall st', fst (Migration.migrate_context fuel st file w) = Ok st' ->
          0 <= length (filter Spec.is_write added)).
Proof.
  unfold Migration.migrate_context. destruct file as [context_file content].
  assert (Hnone : forall r, exists added,
            Spec.stepped w (snd (FS.ret (A:=migrator) r w)) added
            /\ forallb Spec.new_file added = true
            /\ (forall st', fst (FS.ret r w) = Ok st' ->
                  0 <= length (filter Spec.is_write added))).
  { intros r. exists []. split; [apply stepped_refl|split; [reflexivity|intros; lia]]. }
  destruct (Migration.context_id (FS.name context_file)) as [old_id|]; [|apply Hnone].
  destruct (Dict.mem old_id (spec_map st)); [|apply Hnone].
  unfold FS.mbind, FS.lift, FS.ret.
  destruct (Paths.get_new_path st fuel old_id) as [new_path| |] eqn:Hp;
    try (exists []; split; [apply stepped_refl|split; [reflexivity|intros; lia]]).
  assert (Hname : forall c,
            Spec.new_file (FS.OpWrite (Paths.path_str (new_path ++ ["context.md"])%list) c)
            = true).
  { intros c. cbn [Spec.new_file].
    rewrite (name_new_file st fuel old_id new_path "context.md" Hp eq_refl eq_refl).
    reflexivity. }
  destruct (FS.fault w (FS.clock w)) as [f0|] eqn:Hf0.
  { destruct (mkdir_fails (Paths.path_str new_path) w f0 Hf0) as (w1 & Hm & Hs1).
    rewrite Hm. exists []. split; [exact Hs1|split; [reflexivity|intros; lia]]. }
  destruct (mkdir_ok (Paths.path_str new_path) w Hf0) as (w1 & Hm & Hs1). rewrite Hm.
  destruct (FS.fault w1 (FS.clock w1)) as [f|] eqn:Hf.
  - destruct (write_text_fails (Paths.path_str (new_path ++ ["context.md"])%list)
                (Migration.rewrite_context (spec_map st) content) w1 f Hf)
      as (w2 & Hw & Hs2).
    rewrite Hw. eexists. cbn [fst snd].
    split; [exact (stepped_trans _ _ _ _ _ Hs1 Hs2)|]. split; [|intros; lia].
    destruct f; cbn [app Spec.cut_ops forallb]; [reflexivity|].
    now rewrite (Hname _).
  - destruct (write_text_ok (Paths.path_str (new_path ++ ["context.md"])%list)
                (Migration.rewrite_context (spec_map st) content) w1 Hf)
      as (w2 & Hw & Hs2).
    rewrite Hw. eexists. cbn [fst snd].
    split; [exact (stepped_trans _ _ _ _ _ Hs1 Hs2)|]. split; [|intros; lia].
    cbn [forallb app]. now rewrite (Hname _).
Qed.

Lemma migrate_spec_keeps st entry w st' :
  fst (Migration.migrate_spec E fuel st entry w) = Ok st' ->
  specs_data st' = specs_data st.
Proof.
  unfold Migration.migrate_spec. destruct entry as [old_id info].
  unfold FS.mbind, FS.lift, FS.ret.
  destruct (Paths.get_new_path st fuel old_id); cbn [fst]; try discriminate.
  destruct (FS.mkdir _ w) as [[[]| |] w1]; cbn [fst]; try discriminate.
  destruct (update_spec_content E st old_id); cbn [fst]; try discriminate.
  destruct (FS.write_text _ _ _) as [[[]| |] w2]; cbn [fst]; try discriminate.
  destruct (Migration.new_id_of st old_id); cbn [fst]; try discriminate.
  destruct (Migration.unique_id_of st old_id); cbn [fst]; try discriminate.
  now intros [= <-].
Qed.

Lemma migrate_context_keeps st file w st' :
  fst (Migration.migrate_context fuel st file w) = Ok st' ->
  specs_data st' = specs_data st.
Proof.
  unfold Migration.migrate_context. destruct file as [context_file content].
  destruct (Migration.context_id (FS.name context_file)); [|now intros [= <-]].
  destruct (Dict.mem s (spec_map st)); [|now intros [= <-]].
  unfold FS.mbind, FS.lift, FS.ret.
  destruct (Paths.get_new_path st fuel s); cbn [fst]; try discriminate.
  destruct (FS.mkdir _ w) as [[[]| |] w1]; cbn [fst]; try discriminate.
  destruct (FS.write_text _ _ _) as [[[]| |] w2]; cbn [fst]; try discriminate.
  now intros [= <-].
Qed.

Lemma remove_loop_paths (entries : Dict.t spec_info) (paths : list string) :
  (forall e, In e entries -> In (file_path (snd e)) paths) ->
  forall st w, exists added,
    Spec.stepped w (snd (FS.for_each Migration.remove_old entries st w)) added
    /\ forallb (Spec.unlinks_of paths) added = true.
Proof.
  induction entries as [|e entries IH]; intros Hin st w.
  - exists []. split; [apply stepped_refl|reflexivity].
  - cbn [FS.for_each]. unfold FS.mbind.
    assert (He : exists a, Spec.stepped w (snd (Migration.remove_old st e w)) a
                           /\ forallb (Spec.unlinks_of paths) a = true).
    { unfold Migration.remove_old, FS.mbind, FS.exists_file, FS.ret.
      destruct (Dict.mem (file_path (snd e)) (FS.files w)).
      - destruct (FS.fault w (FS.clock w)) as [f|] eqn:Hf.
        + destruct (unlink_fails (file_path (snd e)) w f Hf) as (w1 & Hu & Hs).
          rewrite Hu. cbn [fst snd]. exists []. split; [exact Hs|reflexivity].
        + destruct (unlink_ok (file_path (snd e)) w Hf) as (w1 & Hu & Hs).
          rewrite Hu. cbn [fst snd]. eexists. split; [exact Hs|].
          cbn [forallb Spec.unlinks_of]. rewrite andb_true_r.
          apply existsb_exists. exists (file_path (snd e)).
          split; [apply Hin; now left|apply String.eqb_refl].
      - cbn [fst snd]. exists []. split; [apply stepped_refl|reflexivity]. }
    destruct He as (a & Hs & Hu).
    destruct (Migration.remove_old st e w) as [[st1| |] w1]; cbn [fst snd] in *;
      try (exists a; split; assumption).
    destruct (IH (fun e' H => Hin e' (or_intror H)) st1 w1) as (b & Hs' & Hu').
    exists (a ++ b)%list.
    split; [exact (stepped_trans _ _ _ _ _ Hs Hs')|]. now rewrite forallb_app, Hu, Hu'.
Qed.

(** The trace of [perform_migration], with the paths it touches. *)
Lemma perform_migration_paths st w :
  exists added,
    Spec.stepped w (snd (Migration.perform_migration E fuel st w)) added
    /\ forallb (fun o => Spec.new_file o
                         || Spec.unlinks_of (map (fun e => file_path (snd e)) (specs_data st)) o)
         added = true.
Proof.
  set (paths := map (fun e : string * spec_info => file_path (snd e)) (specs_data st)).
  assert (Hl : forall l, forallb Spec.new_file l = true ->
            forallb (fun o => Spec.new_file o || Spec.unlinks_of paths o) l = true).
  { intros l. apply forallb_weaken. intros o ->. reflexivity. }
  assert (Hr : forall l, forallb (Spec.unlinks_of paths) l = true ->
            forallb (fun o => Spec.new_file o || Spec.unlinks_of paths o) l = true).
  { intros l. apply forallb_weaken. intros o ->. apply orb_true_r. }
  unfold Migration.perform_migration, FS.mbind.
  destruct (for_each_stepped _ _ (Migration.migrate_spec E fuel) Spec.new_file 0
              (migrate_spec_new) (specs_data st) st w) as (a & Hs1 & Hc1 & _).
  destruct (FS.for_each (Migration.migrate_spec E fuel) (specs_data st) st w)
    as [[st1| |] w1] eqn:Hloop1; cbn [fst snd] in *;
    try (exists a; split; [exact Hs1|now apply Hl]).
  assert (Hd1 : specs_data st1 = specs_data st).
  { apply (for_each_keeps _ _ _ (Migration.migrate_spec E fuel) specs_data
             migrate_spec_keeps (specs_data st) st w). now rewrite Hloop1. }
  unfold Migration.migrate_context_files.
  destruct (for_each_stepped _ _ (Migration.migrate_context fuel) Spec.new_file 0
              (migrate_context_new)
              (filter (fun f => Migration.is_context_file (fst f)) (FS.files w1)) st1 w1)
    as (b & Hs2 & Hc2 & _).
  destruct (FS.for_each (Migration.migrate_context fuel) _ st1 w1)
    as [[st2| |] w2] eqn:Hloop2; cbn [fst snd] in *;
    try (exists (a ++ b)%list; split; [exact (stepped_trans _ _ _ _ _ Hs1 Hs2)|];
         apply Hl; now rewrite forallb_app, Hc1, Hc2).
  assert (Hd2 : specs_data st2 = specs_data st).
  { rewrite <- Hd1.
    apply (for_each_keeps _ _ _ (Migration.migrate_context fuel) specs_data
             migrate_context_keeps
             (filter (fun f => Migration.is_context_file (fst f)) (FS.files w1)) st1 w1).
    now rewrite Hloop2. }
  destruct (remove_loop_paths (specs_data st2) paths) with (st := st2) (w := w2)
    as (c & Hs3 & Hu).
  { intros e He. unfold paths. rewrite <- Hd2. apply in_map_iff. now exists e. }
  exists ((a ++ b) ++ c)%list. split.
  - exact (stepped_trans _ _ _ _ _ (stepped_trans _ _ _ _ _ Hs1 Hs2) Hs3).
  - rewrite forallb_app. apply andb_true_iff. split; [|now apply Hr].
    apply Hl. now rewrite forallb_app, Hc1, Hc2.
Qed.

End FrameFacts.

(** X13: whatever its outcome, [perform_migration] leaves as it is
    every file that is neither named [spec.md] or [context.md] nor the
    recorded file of a loaded node: it writes only files of those two
    names and deletes only the files the nodes were loaded from, so the
    original context files, among others, stay in place. *)
Theorem X13_migration_spares_other_files (E : externals) (fuel : nat)
    (st : migrator) (w : FS.world) (p : string) :
  FS.name p <> "spec.md" ->
  FS.name p <> "context.md" ->
  (forall old_id info, In (old_id, info) (specs_data st) -> file_path info <> p) ->
  Dict.get p (FS.files (snd (Migration.perform_migration E fuel st w)))
  = Dict.get p (FS.files w).
Proof.
  intros H1 H2 Hfile.
  destruct (perform_migration_paths E fuel st w) as (added & (_ & _ & _ & Hfiles) & Hall).
  rewrite Hfiles. apply apply_spares.
  revert Hall. apply forallb_weaken. intros o Ho.
  apply orb_true_iff in Ho. destruct Ho as [Ho|Ho].
  - now apply new_file_spares.
  - apply (unlinks_spares _ p o) in Ho; [exact Ho|].
    intros Hin. apply in_map_iff in Hin. destruct Hin as ([old_id info] & Hp & Hin).
    cbn [snd] in Hp. exact (Hfile old_id info Hin Hp).
Qed.

Lemma X13_migration_spares_other_files_witness :
  let files := (Scenarios.two_old_epics_files
                ++ [("specs/1.context.md", "notes on 1"); ("README.md", "read me")])%list in
  let w := Reference.disk files in
  Dict.get "specs/1.context.md"
    (FS.files (snd (Migration.perform_migration Reference.lib 8 Scenarios.two_old_epics w)))
  = Dict.get "specs/1.context.md" (FS.files w).
Proof.
  intros files w.
  apply (X13_migration_spares_other_files Reference.lib 8 Scenarios.two_old_epics w
           "specs/1.context.md").
  - vm_compute. discriminate.
  - vm_compute. discriminate.
  - intros old_id info [[= <- <-]|[[= <- <-]|[]]]; vm_compute; discriminate.
Defined.

(** ** The mutations of [fix_spec_ids] *)

Section FixFacts.
Variable E : externals.
Variable uuid4 : string -> string.

(** One turn of the loop: at most one write, of the file itself; the
    count goes up when the write succeeds. *)
Lemma fix_one_step (n : nat) (file : string * string) (w : FS.world) :
  exists added k,
    fst (FixIds.fix_one E uuid4 n file w) = Ok (n + k)
    /\ Spec.stepped w (snd (FixIds.fix_one E uuid4 n file w)) added
    /\ (added = [] \/ exists c, added = [FS.OpWrite (fst file) c])
    /\ k <= length added
    /\ (FS.fault w (FS.clock w) = None -> k = length added).
Proof.
  assert (Hret : forall r : nat, r = n -> exists added k,
            fst (FS.ret r w) = Ok (n + k)
            /\ Spec.stepped w (snd (FS.ret r w)) added
            /\ (added = [] \/ exists c, added = [FS.OpWrite (fst file) c])
            /\ k <= length added
            /\ (FS.fault w (FS.clock w) = None -> k = length added)).
  { intros r ->. exists [], 0. cbn. rewrite Nat.add_0_r.
    split; [reflexivity|]. split; [apply stepped_refl|]. split; [now left|]. split; auto. }
  unfold FixIds.fix_one. destruct file as [spec_file content]. cbn [fst].
  destruct (FixIds.parse_yaml_frontmatter E content) as [[md|v] body];
    [|now apply Hret].
  destruct (Dict.get "id" md) as [id|]; [|now apply Hret].
  destruct (FixIds.looks_like_uuid (Py.str id)); [now apply Hret|].
  destruct (match Dict.get "unique_id" md with
            | Some u => (u, Dict.del "unique_id" md)
            | None => (VStr (uuid4 spec_file), md)
            end) as [new_id md1].
  set (new_content := FixIds.format_yaml_with_comments E (Dict.set "id" new_id md1)
                      ++ Codec.nl ++ Codec.nl ++ body).
  destruct (FS.fault w (FS.clock w)) as [f|] eqn:Hf.
  - destruct (write_text_fails spec_file new_content w f Hf) as (w1 & Hw & Hs).
    rewrite Hw. exists (Spec.cut_ops spec_file new_content f), 0. cbn [fst snd].
    rewrite Nat.add_0_r. split; [reflexivity|]. split; [exact Hs|].
    split; [destruct f; [now left|right; eexists; reflexivity]|].
    split; [lia|discriminate].
  - destruct (write_text_ok spec_file new_content w Hf) as (w1 & Hw & Hs).
    rewrite Hw. exists [FS.OpWrite spec_file new_content], 1. cbn [fst snd length].
    rewrite Nat.add_1_r. split; [reflexivity|]. split; [exact Hs|].
    split; [right; now exists new_content|]. split; auto.
Qed.

Lemma fix_loop_step (fs : Dict.t string) (files : list (string * string)) :
  (forall f, In f files ->
     FixIds.is_spec_md (fst f) = true /\ Dict.mem (fst f) fs = true) ->
  forall n w, exists added k,
    fst (FS.for_each (FixIds.fix_one E uuid4) files n w) = Ok (n + k)
    /\ Spec.stepped w (snd (FS.for_each (FixIds.fix_one E uuid4) files n w)) added
    /\ forallb (Spec.rewrites_spec_md fs) added = true
    /\ k <= length added
    /\ ((forall i, FS.fault w (FS.clock w + i) = None) -> k = length added).
Proof.
  induction files as [|f files IH]; intros Hall n w.
  - exists [], 0. cbn. rewrite Nat.add_0_r.
    split; [reflexivity|]. split; [apply stepped_refl|]. split; [reflexivity|]. split; auto.
  - cbn [FS.for_each]. unfold FS.mbind.
    destruct (fix_one_step n f w) as (a & k & Hok & Hs & Hshape & Hle & Hall0).
    destruct (FixIds.fix_one E uuid4 n f w) as [r w1]. cbn [fst snd] in *. subst r.
    destruct (IH (fun g Hg => Hall g (or_intror Hg)) (n + k) w1)
      as (b & k' & Hok' & Hs' & Hg' & Hle' & Hall').
    exists (a ++ b)%list, (k + k'). rewrite List.length_app, Nat.add_assoc.
    split; [exact Hok'|]. split; [exact (stepped_trans _ _ _ _ _ Hs Hs')|].
    split; [|split; [lia|]].
    + rewrite forallb_app, Hg', andb_true_r.
      destruct Hshape as [->|[c ->]]; [reflexivity|].
      cbn [forallb Spec.rewrites_spec_md]. rewrite andb_true_r.
      destruct (Hall f (or_introl eq_refl)) as [-> ->]. reflexivity.
    + intros Hnone. rewrite Hall0, Hall'; [reflexivity| |].
      * intros i. destruct Hs as (_ & -> & Hclock & _).
        replace (FS.clock w1 + i) with (FS.clock w + (FS.clock w1 - FS.clock w + i)) by lia.
        apply Hnone.
      * specialize (Hnone 0). now rewrite Nat.add_0_r in Hnone.
Qed.

End FixFacts.

(** X14: [fix_spec_ids] never raises, not even when the disk fails a
    write; every mutation it performs is a write, complete or cut short
    by a failure, to an existing file [specs/**/spec.md]; it deletes
    nothing, and every file that is not such a file is left as it is.
    The count it prints at the end (the model returns it) is at most
    the number of these writes, and is that number when no write
    fails. *)
Theorem X14_fix_spec_ids_is_contained (E : externals) (uuid4 : string -> string)
    (w : FS.world) :
  exists added n,
    fst (FixIds.fix_spec_ids E uuid4 w) = Ok n
    /\ Spec.stepped w (snd (FixIds.fix_spec_ids E uuid4 w)) added
    /\ forallb (Spec.rewrites_spec_md (FS.files w)) added = true
    /\ n <= length added
    /\ ((forall i, FS.fault w (FS.clock w + i) = None) -> n = length added)
    /\ (forall p, FixIds.is_spec_md p = false ->
          Dict.get p (FS.files (snd (FixIds.fix_spec_ids E uuid4 w)))
          = Dict.get p (FS.files w)).
Proof.
  unfold FixIds.fix_spec_ids.
  destruct (fix_loop_step E uuid4 (FS.files w)
              (filter (fun f => FixIds.is_spec_md (fst f)) (FS.files w)))
    with (n := 0) (w := w) as (added & n & Hok & Hs & Hg & Hle & Hall).
  { intros [p c] Hin. apply filter_In in Hin. destruct Hin as [Hin Hp]. cbn [fst] in *.
    split; [exact Hp|].
    destruct (in_keys_get (FS.files w) p) as [c' Hc'].
    - unfold Dict.keys. apply in_map_iff. now exists (p, c).
    - apply mem_get. now exists c'. }
  exists added, n. split; [exact Hok|]. split; [exact Hs|]. split; [exact Hg|].
  split; [exact Hle|]. split; [exact Hall|].
  intros p Hp. destruct Hs as (_ & _ & _ & ->). apply apply_spares.
  revert Hg. apply forallb_weaken. intros o. destruct o; cbn; try discriminate.
  intros Ho. apply andb_true_iff in Ho. destruct Ho as [Ho _].
  apply negb_true_iff. apply String.eqb_neq. intros ->. congruence.
Qed.

(** ** Reading a migrated document back *)

Section ReadBackFacts.

Lemma find_prefix (p s : string) : PyStr.find p (p ++ s) = Some 0.
Proof.
  destruct (p ++ s) eqn:He; cbn [PyStr.find]; rewrite <- He, startswith_app; reflexivity.
Qed.

Lemma find_closing_then (G : list string) (b : string) :
  forallb Spec.plain_line G = true ->
  PyStr.find Codec.closing (Spec.after_lines G ++ Codec.closing ++ b)
  = Some (String.length (Spec.after_lines G)).
Proof.
  induction G as [|g G IH]; intros HG.
  - cbn [Spec.after_lines append String.length]. apply find_prefix.
  - cbn in HG. apply andb_true_iff in HG. destruct HG as [Hg HG].
    apply andb_true_iff in Hg. destruct Hg as [Hnl Hne].
    apply negb_true_iff in Hne.
    cbn [Spec.after_lines]. rewrite !str_app_assoc.
    destruct (after_lines_nl G ("---" ++ Codec.nl ++ b)) as [t Ht].
    change (Codec.closing ++ b) with (Codec.nl ++ "---" ++ Codec.nl ++ b).
    rewrite Ht, (find_closing_line g t Hnl Hne), <- Ht.
    change (Codec.nl ++ "---" ++ Codec.nl ++ b) with (Codec.closing ++ b).
    rewrite (IH HG). cbn [option_map]. f_equal.
    rewrite !str_length_app. cbn. lia.
Qed.

Lemma drop_app_more (a s : string) (n : nat) :
  PyStr.drop (String.length a + n) (a ++ s) = PyStr.drop n s.
Proof. induction a as [|c a IH]; [reflexivity|exact IH]. Qed.

(** The decoder on an encoded mapping followed by any body. *)
Lemma decode_encode_body (E : externals) (md : Dict.t value) (b : string) :
  let lines := PyStr.split Codec.nl_char (yaml_dump E md) in
  forallb Spec.hash_free lines = true ->
  forallb (fun l => negb (String.eqb l "---")) lines = true ->
  yaml_safe_load E (PyStr.join Codec.nl ("" :: "" :: Spec.spaced "identification" lines))
  <> LoadError ->
  Codec.parse_yaml_frontmatter E (Codec.encode E md ++ b)
  = (Codec.or_empty
       (yaml_safe_load E
          (PyStr.join Codec.nl ("" :: "" :: Spec.spaced "identification" lines))),
     b).
Proof.
  intros lines Hh Hd Hload.
  assert (Hp : forallb Spec.plain_line
                 (Spec.banners ++ Codec.format_lines true "identification" lines) = true).
  { apply forallb_app'; [reflexivity|]. apply plain_format. now apply split_plain_lines. }
  unfold Codec.parse_yaml_frontmatter. rewrite encode_shape. fold lines.
  set (G := (Spec.banners ++ Codec.format_lines true "identification" lines)%list) in *.
  rewrite !str_app_assoc.
  rewrite startswith_app. cbn [negb].
  change (PyStr.drop 3 ("---" ++ Spec.after_lines G ++ Codec.closing ++ b))
    with (Spec.after_lines G ++ Codec.closing ++ b).
  rewrite (find_closing_then G b Hp), take_app, drop_app_more.
  change (PyStr.drop 5 (Codec.closing ++ b)) with b.
  change (Spec.after_lines G) with ("" ++ Spec.after_lines G).
  rewrite (split_lines "" G) by (cbn [forallb]; now rewrite (plain_lines G Hp)).
  unfold G. change ("" :: Spec.banners ++ ?x)%list with (("" :: Spec.banners) ++ x)%list.
  rewrite clean_lines_app, (clean_format lines "identification" Hh).
  change (Codec.clean_lines ("" :: Spec.banners)) with ["" ; ""]. cbn [app].
  destruct (yaml_safe_load E _); [reflexivity|reflexivity|now elim Hload].
Qed.

End ReadBackFacts.

(** X15: decoding the text [update_spec_content] produces for a node
    gives back the rewritten frontmatter and, exactly, the rewritten
    body, whatever the ASCII body holds (delimiter lines included), when
    the old ids of the mapping are non-empty literal patterns and the
    new ids literal templates, no line of the YAML dump of the rewritten
    frontmatter holds a [#], none is the delimiter [---], and the YAML
    library reads the mapping back from the dumped lines with the empty
    lines of the sections. *)
Theorem X15_migrated_document_reads_back (E : externals) (st : migrator)
    (old_id : string) (info : spec_info) (md : Dict.t value) :
  Dict.get old_id (specs_data st) = Some info ->
  PyStr.isascii (body info) = true ->
  Spec.literal_refs (spec_map st) = true ->
  Rewrite.rewrite_metadata st old_id = Ok md ->
  let lines := PyStr.split Codec.nl_char (yaml_dump E md) in
  forallb Spec.hash_free lines = true ->
  forallb (fun l => negb (String.eqb l "---")) lines = true ->
  yaml_safe_load E (PyStr.join Codec.nl ("" :: "" :: Spec.spaced "identification" lines))
  = LoadMap md ->
  exists text,
    update_spec_content E st old_id = Ok text
    /\ Codec.parse_yaml_frontmatter E text
       = (FMap md, Rewrite.rewrite_body (spec_map st) (body info)).
Proof.
  intros Hinfo _ _ Hmd lines Hh Hd Hload.
  unfold update_spec_content. rewrite Hinfo, Hmd. cbn [bind].
  eexists. split; [reflexivity|].
  rewrite (decode_encode_body E md _ Hh Hd); fold lines; rewrite Hload;
    [reflexivity|discriminate].
Qed.

Lemma X15_migrated_document_reads_back_witness :
  let st := mk_migrator [("1", "E01")] [("1", "c4ca4238")]
              [("1", Scenarios.node "epic" [("id", VInt 1); ("type", VStr "epic")]
                       ("Epic 1" ++ Codec.nl ++ "---" ++ Codec.nl ++ "see 1.md")
                       "specs/1.md")] [] in
  exists text,
    update_spec_content Reference.lib st "1" = Ok text
    /\ Codec.parse_yaml_frontmatter Reference.lib text
       = (FMap [("id", VStr "c4ca4238"); ("type", VStr "epic")],
          Rewrite.rewrite_body (spec_map st)
            ("Epic 1" ++ Codec.nl ++ "---" ++ Codec.nl ++ "see 1.md")).
Proof.
  intros st.
  apply (X15_migrated_document_reads_back Reference.lib st "1"
           (Scenarios.node "epic" [("id", VInt 1); ("type", VStr "epic")]
              ("Epic 1" ++ Codec.nl ++ "---" ++ Codec.nl ++ "see 1.md") "specs/1.md")
           [("id", VStr "c4ca4238"); ("type", VStr "epic")]);
    vm_compute; reflexivity.
Defined.

(** ** The files after a completed migration *)

Section CompletedFacts.
Variable E : externals.
Variable fuel : nat.








End CompletedFacts.


